(** * DMSCode: document index and hybrid retrieval engine

    A shallow embedding of the TypeScript service [DmsService]
    (tag management, index persistence, search router, lexical scorer)
    and of the chat participant [DmsAssistant.handleGeneral], together
    with the properties of the engine's specification.

    Conventions of the embedding
    - A JavaScript string is a [string]: a sequence of code units, here
      restricted to U+0000..U+00FF (one [ascii] per code unit).  On that
      range [toLowerCase], [trim] and the regular expression class [\s]
      are modelled exactly.
    - A JavaScript number that carries a score or a distance is an exact
      rational ([Qc]); rounding of IEEE doubles is not modelled, and a
      quotient by zero, which the modelled paths never take for a
      non-negative distance, is 0 as everywhere in [Qc].
    - A [Date] is its time value, an integer number of milliseconds since
      the epoch.
    - [Map<string, DmsDocument>] is a [gmap string DmsDocument]; objects
      held by the map are values (no claim below depends on aliasing).
    - Asynchronous methods run to completion; they are functions in a
      state-and-exception monad over the service's state, which also
      records every call that leaves the process in a trace.  Output to
      the console is not recorded. *)

From Stdlib Require Import ZArith QArith Qcanon Ascii String List Lia Bool Sorted.
From Stdlib Require DecimalString DecimalZ DecimalPos.
From stdpp Require Import numbers base option list gmap strings.

Local Open Scope string_scope.

(* ===================================================================== *)
(** ** JavaScript strings                                                 *)
(* ===================================================================== *)

Module Js.

(** [String.prototype.toLowerCase] on one code unit of U+0000..U+00FF:
    A..Z, and the Latin-1 capitals U+00C0..U+00DE except U+00D7. *)
Definition lowerChar (c : ascii) : ascii :=
  let n := nat_of_ascii c in
  if (65 <=? n)%nat && (n <=? 90)%nat then ascii_of_nat (n + 32)
  else if (192 <=? n)%nat && (n <=? 222)%nat && negb (n =? 215)%nat
       then ascii_of_nat (n + 32)
  else c.

Fixpoint toLowerCase (s : string) : string :=
  match s with
  | EmptyString => EmptyString
  | String c s' => String (lowerChar c) (toLowerCase s')
  end.

(** White space and line terminators of U+0000..U+00FF: TAB, LF, VT, FF,
    CR, SP and NBSP.  [trim] and the class [\s] use the same set. *)
Definition isWhiteSpace (c : ascii) : bool :=
  let n := nat_of_ascii c in
  ((9 <=? n)%nat && (n <=? 13)%nat) || (n =? 32)%nat || (n =? 160)%nat.

Fixpoint trimStart (s : string) : string :=
  match s with
  | EmptyString => EmptyString
  | String c s' => if isWhiteSpace c then trimStart s' else s
  end.

(** [trimEnd] keeps a character when it is not white space or when
    something remains after it. *)
Fixpoint trimEnd (s : string) : string :=
  match s with
  | EmptyString => EmptyString
  | String c s' =>
      match trimEnd s' with
      | EmptyString => if isWhiteSpace c then EmptyString else String c EmptyString
      | r => String c r
      end
  end.

Definition trim (s : string) : string := trimEnd (trimStart s).

(** The string is empty or consists of white space only. *)
Fixpoint allWhiteSpace (s : string) : bool :=
  match s with
  | EmptyString => true
  | String c s' => isWhiteSpace c && allWhiteSpace s'
  end.

(** [s.startsWith(p)] *)
Fixpoint startsWith (s p : string) {struct p} : bool :=
  match p, s with
  | EmptyString, _ => true
  | String _ _, EmptyString => false
  | String a p', String b s' => if Ascii.eqb a b then startsWith s' p' else false
  end.

(** [s.indexOf(p)]; [None] stands for -1. *)
Fixpoint indexOf (s p : string) : option nat :=
  if startsWith s p then Some 0%nat
  else match s with
       | EmptyString => None
       | String _ s' => S <$> indexOf s' p
       end.

(** [s.includes(p)] *)
Definition includes (s p : string) : bool := bool_decide (is_Some (indexOf s p)).

(** [s.substring(start)] and [s.substring(start, end)] for
    [0 <= start <= end]. *)
Fixpoint substringFrom (start : nat) (s : string) : string :=
  match start, s with
  | O, _ => s
  | S n, EmptyString => EmptyString
  | S n, String _ s' => substringFrom n s'
  end.

Fixpoint take (n : nat) (s : string) : string :=
  match n, s with
  | O, _ => EmptyString
  | S _, EmptyString => EmptyString
  | S n', String c s' => String c (take n' s')
  end.

Definition substring (start stop : nat) (s : string) : string :=
  take (stop - start) (substringFrom start s).

(** [s.split(/\s+/)]: the pieces between maximal runs of white space.
    [inSep] tells that the previous character was white space; the head of
    the result is the piece being read. *)
Fixpoint splitWsFrom (inSep : bool) (s : string) : list string :=
  match s with
  | EmptyString => [EmptyString]
  | String c s' =>
      if isWhiteSpace c then
        if inSep then splitWsFrom true s'
        else EmptyString :: splitWsFrom true s'
      else
        match splitWsFrom false s' with
        | piece :: rest => String c piece :: rest
        | [] => [String c EmptyString]
        end
  end.

Definition splitWs (s : string) : list string := splitWsFrom false s.

(** [s.replace(".", "")]: a string pattern replaces its first
    occurrence only. *)
Fixpoint removeFirstDot (s : string) : string :=
  match s with
  | EmptyString => EmptyString
  | String c s' => if Ascii.eqb c "."%char then s' else String c (removeFirstDot s')
  end.

(** Truthiness of a string: only the empty string is falsy. *)
Definition truthy (s : string) : bool := negb (String.eqb s "").

(** [a || b] on strings that may be undefined. *)
Definition orElse (a : option string) (b : string) : string :=
  match a with
  | Some s => if truthy s then s else b
  | None => b
  end.

End Js.

(* ===================================================================== *)
(** ** Dates: time values and the date-time string format                 *)
(* ===================================================================== *)

(** The index file stores [createdAt] and [modifiedAt] as the strings
    that [JSON.stringify] obtains from [Date.prototype.toJSON], that is
    [toISOString]; [loadDocumentsCache] turns them back with [new Date(s)].
    Both directions are the ECMAScript definitions (ECMA-262, "Time Values
    and Time Range", "Date Time String Format"), over [Z]. *)

Module Dates.

Local Open Scope Z_scope.

Definition msPerDay : Z := 86400000.
Definition msPerHour : Z := 3600000.
Definition msPerMinute : Z := 60000.
Definition msPerSecond : Z := 1000.

(** The time values a [Date] object can hold (what [TimeClip] accepts). *)
Definition maxTime : Z := 8640000000000000.
Definition validTime (t : Z) : Prop := - maxTime <= t <= maxTime.

Definition Day (t : Z) : Z := t / msPerDay.
Definition TimeWithinDay (t : Z) : Z := t mod msPerDay.

Definition DaysInYear (y : Z) : Z :=
  if negb (y mod 4 =? 0) then 365
  else if negb (y mod 100 =? 0) then 366
  else if negb (y mod 400 =? 0) then 365
  else 366.

Definition DayFromYear (y : Z) : Z :=
  365 * (y - 1970) + (y - 1969) / 4 - (y - 1901) / 100 + (y - 1601) / 400.

Definition TimeFromYear (y : Z) : Z := msPerDay * DayFromYear y.

(** [YearFromTime t] is the largest [y] with [TimeFromYear y <= t]: the
    mean Gregorian year gives an estimate that is off by at most one. *)
Definition YearFromTime (t : Z) : Z :=
  let d := Day t in
  let y := 1970 + (400 * d) / 146097 in
  if DayFromYear (y + 1) <=? d then y + 1
  else if d <? DayFromYear y then y - 1
  else y.

Definition InLeapYear (t : Z) : Z :=
  if DaysInYear (YearFromTime t) =? 366 then 1 else 0.

Definition DayWithinYear (t : Z) : Z := Day t - DayFromYear (YearFromTime t).

(** Number of days of the year before month [m] (0 = January). *)
Definition daysBeforeMonth (leap m : Z) : Z :=
  match m with
  | 0 => 0 | 1 => 31 | 2 => 59 + leap | 3 => 90 + leap | 4 => 120 + leap
  | 5 => 151 + leap | 6 => 181 + leap | 7 => 212 + leap | 8 => 243 + leap
  | 9 => 273 + leap | 10 => 304 + leap | 11 => 334 + leap | _ => 365 + leap
  end.

Definition monthOfDay (leap d : Z) : Z :=
  if d <? 31 then 0
  else if d <? 59 + leap then 1
  else if d <? 90 + leap then 2
  else if d <? 120 + leap then 3
  else if d <? 151 + leap then 4
  else if d <? 181 + leap then 5
  else if d <? 212 + leap then 6
  else if d <? 243 + leap then 7
  else if d <? 273 + leap then 8
  else if d <? 304 + leap then 9
  else if d <? 334 + leap then 10
  else 11.

Definition MonthFromTime (t : Z) : Z := monthOfDay (InLeapYear t) (DayWithinYear t).

Definition DateFromTime (t : Z) : Z :=
  DayWithinYear t - daysBeforeMonth (InLeapYear t) (MonthFromTime t) + 1.

Definition HourFromTime (t : Z) : Z := (t / msPerHour) mod 24.
Definition MinFromTime (t : Z) : Z := (t / msPerMinute) mod 60.
Definition SecFromTime (t : Z) : Z := (t / msPerSecond) mod 60.
Definition msFromTime (t : Z) : Z := t mod msPerSecond.

Definition MakeTime (h m s ms : Z) : Z :=
  h * msPerHour + m * msPerMinute + s * msPerSecond + ms.

(** [MakeDay] for a month in 0..11: the day number of the first of the
    month, plus the date. *)
Definition MakeDay (y m d : Z) : Z :=
  let leap := if DaysInYear y =? 366 then 1 else 0 in
  DayFromYear y + daysBeforeMonth leap m + d - 1.

Definition MakeDate (day time : Z) : Z := day * msPerDay + time.

Definition TimeClip (t : Z) : option Z :=
  if (- maxTime <=? t) && (t <=? maxTime) then Some t else None.

Definition DaysInMonth (y m : Z) : Z :=
  let leap := if DaysInYear y =? 366 then 1 else 0 in
  daysBeforeMonth leap (m + 1) - daysBeforeMonth leap m.

(** *** Decimal fields *)

Definition digitChar (d : Z) : ascii := ascii_of_nat (48 + Z.to_nat d).

Definition digitValue (c : ascii) : option Z :=
  let n := nat_of_ascii c in
  if (48 <=? n)%nat && (n <=? 57)%nat then Some (Z.of_nat n - 48) else None.

(** [n] written with exactly [k] decimal digits. *)
Fixpoint padDigits (k : nat) (n : Z) : string :=
  match k with
  | O => EmptyString
  | S k' => String (digitChar ((n / 10 ^ Z.of_nat k') mod 10)) (padDigits k' n)
  end.

Fixpoint readDigits (k : nat) (acc : Z) (s : string) : option (Z * string) :=
  match k with
  | O => Some (acc, s)
  | S k' =>
      match s with
      | String c s' =>
          match digitValue c with
          | Some d => readDigits k' (10 * acc + d) s'
          | None => None
          end
      | EmptyString => None
      end
  end.

Definition expect (c : ascii) (s : string) : option string :=
  match s with
  | String c' s' => if Ascii.eqb c c' then Some s' else None
  | EmptyString => None
  end.

(** *** [Date.prototype.toISOString] *)

(** Years 0..9999 take four digits, all others a sign and six digits. *)
Definition yearString (y : Z) : string :=
  if (0 <=? y) && (y <=? 9999) then padDigits 4 y
  else if 0 <=? y then String "+"%char (padDigits 6 y)
  else String "-"%char (padDigits 6 (- y)).

Definition toISOString (t : Z) : string :=
  yearString (YearFromTime t) +:+ "-" +:+ padDigits 2 (MonthFromTime t + 1)
  +:+ "-" +:+ padDigits 2 (DateFromTime t)
  +:+ "T" +:+ padDigits 2 (HourFromTime t)
  +:+ ":" +:+ padDigits 2 (MinFromTime t)
  +:+ ":" +:+ padDigits 2 (SecFromTime t)
  +:+ "." +:+ padDigits 3 (msFromTime t) +:+ "Z".

(** *** [new Date(s)] on a complete UTC date-time string

    The reader accepts the format that [toISOString] writes,
    [YYYY-MM-DDTHH:mm:ss.sssZ] with a four-digit or an expanded signed
    six-digit year, and rejects illegal element values.  [None] stands
    for a string this reader does not turn into a time value. *)

Definition readYear (s : string) : option (Z * string) :=
  match s with
  | String "+" s' => readDigits 6 0 s'
  | String "-" s' =>
      '(y, r) ← readDigits 6 0 s';
      if y =? 0 then None else Some (- y, r)
  | _ => readDigits 4 0 s
  end.

Definition parseDate (s : string) : option Z :=
  '(y, s) ← readYear s;
  s ← expect "-" s;
  '(mo, s) ← readDigits 2 0 s;
  s ← expect "-" s;
  '(d, s) ← readDigits 2 0 s;
  s ← expect "T" s;
  '(h, s) ← readDigits 2 0 s;
  s ← expect ":" s;
  '(mi, s) ← readDigits 2 0 s;
  s ← expect ":" s;
  '(sec, s) ← readDigits 2 0 s;
  s ← expect "." s;
  '(ms, s) ← readDigits 3 0 s;
  s ← expect "Z" s;
  if negb (String.eqb s "") then None
  else if negb ((1 <=? mo) && (mo <=? 12)) then None
  else if negb ((1 <=? d) && (d <=? DaysInMonth y (mo - 1))) then None
  else if negb ((h <=? 23) && (mi <=? 59) && (sec <=? 59)) then None
  else TimeClip (MakeDate (MakeDay y (mo - 1) d) (MakeTime h mi sec ms)).

End Dates.

(* ===================================================================== *)
(** ** Data model                                                         *)
(* ===================================================================== *)

Inductive DmsErrorCode :=
  | SERVICE_UNAVAILABLE | OCR_FAILED | SEARCH_FAILED | LLM_ERROR
  | TTS_ERROR | FILE_NOT_FOUND | INVALID_DOCUMENT | NETWORK_ERROR.

(** [interface DmsDocument].  [id], [name], [path] and [type] carry the
    prefix [doc_]; the optional fields are options. *)
Record DmsDocument := mkDmsDocument {
  doc_id : string;
  doc_name : string;
  doc_path : string;
  doc_type : string;
  tags : list string;
  createdAt : Z;
  modifiedAt : Z;
  ocrText : option string;
  embedding : option (list Qc);
  metadata : option (gmap string string)
}.

Definition withTags (doc : DmsDocument) (ts : list string) : DmsDocument :=
  {| doc_id := doc_id doc; doc_name := doc_name doc; doc_path := doc_path doc;
     doc_type := doc_type doc; tags := ts;
     createdAt := createdAt doc; modifiedAt := modifiedAt doc;
     ocrText := ocrText doc; embedding := embedding doc; metadata := metadata doc |}.

(** [interface SearchResult] *)
Record SearchResult := mkSearchResult {
  document : DmsDocument;
  score : Qc;
  snippet : string
}.

(** What [JSON.stringify] writes for one document: the dates have become
    strings ([None] is [null]). *)
Record StoredDocument := mkStoredDocument {
  s_id : string;
  s_name : string;
  s_path : string;
  s_type : string;
  s_tags : list string;
  s_createdAt : option string;
  s_modifiedAt : option string;
  s_ocrText : option string;
  s_embedding : option (list Qc);
  s_metadata : option (gmap string string)
}.

(** The file [dms-index.json] below the documents folder: missing, not
    readable as the index (the [try] block of [loadDocumentsCache]
    throws), or a JSON object from path to stored document. *)
Inductive IndexFile :=
  | FileAbsent
  | FileCorrupt
  | FileData (data : gmap string StoredDocument).

(** Outcome of a method: a value, or a thrown [DmsError] with its code. *)
Inductive Result (A : Type) :=
  | Ok (a : A)
  | Throw (code : DmsErrorCode).
Arguments Ok {A} a.
Arguments Throw {A} code.

(** *** Collaborators *)

(** One item of the semantic-search response. *)
Record BackendResult := mkBackendResult {
  r_id : string;
  r_text : option string;
  r_metadata : option (gmap string string);
  r_distance : option Qc
}.

(** Outcome of [axios.post(semanticSearchEndpoint/search)]: the call
    throws (time-out, connection refused, status outside 2xx), or it
    answers with [response.data.results], which may be missing. *)
Inductive SearchResponse :=
  | SearchFailed (code : option string) (status : option nat)
  | SearchOk (results : option (list BackendResult)).

(** One entity row of a graph answer, its fields already rendered. *)
Record GraphEntity := mkGraphEntity {
  e_type : string;
  e_value : string;
  e_confidence : string
}.

(** Outcome of [queryKnowledgeGraph]: a [DmsError], or [response.data]
    with its [result] array of statement results, each with a [result]
    array of rows; either may be missing. *)
Inductive GraphResponse :=
  | GraphFailed
  | GraphOk (result : option (list (option (list GraphEntity)))).

Record Stats := mkStats { birthtime : Z; mtime : Z }.

(** What the chat participant writes to its response stream. *)
Inductive StreamItem :=
  | Progress (text : string)
  | Markdown (text : string)
  | Reference (fsPath : string)
  | Button (command : string) (title : string).

(** Calls that leave the service, in the order in which they happen. *)
Inductive Event :=
  | EvReadDir
  | EvWriteIndex
  | EvUpdateGlobalState
  | EvPostSearch (query : string) (limit : nat)
  | EvPostGraph (query : string)
  | EvChat (message : string) (context : string)
  | EvStream (item : StreamItem).

(** The platform below the service: Node's [Buffer], [path] and [fs], the
    clock, and the remote collaborators; [chat] is the whole method
    [DmsService.chat], which only talks to the generation service.  The
    service is modelled over any instance of this record. *)
Record Runtime := mkRuntime {
  (* Buffer.from(id, "base64").toString("utf-8") *)
  fromBase64 : string -> string;
  (* Buffer.from(path).toString("base64") *)
  toBase64 : string -> string;
  (* path.basename, path.extname *)
  basename : string -> string;
  extname : string -> string;
  (* scanDirectory(documentsPath): the supported files below the folder *)
  readDocumentsDir : list string;
  (* fs.statSync *)
  statSync : string -> Stats;
  (* whether fs.writeFileSync of dms-index.json goes through *)
  writeFileSucceeds : bool;
  (* the time value of new Date() *)
  now : Z;
  (* axios.post to the search endpoint, by query and limit *)
  postSearch : string -> nat -> SearchResponse;
  (* axios.post to the graph endpoint, by query *)
  postGraphQuery : string -> GraphResponse;
  (* DmsService.chat, by message and context *)
  chat : string -> string -> Result string
}.

(** The same platform with another semantic-search collaborator. *)
Definition withPostSearch (f : string -> nat -> SearchResponse) (rt : Runtime) : Runtime :=
  {| fromBase64 := fromBase64 rt; toBase64 := toBase64 rt;
     basename := basename rt; extname := extname rt;
     readDocumentsDir := readDocumentsDir rt; statSync := statSync rt;
     writeFileSucceeds := writeFileSucceeds rt; now := now rt;
     postSearch := f;
     postGraphQuery := postGraphQuery rt; chat := chat rt |}.

(** *** State of the service and of its persistent stores *)

Record World := mkWorld {
  documentsCache : gmap string DmsDocument;
  indexFile : IndexFile;
  globalState : option (gmap string DmsDocument);
  trace : list Event
}.

Definition setCache (c : gmap string DmsDocument) (w : World) : World :=
  {| documentsCache := c; indexFile := indexFile w;
     globalState := globalState w; trace := trace w |}.

Definition emit (e : Event) (w : World) : World :=
  {| documentsCache := documentsCache w; indexFile := indexFile w;
     globalState := globalState w; trace := trace w ++ [e] |}.

(* ===================================================================== *)
(** ** The monad of asynchronous methods                                  *)
(* ===================================================================== *)

Definition M (A : Type) : Type := World -> Result A * World.

Definition ret {A} (a : A) : M A := fun w => (Ok a, w).

Definition bind {A B} (m : M A) (k : A -> M B) : M B :=
  fun w => match m w with
           | (Ok a, w') => k a w'
           | (Throw c, w') => (Throw c, w')
           end.

Definition throw {A} (c : DmsErrorCode) : M A := fun w => (Throw c, w).

(** [try { m } catch { h }] *)
Definition tryCatch {A} (m : M A) (h : DmsErrorCode -> M A) : M A :=
  fun w => match m w with
           | (Ok a, w') => (Ok a, w')
           | (Throw c, w') => h c w'
           end.

Definition getWorld : M World := fun w => (Ok w, w).
Definition modifyWorld (f : World -> World) : M unit := fun w => (Ok tt, f w).
Definition tell (e : Event) : M unit := modifyWorld (emit e).

Declare Scope m_scope.
Delimit Scope m_scope with M.
Notation "'let*' x := m 'in' k" := (bind m (fun x => k))
  (at level 10, x name, m at level 100, k at level 200) : m_scope.
Notation "'run' m 'in' k" := (bind m (fun _ => k))
  (at level 10, m at level 100, k at level 200) : m_scope.
Local Open Scope m_scope.

(* ===================================================================== *)
(** ** DmsService                                                         *)
(* ===================================================================== *)

Section Service.

Context (rt : Runtime).

(** [getPathFromId]: [Buffer.from(id, "base64").toString("utf-8")]; the
    decoder of the platform is total, so that the [catch] branch of the
    source is not taken. *)
Definition getPathFromId (id : string) : string := fromBase64 rt id.

(** *** Persistence *)

(** [JSON.stringify] of one document: [Date.prototype.toJSON] is
    [toISOString]. *)
Definition toJSON (doc : DmsDocument) : StoredDocument :=
  {| s_id := doc_id doc; s_name := doc_name doc; s_path := doc_path doc;
     s_type := doc_type doc; s_tags := tags doc;
     s_createdAt := Some (Dates.toISOString (createdAt doc));
     s_modifiedAt := Some (Dates.toISOString (modifiedAt doc));
     s_ocrText := ocrText doc; s_embedding := embedding doc;
     s_metadata := metadata doc |}.

(** [saveDocumentsCache]: writes the whole map to [dms-index.json] (a
    failing write is caught and leaves the file as it was) and mirrors it
    into [globalState]. *)
Definition saveDocumentsCache : M unit := fun w =>
  let cacheObject := documentsCache w in
  let file :=
    if writeFileSucceeds rt then FileData (toJSON <$> cacheObject)
    else indexFile w in
  (Ok tt,
   {| documentsCache := documentsCache w;
      indexFile := file;
      globalState := Some cacheObject;
      trace := trace w ++ [EvWriteIndex; EvUpdateGlobalState] |}).

(** [if (v) v = new Date(v)] on a stored date, read as a [Date]: the
    result when the field is a non-empty string that [new Date] turns
    into a time value. *)
Definition reviveDate (v : option string) : option Z :=
  match v with
  | Some s => if Js.truthy s then Dates.parseDate s else None
  | None => None
  end.

(** One entry of the parsed file after the date conversion, read at type
    [DmsDocument]. *)
Definition revive (sd : StoredDocument) : option DmsDocument :=
  c ← reviveDate (s_createdAt sd);
  m ← reviveDate (s_modifiedAt sd);
  Some {| doc_id := s_id sd; doc_name := s_name sd; doc_path := s_path sd;
          doc_type := s_type sd; tags := s_tags sd;
          createdAt := c; modifiedAt := m;
          ocrText := s_ocrText sd; embedding := s_embedding sd;
          metadata := s_metadata sd |}.

(** [loadDocumentsCache].  The source casts the parsed JSON to
    [Map<string, DmsDocument>] unchecked; the result is [None] when some
    entry of the file is not a [DmsDocument] after the date conversion
    (such a store has no description at the types of this model).

    1. [dms-index.json] exists and parses: convert the dates, replace the
       cache, return.
    2. Otherwise take the map kept in [globalState], if any, and trigger a
       save that creates the file. *)
Definition loadDocumentsCache (w : World) : option World :=
  match indexFile w with
  | FileData data =>
      if bool_decide (map_Forall (fun _ sd => is_Some (revive sd)) data)
      then Some (setCache (omap revive data) w)
      else None
  | FileAbsent | FileCorrupt =>
      match globalState w with
      | Some cacheData => Some (snd (saveDocumentsCache (setCache cacheData w)))
      | None => Some w
      end
  end.

(** *** Scanning *)

(** [createDocumentEntry] *)
Definition createDocumentEntry (filePath : string) : DmsDocument :=
  let stats := statSync rt filePath in
  let ext := Js.toLowerCase (extname rt filePath) in
  {| doc_id := toBase64 rt filePath;
     doc_name := basename rt filePath;
     doc_path := filePath;
     doc_type := Js.removeFirstDot ext;
     tags := [];
     createdAt := birthtime stats;
     modifiedAt := mtime stats;
     ocrText := None; embedding := None; metadata := None |}.

(** The loop of [getDocuments] over the scanned files: a file that the
    cache knows yields the cached record, any other file gets a fresh
    record that is also put into the cache. *)
Fixpoint collectDocuments (files : list string) (cache : gmap string DmsDocument)
  : list DmsDocument * gmap string DmsDocument :=
  match files with
  | [] => ([], cache)
  | file :: rest =>
      match cache !! file with
      | Some existing =>
          let '(docs, cache') := collectDocuments rest cache in
          (existing :: docs, cache')
      | None =>
          let doc := createDocumentEntry file in
          let '(docs, cache') := collectDocuments rest (<[file := doc]> cache) in
          (doc :: docs, cache')
      end
  end.

(** [getDocuments]: scans the documents folder ([readDocumentsDir] is
    what [scanDirectory(documentsPath)] returns), reconciles it with the
    cache, saves, and returns the records of the scanned files.  That the
    folder is created when it is missing is not modelled. *)
Definition getDocuments : M (list DmsDocument) :=
  run tell EvReadDir in
  let* w := getWorld in
  let '(documents, cache) := collectDocuments (readDocumentsDir rt) (documentsCache w) in
  run modifyWorld (setCache cache) in
  run saveDocumentsCache in
  ret documents.

(** [getDocumentsByTag] *)
Definition getDocumentsByTag (tag : string) : M (list DmsDocument) :=
  let* docs := getDocuments in
  ret (filter (fun d => tag ∈ tags d) docs).

(** *** Tag management *)

(** [addTagToDocument] *)
Definition addTagToDocument (documentId tag : string) : M unit :=
  let* w := getWorld in
  let key := getPathFromId documentId in
  match documentsCache w !! key with
  | Some doc =>
      if bool_decide (tag ∈ tags doc) then ret tt
      else
        run modifyWorld
          (setCache (<[key := withTags doc (tags doc ++ [tag])]> (documentsCache w))) in
        saveDocumentsCache
  | None => ret tt
  end.

(** [removeTagFromDocument] *)
Definition removeTagFromDocument (documentId tag : string) : M unit :=
  let* w := getWorld in
  let key := getPathFromId documentId in
  match documentsCache w !! key with
  | Some doc =>
      let kept := filter (fun t => t ≠ tag) (tags doc) in
      run modifyWorld (setCache (<[key := withTags doc kept]> (documentsCache w))) in
      saveDocumentsCache
  | None => ret tt
  end.

(** [tags[tags.indexOf(oldTag)] = newTag] when [oldTag] occurs. *)
Definition replaceFirst (oldTag newTag : string) (ts : list string) : list string :=
  match list_find (fun t => t = oldTag) ts with
  | Some (index, _) => <[index := newTag]> ts
  | None => ts
  end.

(** Number of records of the cache that carry [tag]. *)
Definition countTagged (tag : string) (cache : gmap string DmsDocument) : nat :=
  size (filter (fun kv => tag ∈ tags kv.2) cache).

(** [renameTag] *)
Definition renameTag (oldTag newTag : string) : M nat :=
  let* w := getWorld in
  let count := countTagged oldTag (documentsCache w) in
  run modifyWorld
    (setCache ((fun doc => withTags doc (replaceFirst oldTag newTag (tags doc)))
               <$> documentsCache w)) in
  run (if (0 <? count)%nat then saveDocumentsCache else ret tt) in
  ret count.

(** [deleteTag] *)
Definition deleteTag (tag : string) : M nat :=
  let* w := getWorld in
  let count := countTagged tag (documentsCache w) in
  run modifyWorld
    (setCache ((fun doc =>
                  if bool_decide (tag ∈ tags doc)
                  then withTags doc (filter (fun t => t ≠ tag) (tags doc))
                  else doc)
               <$> documentsCache w)) in
  run (if (0 <? count)%nat then saveDocumentsCache else ret tt) in
  ret count.

(** *** Search router and lexical scorer *)

Local Open Scope Qc_scope.

(** Truthiness of a number: zero is falsy. *)
Definition numberTruthy (x : Qc) : bool := negb (bool_decide (x = 0)).

(** [r.distance ? 1 / (1 + r.distance) : 0.5] *)
Definition scoreOfDistance (distance : option Qc) : Qc :=
  match distance with
  | Some d => if numberTruthy d then 1 / (1 + d) else Q2Qc (1 # 2)
  | None => Q2Qc (1 # 2)
  end.

(** [r.metadata?.key] *)
Definition metadataField (m : option (gmap string string)) (key : string) : option string :=
  m ≫= (fun fields => fields !! key).

(** The arrow function that maps one backend result to a [SearchResult]. *)
Definition toSearchResult (r : BackendResult) : SearchResult :=
  {| document :=
       {| doc_id := r_id r;
          doc_name := Js.orElse (metadataField (r_metadata r) "title") (r_id r);
          doc_path := Js.orElse (metadataField (r_metadata r) "path") "";
          doc_type := Js.orElse (metadataField (r_metadata r) "type") "unknown";
          tags := [];
          createdAt := now rt;
          modifiedAt := now rt;
          ocrText := r_text r;
          embedding := None; metadata := None |};
     score := scoreOfDistance (r_distance r);
     snippet := Js.orElse (Js.substring 0 200 <$> r_text r) "" |}.

(** [query.toLowerCase().split(/\s+/).filter((t) => t.length > 1)] *)
Definition queryTermsOf (query : string) : list string :=
  filter (fun t => (1 < String.length t)%nat) (Js.splitWs (Js.toLowerCase query)).

(** Body of the loop over [queryTerms]: the new value of [score]. *)
Definition scoreTerm (doc : DmsDocument) (score : Qc) (term : string) : Qc :=
  let nameLower := Js.toLowerCase (doc_name doc) in
  let tagsLower := map Js.toLowerCase (tags doc) in
  let score :=
    if String.eqb nameLower term then score + 1
    else if Js.includes nameLower term then score + Q2Qc (6 # 10)
    else score in
  let score :=
    if bool_decide (term ∈ tagsLower) then score + Q2Qc (8 # 10)
    else if existsb (fun t => Js.includes t term) tagsLower then score + Q2Qc (4 # 10)
    else score in
  match ocrText doc with
  | Some text =>
      if Js.includes (Js.toLowerCase text) term then score + Q2Qc (3 # 10) else score
  | None => score
  end.

Definition Math_min (a b : Qc) : Qc := if decide (a ≤ b) then a else b.

(** The snippet of a hit: a window around the first occurrence of the
    first query term in the OCR text, or the document name.  On a missing
    first term [indexOf] would look for the text "undefined". *)
Definition snippetOf (doc : DmsDocument) (queryTerms : list string) : string :=
  match ocrText doc with
  | Some text =>
      if Js.truthy text then
        match Js.indexOf (Js.toLowerCase text) (default "undefined" (head queryTerms)) with
        | Some index =>
            let start := (index - 50)%nat in
            let stop := Nat.min (String.length text) (index + 150) in
            (if (0 <? start)%nat then "..." else "")
            +:+ Js.substring start stop text
            +:+ (if (stop <? String.length text)%nat then "..." else "")
        | None => doc_name doc
        end
      else doc_name doc
  | None => doc_name doc
  end.

(** Body of the loop over [docs]: the new value of [results]. *)
Definition scoreDocument (queryTerms : list string)
    (results : list SearchResult) (doc : DmsDocument) : list SearchResult :=
  let score := fold_left (scoreTerm doc) queryTerms 0 in
  if bool_decide (0 < score) then
    let normalizedScore := Math_min (score / Q2Qc (Z.of_nat (length queryTerms) # 1)) 1 in
    results ++ [ {| document := doc; score := normalizedScore;
                    snippet := snippetOf doc queryTerms |} ]
  else results.

(** [results.sort((a, b) => b.score - a.score)]: [Array.prototype.sort]
    is stable; an element moves in front of the elements that the
    comparison does not put before it. *)
Fixpoint insertByScore (x : SearchResult) (sorted : list SearchResult) : list SearchResult :=
  match sorted with
  | [] => [x]
  | y :: rest =>
      if bool_decide (score x < score y) then y :: insertByScore x rest
      else x :: y :: rest
  end.

Definition sortByScore (results : list SearchResult) : list SearchResult :=
  foldr insertByScore [] results.

(** The part of [enhancedSearch] after [getDocuments]. *)
Definition rankDocuments (query : string) (docs : list DmsDocument) : list SearchResult :=
  let queryTerms := queryTermsOf query in
  let results := fold_left (scoreDocument queryTerms) docs [] in
  firstn 10 (sortByScore results).

(** [enhancedSearch] *)
Definition enhancedSearch (query : string) : M (list SearchResult) :=
  let* docs := getDocuments in
  ret (rankDocuments query docs).

(** [axios.post] to the semantic-search endpoint. *)
Definition axiosPostSearch (query : string) (limit : nat) : M SearchResponse :=
  run tell (EvPostSearch query limit) in
  ret (postSearch rt query limit).

(** [semanticSearch] *)
Definition semanticSearch (query : string) : M (list SearchResult) :=
  if negb (Js.truthy query) || (String.length (Js.trim query) =? 0)%nat then ret []
  else if Js.startsWith (Js.toLowerCase query) "tag:" then
    let tag := Js.trim (Js.substringFrom 4 query) in
    let* docs := getDocumentsByTag tag in
    ret (map (fun doc => {| document := doc; score := 1;
                            snippet := "Tag Match: " +:+ tag |}) docs)
  else
    let* response := axiosPostSearch (Js.trim query) 10 in
    match response with
    | SearchOk results =>
        let backendResults := default [] results in
        ret (map toSearchResult backendResults)
    | SearchFailed _ _ => enhancedSearch query
    end.

End Service.

(* ===================================================================== *)
(** ** DmsAssistant: the hybrid retrieval coordinator                     *)
(* ===================================================================== *)

Section Assistant.

Context (rt : Runtime).

Definition nl : string := String (ascii_of_nat 10) EmptyString.

(** [vscode.window.activeTextEditor], as far as [handleGeneral] reads it:
    the file name, the whole text, and the selected text when the
    selection is not empty. *)
Record ActiveEditor := mkActiveEditor {
  fileName : string;
  documentText : string;
  selectedText : option string
}.

Inductive ChatResult := ChatSuccess.

Definition stream (item : StreamItem) : M unit := tell (EvStream item).

(** [DmsService.queryKnowledgeGraph] *)
Definition queryKnowledgeGraph (query : string)
  : M (option (list (option (list GraphEntity)))) :=
  run tell (EvPostGraph query) in
  match postGraphQuery rt query with
  | GraphOk data => ret data
  | GraphFailed => throw SERVICE_UNAVAILABLE
  end.

Definition entityLine (entity : GraphEntity) : string :=
  "- " +:+ e_type entity +:+ ": " +:+ e_value entity
  +:+ " (Confidence: " +:+ e_confidence entity +:+ ")" +:+ nl.

(** "Gefundene Entitaeten:", with U+00E4. *)
Definition entitiesHeader : string :=
  "Gefundene Entit" +:+ String (ascii_of_nat 228) "ten:" +:+ nl.

(** The template that [queryGraphForContext] selects, [entityQuery]. *)
Definition entityQueryFor (prompt : string) : string :=
  let p := Js.toLowerCase prompt in
  if Js.includes p "organisation" || Js.includes p "firma"
  then "SELECT * FROM entity WHERE type = 'organization' LIMIT 10"
  else if Js.includes p "person" || Js.includes p "wer"
  then "SELECT * FROM entity WHERE type = 'person' LIMIT 10"
  else if Js.includes p "datum" || Js.includes p "wann"
  then "SELECT * FROM entity WHERE type = 'date' LIMIT 10"
  else if Js.includes p "betrag" || Js.includes p "preis"
  then "SELECT * FROM entity WHERE type = 'amount' LIMIT 10"
  else "SELECT * FROM entity ORDER BY created_at DESC LIMIT 20".

(** [queryGraphForContext] *)
Definition queryGraphForContext (prompt : string) : M (option string) :=
  let entityQuery := entityQueryFor prompt in
  tryCatch
    (let* result := queryKnowledgeGraph entityQuery in
     match result with
     | Some (first :: _) =>
         ret (Some (fold_left (fun contextText entity => contextText +:+ entityLine entity)
                              (default [] first) entitiesHeader))
     | Some [] | None => ret None
     end)
    (fun _ => ret None).

Definition structuredKeywords : list string :=
  ["wer"; "welche"; "organisation"; "person"; "verbindung"; "beziehung";
   "zusammenhang"].

(** [structuredKeywords.some((kw) => prompt.toLowerCase().includes(kw))] *)
Definition useGraphRAG (prompt : string) : bool :=
  existsb (fun kw => Js.includes (Js.toLowerCase prompt) kw) structuredKeywords.

(** Step 1 of [handleGeneral]: the excerpt of the active document. *)
Definition editorContext (editor : option ActiveEditor) : string :=
  match editor with
  | Some e =>
      let text := match selectedText e with
                  | None => Js.substring 0 2000 (documentText e)
                  | Some sel => sel
                  end in
      nl +:+ "Aktives Dokument (" +:+ basename rt (fileName e) +:+ "):" +:+ nl
      +:+ text +:+ nl
  | None => ""
  end.

(** What one search result adds to the context. *)
Definition documentBlock (result : SearchResult) : string :=
  nl +:+ "--- Dokument: " +:+ doc_name (document result) +:+ " ---" +:+ nl
  +:+ snippet result +:+ nl.

(** The loop over [topDocs]: extends the context and shows the reference. *)
Fixpoint addTopDocs (topDocs : list SearchResult) (context : string) : M string :=
  match topDocs with
  | [] => ret context
  | result :: rest =>
      run stream (Reference (doc_path (document result))) in
      addTopDocs rest (context +:+ documentBlock result)
  end.

(** Step 2 of [handleGeneral]: the knowledge graph, when the prompt asks
    for structured knowledge.  (The markdown note starts with an emoji in
    the source, which lies outside U+00FF and is left out here.) *)
Definition graphStep (prompt context : string) : M string :=
  if useGraphRAG prompt then
    tryCatch
      (run stream (Progress "Durchsuche Knowledge Graph...") in
       let* graphResult := queryGraphForContext prompt in
       match graphResult with
       | Some text =>
           if Js.truthy text then
             run stream (Markdown ("*Verwendet Knowledge Graph*" +:+ nl +:+ nl)) in
             ret (context +:+ nl +:+ "Knowledge Graph Informationen:" +:+ nl +:+ text)
           else ret context
       | None => ret context
       end)
      (fun _ => ret context)
  else ret context.

(** Step 3 of [handleGeneral]: the search router, always. *)
Definition searchStep (prompt context : string) : M string :=
  tryCatch
    (run stream (Progress "Suche relevante Dokumente...") in
     let* similarDocs := semanticSearch rt prompt in
     if (0 <? length similarDocs)%nat then
       let topDocs := firstn 3 similarDocs in
       let* context := addTopDocs topDocs
                         (context +:+ nl +:+ "Relevante Dokumente aus dem DMS:" +:+ nl) in
       ret (context +:+ nl +:+ "---" +:+ nl)
     else ret context)
    (fun _ => ret context).

(** [DmsService.chat], called by the assistant. *)
Definition callChat (message context : string) : M string :=
  run tell (EvChat message context) in
  fun w => (chat rt message context, w).

(** [handleGeneral].  (The titles of the two buttons start with an emoji
    in the source.) *)
Definition handleGeneral (editor : option ActiveEditor) (prompt : string) : M ChatResult :=
  run stream (Progress "Sammle Kontext...") in
  let context := editorContext editor in
  let* context := graphStep prompt context in
  let* context := searchStep prompt context in
  run stream (Progress "Generiere Antwort...") in
  let* response := callChat prompt context in
  run stream (Markdown response) in
  run stream (Markdown (nl +:+ nl +:+ "---" +:+ nl +:+ "**Weitere Aktionen:**")) in
  run stream (Button "dms.semanticSearch" "Suchen") in
  run stream (Button "dms.openDashboard" "Dashboard") in
  ret ChatSuccess.

(** The text that step 3 of [handleGeneral] appends for the results of
    the search router: nothing when there is no result, else a header,
    one block for each of the first three results, and a rule. *)
Definition searchContext (similarDocs : list SearchResult) : string :=
  match similarDocs with
  | [] => ""
  | _ =>
      (nl +:+ "Relevante Dokumente aus dem DMS:" +:+ nl)
      +:+ fold_right (fun result rest => documentBlock result +:+ rest)
            (nl +:+ "---" +:+ nl) (firstn 3 similarDocs)
  end.

End Assistant.

(** [w'] has the stores of [w] and the trace of [w] followed by [evs]. *)
Definition extends (w w' : World) (evs : list Event) : Prop :=
  documentsCache w' = documentsCache w
  ∧ indexFile w' = indexFile w
  ∧ globalState w' = globalState w
  ∧ trace w' = (trace w ++ evs)%list.

(** The events contain a call of the knowledge-graph collaborator. *)
Definition graphAttempted (evs : list Event) : Prop :=
  exists query, EvPostGraph query ∈ evs.

(** None of the events is a call of the knowledge-graph collaborator. *)
Definition quiet (evs : list Event) : Prop :=
  Forall (fun e => forall query, e ≠ EvPostGraph query) evs.

(** The events that [w'] has recorded after [w]. *)
Definition eventsSince (w w' : World) : list Event :=
  drop (length (trace w)) (trace w').

(** Every timestamp of the store is a time value that a [Date] can hold. *)
Definition validDates (cache : gmap string DmsDocument) : Prop :=
  map_Forall (fun _ doc => Dates.validTime (createdAt doc)
                           ∧ Dates.validTime (modifiedAt doc)) cache.

(** Every record of the store has a duplicate-free tag list. *)
Definition tagsUnique (cache : gmap string DmsDocument) : Prop :=
  map_Forall (fun _ doc => NoDup (tags doc)) cache.

(* ===================================================================== *)
(** ** The lexical scorer as the specification words it                   *)
(* ===================================================================== *)

(** The scorer of the specification, section 4.5, steps 1 to 4, written
    from its sentences and not from [enhancedSearch].  [norm] is what is
    done to a name or a tag before it is compared with a token: nothing
    in the sentences as they stand, lowercasing in the source. *)

Section LexicalSpec.

Local Open Scope Qc_scope.

Variable norm : string -> string.

(** Step 1: lowercase, split on white space, discard tokens of length <= 1. *)
Definition specTokens (query : string) : list string :=
  filter (fun t => ¬ (String.length t ≤ 1)%nat) (Js.splitWs (Js.toLowerCase query)).

(** Step 2, name: +1.0 when the name equals [t], +0.6 when it contains [t]
    without being equal. *)
Definition specNamePoints (name t : string) : Qc :=
  if decide (name = t) then 1
  else if Js.includes name t then Q2Qc (6 # 10)
  else 0.

(** Step 2, tags: +0.8 when a tag equals [t], +0.4 when a tag contains [t]
    and none equals it. *)
Definition specTagPoints (ts : list string) (t : string) : Qc :=
  if decide (Exists (fun tag => tag = t) ts) then Q2Qc (8 # 10)
  else if decide (Exists (fun tag => Js.includes tag t = true) ts) then Q2Qc (4 # 10)
  else 0.

(** Step 2, text: +0.3 when the OCR text contains [t], case-insensitively. *)
Definition specOcrPoints (text : option string) (t : string) : Qc :=
  match text with
  | Some s => if Js.includes (Js.toLowerCase s) t then Q2Qc (3 # 10) else 0
  | None => 0
  end.

Definition specPoints (doc : DmsDocument) (t : string) : Qc :=
  specNamePoints (norm (doc_name doc)) t
  + specTagPoints (map norm (tags doc)) t
  + specOcrPoints (ocrText doc) t.

Definition sumQc (l : list Qc) : Qc := foldr Qcplus 0 l.

Definition specAccumulated (doc : DmsDocument) (tokens : list string) : Qc :=
  sumQc (map (specPoints doc) tokens).

(** Step 3: [min(accumulated / tokenCount, 1.0)].  Without tokens nothing
    is accumulated and the quotient is 0. *)
Definition specFinalScore (doc : DmsDocument) (tokens : list string) : Qc :=
  Math_min (specAccumulated doc tokens / Q2Qc (Z.of_nat (length tokens) # 1)) 1.

(** Step 4: discard the records of final score 0, sort by descending
    score, keep ten.  The snippet, step 5, is the one of the source. *)
Definition specScorer (query : string) (docs : list DmsDocument) : list SearchResult :=
  let tokens := specTokens query in
  let scored :=
    map (fun doc => {| document := doc; score := specFinalScore doc tokens;
                       snippet := snippetOf doc tokens |}) docs in
  firstn 10 (sortByScore (filter (fun r => score r ≠ 0) scored)).

End LexicalSpec.

(** The sentences as they stand compare names and tags unchanged. *)
Definition lexicalScorerAsStated : string -> list DmsDocument -> list SearchResult :=
  specScorer (fun s => s).

(** The scorer with names and tags lowercased before the comparison. *)
Definition lexicalScorer : string -> list DmsDocument -> list SearchResult :=
  specScorer Js.toLowerCase.

(** A list of results is in descending order of score. *)
Definition descending (l : list SearchResult) : Prop :=
  Sorted (fun a b => (score b <= score a)%Qc) l.

(* ===================================================================== *)
(** ** A small installation, for the examples                             *)
(* ===================================================================== *)

Module Sample.

(** Base64 of a string of code units below 128, as [Buffer] computes it. *)
Definition alphabet : string :=
  "ABCDEFGHIJKLMNOPQRSTUVWXYZabcdefghijklmnopqrstuvwxyz0123456789+/".

Definition sextetChar (n : nat) : ascii := default "="%char (String.get n alphabet).

Fixpoint sextetOf (c : ascii) (table : string) (i : nat) : option nat :=
  match table with
  | EmptyString => None
  | String x rest => if Ascii.eqb x c then Some i else sextetOf c rest (S i)
  end.

Fixpoint encodeBytes (bytes : list nat) : string :=
  match bytes with
  | a :: b :: c :: rest =>
      String (sextetChar (a / 4))
        (String (sextetChar (a mod 4 * 16 + b / 16))
           (String (sextetChar (b mod 16 * 4 + c / 64))
              (String (sextetChar (c mod 64)) (encodeBytes rest))))
  | [a; b] =>
      String (sextetChar (a / 4))
        (String (sextetChar (a mod 4 * 16 + b / 16))
           (String (sextetChar (b mod 16 * 4)) "="))
  | [a] =>
      String (sextetChar (a / 4)) (String (sextetChar (a mod 4 * 16)) "==")
  | [] => ""
  end.

Fixpoint decodeSextets (sextets : list nat) : list nat :=
  match sextets with
  | a :: b :: c :: d :: rest =>
      (a * 4 + b / 16) :: (b mod 16 * 16 + c / 4) :: (c mod 4 * 64 + d)
      :: decodeSextets rest
  | [a; b; c] => [a * 4 + b / 16; b mod 16 * 16 + c / 4]
  | [a; b] => [a * 4 + b / 16]
  | _ => []
  end.

Definition encode64 (s : string) : string :=
  encodeBytes (map nat_of_ascii (list_ascii_of_string s)).

Definition decode64 (s : string) : string :=
  string_of_list_ascii
    (map ascii_of_nat
       (decodeSextets (omap (fun c => sextetOf c alphabet 0) (list_ascii_of_string s)))).

(** [path.basename] and [path.extname] on plain POSIX paths. *)
Fixpoint baseName (p : string) : string :=
  match p with
  | EmptyString => EmptyString
  | String c rest =>
      if Ascii.eqb c "/" || Js.includes rest "/" then baseName rest else p
  end.

Fixpoint extnameOf (name : string) : string :=
  match name with
  | EmptyString => EmptyString
  | String c rest =>
      if Js.includes rest "." then extnameOf rest
      else if Ascii.eqb c "." then name else EmptyString
  end.

Definition extName (p : string) : string := extnameOf (baseName p).

Definition invoicePath : string := "/docs/Invoice_2024.pdf".
Definition contractPath : string := "/docs/Contract.pdf".
Definition receiptPath : string := "/docs/Receipt_Invoice.pdf".

Definition stats : Stats := {| birthtime := 1704067200000; mtime := 1709210096789 |}.

Definition mkDoc (p : string) (ts : list string) (text : option string) : DmsDocument :=
  {| doc_id := encode64 p; doc_name := baseName p; doc_path := p;
     doc_type := "pdf"; tags := ts;
     createdAt := birthtime stats; modifiedAt := mtime stats;
     ocrText := text; embedding := None; metadata := None |}.

Definition invoice : DmsDocument :=
  mkDoc invoicePath ["invoice"] (Some "Rechnung Nr. 17 der Telekom").
Definition contract : DmsDocument := mkDoc contractPath ["legal"] None.
Definition receipt : DmsDocument := mkDoc receiptPath ["finance"] None.

Definition cache : gmap string DmsDocument :=
  <[invoicePath := invoice]> (<[contractPath := contract]> (<[receiptPath := receipt]> ∅)).

Definition world : World :=
  {| documentsCache := cache; indexFile := FileAbsent; globalState := None; trace := [] |}.

(** A store whose invoice carries two tags. *)
Definition twoTags : DmsDocument := mkDoc invoicePath ["invoice"; "legal"] None.

Definition worldTwoTags : World :=
  {| documentsCache := <[invoicePath := twoTags]> cache;
     indexFile := FileAbsent; globalState := None; trace := [] |}.

(** An identifier that decodes to a path the store does not track. *)
Definition unknownId : string := "L2RvY3MvbWlzc2luZy5wZGY=".

(** The remote collaborators are unreachable. *)
Definition offline : Runtime :=
  {| fromBase64 := decode64; toBase64 := encode64;
     basename := baseName; extname := extName;
     readDocumentsDir := [invoicePath; contractPath; receiptPath];
     statSync := fun _ => stats;
     writeFileSucceeds := true;
     now := 1717200000000;
     postSearch := fun _ _ => SearchFailed (Some "ECONNREFUSED") None;
     postGraphQuery := fun _ => GraphFailed;
     chat := fun _ _ => Throw SERVICE_UNAVAILABLE |}.

(** The semantic search answers with one hit at distance [d]. *)
Definition hitAt (d : option Qc) : BackendResult :=
  {| r_id := encode64 invoicePath; r_text := Some "Rechnung Nr. 17 der Telekom";
     r_metadata := None; r_distance := d |}.

Definition online (d : option Qc) : Runtime :=
  {| fromBase64 := decode64; toBase64 := encode64;
     basename := baseName; extname := extName;
     readDocumentsDir := [invoicePath; contractPath; receiptPath];
     statSync := fun _ => stats;
     writeFileSucceeds := true;
     now := 1717200000000;
     postSearch := fun _ _ => SearchOk (Some [hitAt d]);
     postGraphQuery :=
       fun _ => GraphOk (Some [Some [mkGraphEntity "person" "Erika Mustermann" "0.9"]]);
     chat := fun _ _ => Ok "Antwort" |}.

End Sample.

(* ===================================================================== *)
(** ** More of JavaScript: arrays, sets and text                          *)
(* ===================================================================== *)

Module JsArray.

Section Sort.

Context {A : Type}.

(** [after x y] tells that the comparison puts [x] behind [y]:
    [compareFn(x, y) > 0]. *)
Variable after : A -> A -> bool.

(** [Array.prototype.sort] is stable: an element moves in front of the
    elements that need not stand before it. *)
Fixpoint insert (x : A) (sorted : list A) : list A :=
  match sorted with
  | [] => [x]
  | y :: rest => if after x y then y :: insert x rest else x :: y :: rest
  end.

Definition sort (l : list A) : list A := foldr insert [] l.

End Sort.

(** [Set.prototype.add] on a [Set<string>], kept as the list of its
    members in insertion order. *)
Definition setAdd (members : list string) (x : string) : list string :=
  if bool_decide (x ∈ members) then members else members ++ [x].

End JsArray.

Module JsText.

(** [s.endsWith(suffix)] *)
Definition endsWith (s suffix : string) : bool :=
  (String.length suffix <=? String.length s)%nat
  && String.eqb (Js.substringFrom (String.length s - String.length suffix) s) suffix.

(** [s.split(sep)] for a separator of one code unit; the head of the
    result is the piece being read. *)
Fixpoint split (sep : ascii) (s : string) : list string :=
  match s with
  | EmptyString => [EmptyString]
  | String c s' =>
      if Ascii.eqb c sep then EmptyString :: split sep s'
      else match split sep s' with
           | piece :: rest => String c piece :: rest
           | [] => [String c EmptyString]
           end
  end.

(** [l.join(sep)] *)
Fixpoint join (sep : string) (l : list string) : string :=
  match l with
  | [] => ""
  | [x] => x
  | x :: rest => x +:+ sep +:+ join sep rest
  end.

(** The comparison of [Array.prototype.sort] without a comparator, on
    strings: code unit by code unit, a proper prefix first. *)
Definition after (x y : string) : bool := String.ltb y x.

(** An integer inside a template literal. *)
Definition decimal (n : Z) : string := DecimalString.NilZero.string_of_int (Z.to_int n).

(** The letters U+00E4, U+00F6 and U+00FC. *)
Definition ae : string := String (ascii_of_nat 228) "".
Definition oe : string := String (ascii_of_nat 246) "".
Definition ue : string := String (ascii_of_nat 252) "".

(** The class [[a-z0-9äöüß\-_]] of the tag pattern. *)
Definition isTagChar (c : ascii) : bool :=
  let n := nat_of_ascii c in
  ((97 <=? n)%nat && (n <=? 122)%nat)
  || ((48 <=? n)%nat && (n <=? 57)%nat)
  || (n =? 228)%nat || (n =? 246)%nat || (n =? 252)%nat || (n =? 223)%nat
  || (n =? 45)%nat || (n =? 95)%nat.

(** [s.replace(/[^a-z0-9äöüß\-_]/g, "")] *)
Fixpoint keepTagChars (s : string) : string :=
  match s with
  | EmptyString => EmptyString
  | String c s' => if isTagChar c then String c (keepTagChars s') else keepTagChars s'
  end.

End JsText.

(* ===================================================================== *)
(** ** DmsService: listings                                               *)
(* ===================================================================== *)

Section Listings.

Context (rt : Runtime).

Definition supportedTypes : list string :=
  [".pdf"; ".docx"; ".doc"; ".txt"; ".md"; ".epub"; ".png"; ".jpg"; ".jpeg"; ".tiff"].

(** [isSupportedFile] *)
Definition isSupportedFile (filename : string) : bool :=
  bool_decide (Js.toLowerCase (extname rt filename) ∈ supportedTypes).

(** [getDocumentCount] *)
Definition getDocumentCount : M nat :=
  let* docs := getDocuments rt in
  ret (length docs).

(** The loop of [getTags] over the documents and their tags. *)
Definition collectTags (docs : list DmsDocument) : list string :=
  fold_left (fun members doc => fold_left JsArray.setAdd (tags doc) members) docs [].

(** [getTags] *)
Definition getTags : M (list string) :=
  let* docs := getDocuments rt in
  ret (JsArray.sort JsText.after (collectTags docs)).

(** [getRecentDocuments]; [limit] is a natural number. *)
Definition getRecentDocuments (limit : nat) : M (list DmsDocument) :=
  let* docs := getDocuments rt in
  ret (firstn limit
         (JsArray.sort (fun a b => (modifiedAt a <? modifiedAt b)%Z) docs)).

End Listings.

(* ===================================================================== *)
(** ** The tree views                                                     *)
(* ===================================================================== *)

(** [TagTreeItem]: the argument of the command [dms.semanticSearch] that
    an entry of the tag view carries. *)
Definition tagQuery (tag : string) : string := "tag:" +:+ tag.

(** [RecentTreeItem.getRelativeTime]; [now] is the time value of
    [new Date()] and [toLocaleDateString] is the rendering of a date for
    the locale de-DE. *)
Definition getRelativeTime (toLocaleDateString : Z -> string) (now date : Z) : string :=
  let diff := (now - date)%Z in
  let minutes := (diff / 60000)%Z in
  let hours := (minutes / 60)%Z in
  let days := (hours / 24)%Z in
  if (minutes <? 1)%Z then "gerade eben"
  else if (minutes <? 60)%Z then "vor " +:+ JsText.decimal minutes +:+ " Min."
  else if (hours <? 24)%Z then "vor " +:+ JsText.decimal hours +:+ " Std."
  else if (days <? 7)%Z then "vor " +:+ JsText.decimal days +:+ " Tagen"
  else toLocaleDateString date.

(* ===================================================================== *)
(** ** DmsService with the file system: watcher, renaming, OCR            *)
(* ===================================================================== *)

(** The methods below also touch the files.  The paths that exist are
    part of the state; [fs.renameSync], [fs.statSync] and
    [fs.readFileSync] go through, while copying, unlinking, listing a
    directory, loading a PDF and the OCR request fail when the platform
    says so.  The scan of the documents folder stays the list
    [readDocumentsDir] of the runtime.  Of an error only its code is
    kept. *)

(** What else leaves the service, beside the events of [World]. *)
Inductive Call :=
  | CallFire                                     (* _onDidDocumentsChange.fire() *)
  | CallRename (oldPath newPath : string)        (* fs.renameSync *)
  | CallPostOcr (fsPath : string)                (* the request of runOcr for a file *)
  | CallPostIndex (id text : string)             (* axios.post(semanticSearchEndpoint/index) *)
  | CallCopyFile (source destination : string)   (* fs.copyFileSync *)
  | CallUnlink (path : string)                   (* fs.unlinkSync *)
  | CallProgress (current total : nat) (message : string).  (* progressCallback *)

(** More of the platform: [path], [fs], pdf-lib and the OCR and index
    collaborators. *)
Record Platform := mkPlatform {
  (* path.dirname, path.join of two segments, path.basename(p, ext) *)
  dirname : string -> string;
  join : string -> string -> string;
  basenameWithout : string -> string -> string;
  (* fs.readFileSync(path, "utf-8") *)
  readFileSync : string -> string;
  (* PDFDocument.load(...).getPages().length; None when the import or the
     load throws *)
  pdfPages : string -> option nat;
  (* the OCR request for a file: None when reading the file or the request
     throws, else response.data.text, which may be missing *)
  postOcr : string -> option (option string);
  (* whether fs.copyFileSync and fs.unlinkSync go through *)
  copyFileSucceeds : string -> string -> bool;
  unlinkSucceeds : string -> bool;
  (* fs.readdirSync(directory): the names; None when it throws *)
  readdirSync : string -> option (list string);
  (* the symbol U+26A0 U+FE0F of the notices, which lies outside U+00FF *)
  warningSign : string
}.

(** The service together with the files that exist and the calls made. *)
Record Host := mkHost {
  service : World;
  existing : gset string;   (* the paths for which fs.existsSync holds *)
  calls : list Call
}.

Definition setService (w : World) (h : Host) : Host :=
  {| service := w; existing := existing h; calls := calls h |}.

Definition setExisting (paths : gset string) (h : Host) : Host :=
  {| service := service h; existing := paths; calls := calls h |}.

Definition record (c : Call) (h : Host) : Host :=
  {| service := service h; existing := existing h; calls := calls h ++ [c] |}.

Definition HostM (A : Type) : Type := Host -> Result A * Host.

Definition retH {A} (a : A) : HostM A := fun h => (Ok a, h).

Definition bindH {A B} (m : HostM A) (k : A -> HostM B) : HostM B :=
  fun h => match m h with
           | (Ok a, h') => k a h'
           | (Throw c, h') => (Throw c, h')
           end.

Definition throwH {A} (c : DmsErrorCode) : HostM A := fun h => (Throw c, h).

Definition tryCatchH {A} (m : HostM A) (handler : DmsErrorCode -> HostM A) : HostM A :=
  fun h => match m h with
           | (Ok a, h') => (Ok a, h')
           | (Throw c, h') => handler c h'
           end.

Definition getHost : HostM Host := fun h => (Ok h, h).
Definition modifyHost (f : Host -> Host) : HostM unit := fun h => (Ok tt, f h).
Definition call (c : Call) : HostM unit := modifyHost (record c).

(** A method of the service proper, run inside the host. *)
Definition liftM {A} (m : M A) : HostM A :=
  fun h => let '(r, w) := m (service h) in (r, setService w h).

(** An outcome that is already known. *)
Definition liftResult {A} (r : Result A) : M A := fun w => (r, w).

Declare Scope h_scope.
Delimit Scope h_scope with H.
Notation "'let*' x := m 'in' k" := (bindH m (fun x => k))
  (at level 10, x name, m at level 100, k at level 200) : h_scope.
Notation "'run' m 'in' k" := (bindH m (fun _ => k))
  (at level 10, m at level 100, k at level 200) : h_scope.

Section Files.

Context (rt : Runtime) (pf : Platform).

(** [documentsCache.set] and [documentsCache.delete] *)
Definition setDocument (key : string) (doc : DmsDocument) : M unit :=
  let* w := getWorld in
  modifyWorld (setCache (<[key := doc]> (documentsCache w))).

Definition deleteDocument (key : string) : M unit :=
  let* w := getWorld in
  modifyWorld (setCache (delete key (documentsCache w))).

Local Open Scope h_scope.

(** [_onDidDocumentsChange.fire()] *)
Definition fire : HostM unit := call CallFire.

(** *** The file watcher *)

(** The handler of [fileWatcher.onDidCreate] *)
Definition onDidCreate (fsPath : string) : HostM unit :=
  if isSupportedFile rt fsPath then
    let* h := getHost in
    match documentsCache (service h) !! fsPath with
    | None =>
        let doc := createDocumentEntry rt fsPath in
        run liftM (setDocument fsPath doc) in
        run liftM (saveDocumentsCache rt) in
        fire
    | Some _ => retH tt
    end
  else retH tt.

(** The handler of [fileWatcher.onDidDelete] *)
Definition onDidDelete (fsPath : string) : HostM unit :=
  let* h := getHost in
  match documentsCache (service h) !! fsPath with
  | Some _ =>
      run liftM (deleteDocument fsPath) in
      run liftM (saveDocumentsCache rt) in
      fire
  | None => retH tt
  end.

Definition withModifiedAt (doc : DmsDocument) (t : Z) : DmsDocument :=
  {| doc_id := doc_id doc; doc_name := doc_name doc; doc_path := doc_path doc;
     doc_type := doc_type doc; tags := tags doc;
     createdAt := createdAt doc; modifiedAt := t;
     ocrText := ocrText doc; embedding := embedding doc; metadata := metadata doc |}.

(** The handler of [fileWatcher.onDidChange] *)
Definition onDidChange (fsPath : string) : HostM unit :=
  if isSupportedFile rt fsPath then
    let* h := getHost in
    match documentsCache (service h) !! fsPath with
    | Some doc =>
        let stats := statSync rt fsPath in
        run liftM (setDocument fsPath (withModifiedAt doc (mtime stats))) in
        run liftM (saveDocumentsCache rt) in
        fire
    | None => retH tt
    end
  else retH tt.

(** *** Renaming a document *)

(** [fs.renameSync] *)
Definition renameSync (oldPath newPath : string) : HostM unit :=
  run call (CallRename oldPath newPath) in
  modifyHost (fun h => setExisting ({[newPath]} ∪ existing h ∖ {[oldPath]}) h).

(** [{...oldDoc, id, name, path, modifiedAt}] *)
Definition renamedDocument (oldDoc : DmsDocument) (newFilename newPath : string) : DmsDocument :=
  {| doc_id := toBase64 rt newPath; doc_name := newFilename; doc_path := newPath;
     doc_type := doc_type oldDoc; tags := tags oldDoc;
     createdAt := createdAt oldDoc; modifiedAt := now rt;
     ocrText := ocrText oldDoc; embedding := embedding oldDoc;
     metadata := metadata oldDoc |}.

(** [renameDocument] *)
Definition renameDocument (oldPath newFilename : string) : HostM string :=
  let* h := getHost in
  if negb (bool_decide (oldPath ∈ existing h)) then throwH FILE_NOT_FOUND
  else
    let dir := dirname pf oldPath in
    let newPath := join pf dir newFilename in
    if bool_decide (newPath ∈ existing h) then throwH INVALID_DOCUMENT
    else
      run renameSync oldPath newPath in
      run match documentsCache (service h) !! oldPath with
          | Some oldDoc =>
              let newDoc := renamedDocument oldDoc newFilename newPath in
              run liftM (deleteDocument oldPath) in
              run liftM (setDocument newPath newDoc) in
              run liftM (saveDocumentsCache rt) in
              fire
          | None => retH tt
          end in
      retH newFilename.

(** *** OCR *)

Definition pdfNotice (pages : nat) (fsPath : string) : string :=
  "[PDF mit " +:+ JsText.decimal (Z.of_nat pages) +:+ " Seite(n)]" +:+ nl +:+ nl
  +:+ warningSign pf +:+ " Lokale OCR-Verarbeitung ist begrenzt." +:+ nl
  +:+ "F" +:+ JsText.ue +:+ "r vollst" +:+ JsText.ae
  +:+ "ndige Texterkennung starten Sie bitte den OCR-Service:" +:+ nl +:+ nl
  +:+ "docker-compose up -d ocr-service" +:+ nl +:+ nl
  +:+ "Datei: " +:+ basename rt fsPath.

Definition imageNotice (fsPath : string) : string :=
  "[Bild: " +:+ basename rt fsPath +:+ "]" +:+ nl +:+ nl
  +:+ warningSign pf +:+ " Bilderkennung erfordert den OCR-Service." +:+ nl
  +:+ "Starten Sie den Service mit:" +:+ nl +:+ nl
  +:+ "docker-compose up -d ocr-service".

(** [runOcrFallback].  It changes nothing and only reads the file. *)
Definition runOcrFallback (fsPath : string) : Result string :=
  let ext := Js.toLowerCase (extname rt fsPath) in
  if bool_decide (ext ∈ [".txt"; ".md"]) then Ok (readFileSync pf fsPath)
  else
    match (if String.eqb ext ".pdf" then pdfPages pf fsPath else None) with
    | Some pages => Ok (pdfNotice pages fsPath)
    | None =>
        if bool_decide (ext ∈ [".png"; ".jpg"; ".jpeg"; ".tiff"; ".bmp"])
        then Ok (imageNotice fsPath)
        else Throw INVALID_DOCUMENT
    end.

Definition withOcrText (doc : DmsDocument) (text : string) : DmsDocument :=
  {| doc_id := doc_id doc; doc_name := doc_name doc; doc_path := doc_path doc;
     doc_type := doc_type doc; tags := tags doc;
     createdAt := createdAt doc; modifiedAt := modifiedAt doc;
     ocrText := Some text; embedding := embedding doc; metadata := metadata doc |}.

(** [indexDocument]: a failing request is logged and swallowed. *)
Definition indexDocument (doc : DmsDocument) : HostM unit :=
  match ocrText doc with
  | Some text =>
      if negb (Js.truthy text) || (String.length (Js.trim text) =? 0)%nat then retH tt
      else call (CallPostIndex (doc_id doc) text)
  | None => retH tt
  end.

(** [runOcr].  [ocrFallbackEnabled] is the constant [true], so that the
    [catch] block always hands over to [runOcrFallback]. *)
Definition runOcr (fsPath : string) : HostM string :=
  let* h := getHost in
  if negb (bool_decide (fsPath ∈ existing h)) then throwH FILE_NOT_FOUND
  else
    run call (CallPostOcr fsPath) in
    match postOcr pf fsPath with
    | Some answer =>
        let text := Js.orElse answer "" in
        run match documentsCache (service h) !! fsPath with
            | Some doc =>
                let doc := withOcrText doc text in
                run liftM (setDocument fsPath doc) in
                run liftM (saveDocumentsCache rt) in
                indexDocument doc
            | None => retH tt
            end in
        retH text
    | None => liftM (liftResult (runOcrFallback fsPath))
    end.

(** *** Re-indexing *)

(** One round of the loop of [reindexAll].  The array [docs] holds the
    objects of the cache, which [runOcr] changes in place: the document of
    round [i] is what the cache holds for the scanned file, and the
    record that [getDocuments] returned when the cache has none. *)
Definition reindexOne (progress : bool) (total i : nat)
    (counts : nat * nat) (item : string * DmsDocument) : HostM (nat * nat) :=
  let '(file, scanned) := item in
  let '(success, failed) := counts in
  let* h := getHost in
  let doc := default scanned (documentsCache (service h) !! file) in
  run (if progress
       then call (CallProgress (i + 1) total ("Verarbeite " +:+ doc_name doc +:+ "..."))
       else retH tt) in
  if match ocrText doc with
     | Some text => negb (Js.truthy text) || (String.length text <? 10)%nat
     | None => true
     end
  then
    tryCatchH
      (run runOcr (doc_path doc) in retH (S success, failed))
      (fun _ => retH (success, S failed))
  else
    run indexDocument doc in
    retH (S success, failed).

(** [for (let i = 0; i < docs.length; i++)], from round [i] on. *)
Fixpoint reindexLoop (progress : bool) (total i : nat)
    (items : list (string * DmsDocument)) (counts : nat * nat) : HostM (nat * nat) :=
  match items with
  | [] => retH counts
  | item :: rest =>
      let* counts := reindexOne progress total i counts item in
      reindexLoop progress total (S i) rest counts
  end.

(** [reindexAll]; [progress] tells whether a callback was passed.  The
    result is the pair of [success] and [failed]. *)
Definition reindexAll (progress : bool) : HostM (nat * nat) :=
  let* docs := liftM (getDocuments rt) in
  reindexLoop progress (length docs) 0 (zip (readDocumentsDir rt) docs) (0, 0)%nat.

(** *** Export *)

(** The optional argument [filter] of [exportDocuments], here [criteria]. *)
Record ExportFilter := mkExportFilter {
  filterTag : option string;
  filterAfter : option Z
}.

(** The documents that pass the filters. *)
Definition applyFilter (criteria : option ExportFilter) (docs : list DmsDocument)
  : list DmsDocument :=
  let docs :=
    match criteria ≫= filterTag with
    | Some tag => if Js.truthy tag then filter (fun d => tag ∈ tags d) docs else docs
    | None => docs
    end in
  match criteria ≫= filterAfter with
  | Some after => filter (fun d => (after < createdAt d)%Z) docs
  | None => docs
  end.

(** [fs.copyFileSync]: [true] when it goes through. *)
Definition copyFileSync (source destination : string) : HostM bool :=
  run call (CallCopyFile source destination) in
  if copyFileSucceeds pf source destination then
    run modifyHost (fun h => setExisting ({[destination]} ∪ existing h) h) in
    retH true
  else retH false.

Fixpoint exportLoop (targetPath : string) (docs : list DmsDocument) (count : nat) : HostM nat :=
  match docs with
  | [] => retH count
  | doc :: rest =>
      let destPath := join pf targetPath (basename rt (doc_path doc)) in
      let* copied := copyFileSync (doc_path doc) destPath in
      exportLoop targetPath rest (if copied then S count else count)
  end.

(** [exportDocuments] *)
Definition exportDocuments (targetPath : string) (criteria : option ExportFilter) : HostM nat :=
  let* docs := liftM (getDocuments rt) in
  exportLoop targetPath (applyFilter criteria docs) 0.

(** *** Import *)

(** The argument [conflictStrategy]. *)
Inductive ConflictStrategy := overwrite | rename | skip.

(** How a call of [handleFileImport] ends: it returns, [fs.copyFileSync]
    throws, or the rounds granted to its loop are used up. *)
Inductive ImportOutcome :=
  | Returned (value : bool) (h : Host)
  | CopyThrew (h : Host)
  | OutOfRounds.

(** [path.join(path.dirname(destPath), `${name}_${counter}${ext}`)] *)
Definition numberedPath (destPath : string) (counter : nat) : string :=
  let ext := extname rt destPath in
  let name := basenameWithout pf destPath ext in
  join pf (dirname pf destPath)
    (name +:+ "_" +:+ JsText.decimal (Z.of_nat counter) +:+ ext).

(** The loop [while (fs.existsSync(newDest)) counter++], from [counter]
    on and for at most [rounds] tests: the first number whose path does
    not exist. *)
Fixpoint freeCounter (taken : gset string) (destPath : string) (rounds counter : nat)
  : option nat :=
  match rounds with
  | O => None
  | S rounds' =>
      if bool_decide (numberedPath destPath counter ∈ taken)
      then freeCounter taken destPath rounds' (S counter)
      else Some counter
  end.

(** [fs.copyFileSync(srcPath, target); return true] *)
Definition copyInto (srcPath target : string) (h : Host) : ImportOutcome :=
  match copyFileSync srcPath target h with
  | (Ok true, h') => Returned true h'
  | (_, h') => CopyThrew h'
  end.

(** [handleFileImport], with [rounds] tests granted to its loop. *)
Definition handleFileImport (rounds : nat) (srcPath destPath : string)
    (strategy : ConflictStrategy) (h : Host) : ImportOutcome :=
  if bool_decide (destPath ∈ existing h) then
    match strategy with
    | skip => Returned false h
    | rename =>
        match freeCounter (existing h) destPath rounds 1 with
        | Some counter => copyInto srcPath (numberedPath destPath counter) h
        | None => OutOfRounds
        end
    | overwrite => copyInto srcPath destPath h
    end
  else copyInto srcPath destPath h.

(** *** Audio files *)

(** The loop of [cleanupOldAudioFiles] over the files to remove: a
    failing [unlinkSync] ends it, the error is ignored. *)
Fixpoint unlinkAll (paths : list string) : HostM unit :=
  match paths with
  | [] => retH tt
  | path :: rest =>
      run call (CallUnlink path) in
      if unlinkSucceeds pf path then
        run modifyHost (fun h => setExisting (existing h ∖ {[path]}) h) in
        unlinkAll rest
      else retH tt
  end.

(** [(f) => f.startsWith("tts_") && f.endsWith(".mp3")] *)
Definition isAudioFile (f : string) : bool :=
  Js.startsWith f "tts_" && JsText.endsWith f ".mp3".

(** The audio files of the directory, the most recent first. *)
Definition audioFiles (names : list string) (directory : string) : list (string * Z) :=
  JsArray.sort (fun a b => (a.2 <? b.2)%Z)
    (map (fun f => (join pf directory f, mtime (statSync rt (join pf directory f))))
         (List.filter isAudioFile names)).

(** [cleanupOldAudioFiles] *)
Definition cleanupOldAudioFiles (directory : string) : HostM unit :=
  match readdirSync pf directory with
  | Some names => unlinkAll (map fst (drop 5 (audioFiles names directory)))
  | None => retH tt
  end.

End Files.

(* ===================================================================== *)
(** ** DmsService: the methods that ask the language model                *)
(* ===================================================================== *)

Section Language.

Context (rt : Runtime) (pf : Platform).

(** [doc.ocrText || (await this.runOcrFallback(vscode.Uri.file(doc.path)))] *)
Definition textOf (doc : DmsDocument) : Result string :=
  match ocrText doc with
  | Some text => if Js.truthy text then Ok text else runOcrFallback rt pf (doc_path doc)
  | None => runOcrFallback rt pf (doc_path doc)
  end.

Definition indent : string := "    ".

(** The prompt of [compareDocuments] *)
Definition comparePrompt (doc1 : DmsDocument) (text1 : string)
    (doc2 : DmsDocument) (text2 : string) : string :=
  nl
  +:+ indent +:+ "Vergleiche die folgenden zwei Dokumente." +:+ nl
  +:+ indent +:+ "Erstelle eine strukturierte Gegen" +:+ JsText.ue
             +:+ "berstellung (Markdown)." +:+ nl
  +:+ indent +:+ nl
  +:+ indent +:+ "Dokument A: " +:+ doc_name doc1 +:+ nl
  +:+ indent +:+ "---" +:+ nl
  +:+ indent +:+ Js.substring 0 3000 text1 +:+ nl
  +:+ indent +:+ "---" +:+ nl
  +:+ nl
  +:+ indent +:+ "Dokument B: " +:+ doc_name doc2 +:+ nl
  +:+ indent +:+ "---" +:+ nl
  +:+ indent +:+ Js.substring 0 3000 text2 +:+ nl
  +:+ indent +:+ "---" +:+ nl
  +:+ nl
  +:+ indent +:+ "Aufgabe:" +:+ nl
  +:+ indent +:+ "1. Fasse den Inhalt beider Dokumente kurz zusammen." +:+ nl
  +:+ indent +:+ "2. Liste Gemeinsamkeiten auf." +:+ nl
  +:+ indent +:+ "3. Liste Unterschiede auf (besonders Daten, Betr" +:+ JsText.ae
             +:+ "ge, Namen)." +:+ nl
  +:+ indent +:+ "4. Fazit." +:+ nl
  +:+ indent.

(** [compareDocuments]; [this.chat(prompt)] passes no context. *)
Definition compareDocuments (docId1 docId2 : string) : M string :=
  let* w := getWorld in
  match documentsCache w !! getPathFromId rt docId1,
        documentsCache w !! getPathFromId rt docId2 with
  | Some doc1, Some doc2 =>
      let* text1 := liftResult (textOf doc1) in
      let* text2 := liftResult (textOf doc2) in
      callChat rt (comparePrompt doc1 text1 doc2 text2) ""
  | _, _ => throw FILE_NOT_FOUND
  end.

(** The prompt of [autoTagDocument] *)
Definition autoTagPrompt (doc : DmsDocument) (text : string) (existingTags : list string)
  : string :=
  nl
  +:+ indent +:+ "Analysiere das folgende Dokument und schlage passende Tags vor." +:+ nl
  +:+ indent +:+ nl
  +:+ indent +:+ "Dokument: " +:+ doc_name doc +:+ nl
  +:+ indent +:+ "---" +:+ nl
  +:+ indent +:+ Js.substring 0 3000 text +:+ nl
  +:+ indent +:+ "---" +:+ nl
  +:+ nl
  +:+ indent +:+ "Bereits verwendete Tags im System: "
             +:+ JsText.join ", " existingTags +:+ nl
  +:+ nl
  +:+ indent +:+ "Regeln:" +:+ nl
  +:+ indent +:+ "1. Nutze bevorzugt existierende Tags, wenn sie passen." +:+ nl
  +:+ indent +:+ "2. Erstelle neue Tags nur, wenn n" +:+ JsText.oe +:+ "tig (kurz, pr"
             +:+ JsText.ae +:+ "gnant, lowercase)." +:+ nl
  +:+ indent +:+ "3. Maximal 5 Tags." +:+ nl
  +:+ indent
  +:+ "4. Antworte NUR mit einer kommagetrennten Liste der Tags (z.B. rechnung, telekom, 2024)."
  +:+ nl
  +:+ indent.

(** [t.trim().toLowerCase().replace(/[^a-z0-9äöüß\-_]/g, "")] *)
Definition cleanTag (t : string) : string :=
  JsText.keepTagChars (Js.toLowerCase (Js.trim t)).

(** [response.split(",").map(...)] *)
Definition suggestedTags (response : string) : list string :=
  map cleanTag (JsText.split "," response).

(** Body of the loop over [newTags]: the new value of [doc.tags]. *)
Definition pushTag (ts : list string) (tag : string) : list string :=
  if Js.truthy tag && negb (bool_decide (tag ∈ ts)) then ts ++ [tag] else ts.

(** [autoTagDocument].  [doc] is the object that the cache holds, also
    after [getTags]: the loop changes the record of the cache. *)
Definition autoTagDocument (docId : string) : M (list string) :=
  let key := getPathFromId rt docId in
  let* w := getWorld in
  match documentsCache w !! key with
  | Some doc =>
      let* text := liftResult (textOf doc) in
      let* existingTags := getTags rt in
      let prompt := autoTagPrompt doc text existingTags in
      let* response := callChat rt prompt "" in
      let newTags := suggestedTags response in
      run setDocument key (withTags doc (fold_left pushTag newTags (tags doc))) in
      run saveDocumentsCache rt in
      ret newTags
  | None => throw FILE_NOT_FOUND
  end.

End Language.

(** *** Automatic renaming *)

Section AutoRename.

Context (rt : Runtime) (pf : Platform).

(** [s.replace] with the class of the backquote, the apostrophe and the
    double quote, replaced by nothing: the code units 96, 39 and 34 go. *)
Fixpoint removeQuotes (s : string) : string :=
  match s with
  | EmptyString => EmptyString
  | String c s' =>
      let n := nat_of_ascii c in
      if (n =? 96)%nat || (n =? 39)%nat || (n =? 34)%nat then removeQuotes s'
      else String c (removeQuotes s')
  end.

(** [s.replace(/\s/g, "_")] *)
Fixpoint underscoreSpaces (s : string) : string :=
  match s with
  | EmptyString => EmptyString
  | String c s' =>
      String (if Js.isWhiteSpace c then "_"%char else c) (underscoreSpaces s')
  end.

(** The text that [autoRenameDocument] shows to the language model: the
    OCR text when it has 50 characters or more, else what the fallback
    reads, and nothing when the fallback fails. *)
Definition renameContent (doc : DmsDocument) (oldPath : string) : string :=
  match ocrText doc with
  | Some content =>
      if negb (Js.truthy content) || (String.length content <? 50)%nat then
        match runOcrFallback rt pf oldPath with
        | Ok text => text
        | Throw _ => ""
        end
      else content
  | None =>
      match runOcrFallback rt pf oldPath with
      | Ok text => text
      | Throw _ => ""
      end
  end.

(** The prompt of [autoRenameDocument] *)
Definition autoRenamePrompt (oldPath content : string) : string :=
  nl
  +:+ indent
  +:+ "Analysiere den folgenden Dokumententext und generiere einen passenden Dateinamen."
  +:+ nl
  +:+ indent +:+ "Format: YYYY-MM-DD_Sender_Typ_Kurzbeschreibung.ext" +:+ nl
  +:+ indent +:+ nl
  +:+ indent +:+ "Regeln:" +:+ nl
  +:+ indent
  +:+ "- Datum: Das wichtigste Datum im Dokument (Rechnungsdatum, Briefdatum). Wenn keins gefunden, nimm heute."
  +:+ nl
  +:+ indent +:+ "- Sender: Firmenname oder Person (z.B. Telekom, Amazon, Finanzamt)." +:+ nl
  +:+ indent +:+ "- Typ: Rechnung, Vertrag, Brief, Lieferschein, Info." +:+ nl
  +:+ indent +:+ "- Kurzbeschreibung: 1-3 Stichworte (optional)." +:+ nl
  +:+ indent +:+ "- Dateiendung: Muss beibehalten werden (" +:+ extname rt oldPath +:+ ")." +:+ nl
  +:+ indent +:+ "- Keine Leerzeichen, nutze Unterstriche." +:+ nl
  +:+ indent +:+ "- Antworte NUR mit dem Dateinamen, kein anderer Text." +:+ nl
  +:+ nl
  +:+ indent +:+ "Dokumententext:" +:+ nl
  +:+ indent +:+ Js.substring 0 2000 content +:+ nl
  +:+ indent.

(** The name that goes to [renameDocument]: the answer when it ends
    with the extension and has no blank, else its part before the first
    dot, white space replaced, with the extension. *)
Definition chosenFilename (oldPath response : string) : string :=
  let newFilename := removeQuotes (Js.trim response) in
  let ext := extname rt oldPath in
  if negb (JsText.endsWith newFilename ext) || Js.includes newFilename " " then
    underscoreSpaces (default "" (head (JsText.split "." newFilename))) +:+ ext
  else newFilename.

Local Open Scope h_scope.

(** [autoRenameDocument] *)
Definition autoRenameDocument (documentId : string) : HostM string :=
  let oldPath := getPathFromId rt documentId in
  let* h := getHost in
  match documentsCache (service h) !! oldPath with
  | Some doc =>
      let content := renameContent doc oldPath in
      if negb (Js.truthy content) || (String.length content <? 10)%nat
      then throwH INVALID_DOCUMENT
      else
        let* response := liftM (callChat rt (autoRenamePrompt oldPath content) "") in
        renameDocument rt pf oldPath (chosenFilename oldPath response)
  | None => throwH FILE_NOT_FOUND
  end.

End AutoRename.

(** *** Notions for the properties *)

(** The strings of the list are in strictly ascending order of code units. *)
Definition ascending (l : list string) : Prop :=
  StronglySorted (fun a b => String.ltb a b = true) l.

(** The documents are in descending order of modification time. *)
Definition newestFirst (l : list DmsDocument) : Prop :=
  StronglySorted (fun a b => (modifiedAt b <= modifiedAt a)%Z) l.

(** Number of change notifications among the calls. *)
Definition fired (cs : list Call) : nat :=
  length (List.filter (fun c => match c with CallFire => true | _ => false end) cs).

(** The progress reports among the calls: [current] and [total]. *)
Definition progressLog (cs : list Call) : list (nat * nat) :=
  omap (fun c => match c with
                 | CallProgress current total _ => Some (current, total)
                 | _ => None
                 end) cs.

(** The calls of [indexDocument]: the index request, when there is text. *)
Definition indexCalls (doc : DmsDocument) : list Call :=
  match ocrText doc with
  | Some text =>
      if negb (Js.truthy text) || (String.length (Js.trim text) =? 0)%nat then []
      else [CallPostIndex (doc_id doc) text]
  | None => []
  end.

(** The copy that [exportDocuments] asks for a document. *)
Definition exportCall (rt : Runtime) (pf : Platform) (targetPath : string)
    (doc : DmsDocument) : Call :=
  CallCopyFile (doc_path doc) (join pf targetPath (basename rt (doc_path doc))).

(** The index file and the mirror in [globalState] hold what the cache
    holds: nothing would be lost by a restart. *)
Definition persisted (w : World) : Prop :=
  indexFile w = FileData (toJSON <$> documentsCache w)
  ∧ globalState w = Some (documentsCache w).

(** A tag as [autoTagDocument] stores it: not empty, and made of the
    characters that the pattern keeps. *)
Definition wellFormedTag (tag : string) : Prop :=
  tag ≠ "" ∧ Forall (fun c => JsText.isTagChar c = true) (list_ascii_of_string tag).

(* ===================================================================== *)
(** ** The small installation with its files                              *)
(* ===================================================================== *)

Module Demo.

(** [path.join] and [path.dirname] on plain POSIX paths. *)
Definition joinPath (a b : string) : string := a +:+ "/" +:+ b.

Definition dirName (p : string) : string :=
  Js.take (String.length p - String.length (Sample.baseName p) - 1) p.

Definition baseNameWithout (p ext : string) : string :=
  let base := Sample.baseName p in
  if JsText.endsWith base ext
  then Js.take (String.length base - String.length ext) base
  else base.

Definition notesPath : string := "/docs/notes.txt".
Definition letterPath : string := "/docs/letter.docx".

(** The OCR service is down; pdf-lib loads every PDF as two pages. *)
Definition platform : Platform :=
  {| dirname := dirName; join := joinPath; basenameWithout := baseNameWithout;
     readFileSync := fun _ => "Notiz vom Montag";
     pdfPages := fun _ => Some 2%nat;
     postOcr := fun _ => None;
     copyFileSucceeds := fun _ _ => true;
     unlinkSucceeds := fun _ => true;
     readdirSync := fun _ => Some ["tts_1.mp3"; "tts_2.mp3"; "notes.txt"];
     warningSign := "(!)" |}.

(** The OCR service answers every request with the same text. *)
Definition scanning : Platform :=
  {| dirname := dirName; join := joinPath; basenameWithout := baseNameWithout;
     readFileSync := fun _ => "Notiz vom Montag";
     pdfPages := fun _ => Some 2%nat;
     postOcr := fun _ => Some (Some "Rechnung Nr. 17 der Telekom");
     copyFileSucceeds := fun _ _ => true;
     unlinkSucceeds := fun _ => true;
     readdirSync := fun _ => Some ["tts_1.mp3"; "tts_2.mp3"; "notes.txt"];
     warningSign := "(!)" |}.

(** The sample store with its three files on disk, and the same with a
    note and a letter beside them. *)
Definition host : Host :=
  {| service := Sample.world;
     existing := {[Sample.invoicePath; Sample.contractPath; Sample.receiptPath]};
     calls := [] |}.

Definition desk : Host :=
  {| service := Sample.world;
     existing := {[Sample.invoicePath; Sample.contractPath; Sample.receiptPath;
                   notesPath; letterPath]};
     calls := [] |}.

(** The language model answers with a list of tags. *)
Definition tagging : Runtime :=
  {| fromBase64 := Sample.decode64; toBase64 := Sample.encode64;
     basename := Sample.baseName; extname := Sample.extName;
     readDocumentsDir := [Sample.invoicePath; Sample.contractPath; Sample.receiptPath];
     statSync := fun _ => Sample.stats;
     writeFileSucceeds := true;
     now := 1717200000000;
     postSearch := fun _ _ => SearchFailed (Some "ECONNREFUSED") None;
     postGraphQuery := fun _ => GraphFailed;
     chat := fun _ _ => Ok "Rechnung, Telekom ,, invoice, 2024!" |}.

(** The language model answers with a file name that has blanks. *)
Definition naming : Runtime :=
  {| fromBase64 := Sample.decode64; toBase64 := Sample.encode64;
     basename := Sample.baseName; extname := Sample.extName;
     readDocumentsDir := [Sample.invoicePath; Sample.contractPath; Sample.receiptPath];
     statSync := fun _ => Sample.stats;
     writeFileSucceeds := true;
     now := 1717200000000;
     postSearch := fun _ _ => SearchFailed (Some "ECONNREFUSED") None;
     postGraphQuery := fun _ => GraphFailed;
     chat := fun _ _ => Ok " '2024-03-01 Telekom Rechnung.pdf' " |}.

End Demo.

(* ===================================================================== *)
(** * Properties                                                          *)
(* ===================================================================== *)

(** ** The model on concrete inputs *)

Example toLowerCase_ex : Js.toLowerCase "Wer ist der Absender?" = "wer ist der absender?".
Proof. reflexivity. Qed.

Example trim_ex : Js.trim "  invoice 2024 " = "invoice 2024".
Proof. reflexivity. Qed.

Example splitWs_ex : Js.splitWs " a  bc " = [""; "a"; "bc"; ""].
Proof. reflexivity. Qed.

Example substring_ex : Js.substring 2 5 "abcdefg" = "cde".
Proof. reflexivity. Qed.

Example toISOString_epoch : Dates.toISOString 0 = "1970-01-01T00:00:00.000Z".
Proof. reflexivity. Qed.

Example toISOString_2024 :
  Dates.toISOString 1709210096789 = "2024-02-29T12:34:56.789Z".
Proof. vm_compute. reflexivity. Qed.

Example toISOString_before_epoch :
  Dates.toISOString (-1) = "1969-12-31T23:59:59.999Z".
Proof. vm_compute. reflexivity. Qed.

Example toISOString_max :
  Dates.toISOString Dates.maxTime = "+275760-09-13T00:00:00.000Z".
Proof. vm_compute. reflexivity. Qed.

Example toISOString_min :
  Dates.toISOString (- Dates.maxTime) = "-271821-04-20T00:00:00.000Z".
Proof. vm_compute. reflexivity. Qed.

Example parseDate_2024 :
  Dates.parseDate "2024-02-29T12:34:56.789Z" = Some 1709210096789%Z.
Proof. vm_compute. reflexivity. Qed.

Example parseDate_illegal_day : Dates.parseDate "2023-02-29T12:34:56.789Z" = None.
Proof. vm_compute. reflexivity. Qed.

Example sample_identifier :
  Sample.encode64 Sample.invoicePath = "L2RvY3MvSW52b2ljZV8yMDI0LnBkZg=="
  ∧ Sample.decode64 (Sample.encode64 Sample.invoicePath) = Sample.invoicePath
  ∧ Sample.decode64 Sample.unknownId = "/docs/missing.pdf".
Proof. repeat split; vm_compute; reflexivity. Qed.

Example sample_path :
  Sample.baseName Sample.invoicePath = "Invoice_2024.pdf"
  ∧ Sample.extName Sample.invoicePath = ".pdf".
Proof. split; reflexivity. Qed.

(** The selectivity example of the specification: the query "invoice"
    ranks the invoice (name and tag) before the receipt (name), and not
    the contract. *)
Example rankDocuments_selectivity :
  map (fun r => (doc_name (document r), this (score r)))
      (rankDocuments "invoice" [Sample.invoice; Sample.contract; Sample.receipt])
  = [("Invoice_2024.pdf", 1%Q); ("Receipt_Invoice.pdf", (3 # 5)%Q)].
Proof. vm_compute. reflexivity. Qed.

(** The snippet follows the first token of the query only. *)
(** The case-insensitivity example of the specification. *)
Example rankDocuments_case_insensitive :
  map (fun r => this (score r))
      (rankDocuments "important"
         [Sample.mkDoc "/docs/IMPORTANT.pdf" [] None;
          Sample.mkDoc "/docs/Important.pdf" [] None;
          Sample.mkDoc "/docs/important.pdf" [] None])
  = [(3 # 5)%Q; (3 # 5)%Q; (3 # 5)%Q].
Proof. vm_compute. reflexivity. Qed.

Example rankDocuments_snippet :
  map snippet (rankDocuments "telekom xx" [Sample.invoice])
  = ["Rechnung Nr. 17 der Telekom"]
  ∧ map snippet (rankDocuments "xx telekom" [Sample.invoice])
    = ["Invoice_2024.pdf"].
Proof. split; vm_compute; reflexivity. Qed.

(** The keyword test looks for the keywords anywhere in the prompt. *)
Example useGraphRAG_examples :
  useGraphRAG "Wer ist der Absender?" = true
  ∧ useGraphRAG "Fasse das zusammen" = false
  ∧ useGraphRAG "Schwerpunkte des Vertrags" = true.
Proof. repeat split; reflexivity. Qed.

(** One chat turn with all collaborators unreachable: the search router
    falls back to the lexical scorer, which finds nothing, and the
    generation collaborator fails. *)
Example handleGeneral_offline :
  handleGeneral Sample.offline None "Fasse das zusammen" Sample.world
  = (Throw SERVICE_UNAVAILABLE,
     {| documentsCache := Sample.cache;
        indexFile := FileData (toJSON <$> Sample.cache);
        globalState := Some Sample.cache;
        trace := [EvStream (Progress "Sammle Kontext...");
                  EvStream (Progress "Suche relevante Dokumente...");
                  EvPostSearch "Fasse das zusammen" 10;
                  EvReadDir; EvWriteIndex; EvUpdateGlobalState;
                  EvStream (Progress "Generiere Antwort...");
                  EvChat "Fasse das zusammen" ""] |}).
Proof. vm_compute. reflexivity. Qed.

(** One chat turn with a prompt that asks for a person: the graph is
    queried with the person template before the search router runs. *)
Example handleGeneral_online :
  take 4 (trace (handleGeneral (Sample.online None) None "Wer ist der Absender?"
                   Sample.world).2)
  = [EvStream (Progress "Sammle Kontext...");
     EvStream (Progress "Durchsuche Knowledge Graph...");
     EvPostGraph "SELECT * FROM entity WHERE type = 'person' LIMIT 10";
     EvStream (Markdown ("*Verwendet Knowledge Graph*" +:+ nl +:+ nl))].
Proof. vm_compute. reflexivity. Qed.

(** Unfolds the operations of the monad. *)
Ltac unfold_monad :=
  unfold bind, ret, throw, tryCatch, getWorld, modifyWorld, tell in *.

(** ** Tag manager *)

Section TagManager.

Context (rt : Runtime).

Lemma withTags_same doc : withTags doc (tags doc) = doc.
Proof. by destruct doc. Qed.

Lemma withTags_twice doc ts ts' : withTags (withTags doc ts) ts' = withTags doc ts'.
Proof. done. Qed.

Lemma tags_withTags doc ts : tags (withTags doc ts) = ts.
Proof. done. Qed.

Lemma setCache_same w : setCache (documentsCache w) w = w.
Proof. by destruct w. Qed.

Lemma filter_ne_app_fresh (x : string) (ts : list string) :
  x ∉ ts -> filter (fun t => t ≠ x) (ts ++ [x])%list = ts.
Proof.
  intros Hx. rewrite filter_app. rewrite (filter_cons_False _ x []); [|naive_solver].
  rewrite filter_nil, app_nil_r.
  induction ts as [|t ts IH]; [done|].
  apply not_elem_of_cons in Hx as [Hne Hx].
  rewrite filter_cons_True by done. by rewrite IH.
Qed.

Lemma filter_ne_absent (x : string) (ts : list string) :
  x ∉ filter (fun t => t ≠ x) ts.
Proof. intros [Hne _]%list_elem_of_filter. by apply Hne. Qed.

(** What the two mutations do to a tracked record. *)
Lemma addTagToDocument_tracked w id tag doc :
  documentsCache w !! getPathFromId rt id = Some doc ->
  tag ∉ tags doc ->
  addTagToDocument rt id tag w =
    saveDocumentsCache rt
      (setCache (<[getPathFromId rt id := withTags doc (tags doc ++ [tag])]> (documentsCache w)) w).
Proof.
  intros Hdoc Hfresh. unfold addTagToDocument. unfold_monad.
  rewrite Hdoc. by rewrite bool_decide_eq_false_2.
Qed.

Lemma addTagToDocument_present w id tag doc :
  documentsCache w !! getPathFromId rt id = Some doc ->
  tag ∈ tags doc ->
  addTagToDocument rt id tag w = (Ok tt, w).
Proof.
  intros Hdoc Hin. unfold addTagToDocument. unfold_monad.
  rewrite Hdoc. by rewrite bool_decide_eq_true_2.
Qed.

Lemma removeTagFromDocument_tracked w id tag doc :
  documentsCache w !! getPathFromId rt id = Some doc ->
  removeTagFromDocument rt id tag w =
    saveDocumentsCache rt
      (setCache (<[getPathFromId rt id :=
                     withTags doc (filter (fun t => t ≠ tag) (tags doc))]> (documentsCache w)) w).
Proof.
  intros Hdoc. unfold removeTagFromDocument. unfold_monad.
  by rewrite Hdoc.
Qed.

Lemma documentsCache_save w : documentsCache (saveDocumentsCache rt w).2 = documentsCache w.
Proof. done. Qed.

Lemma tag_lookup_none w id tag :
  documentsCache w !! getPathFromId rt id = None ->
  addTagToDocument rt id tag w = (Ok tt, w)
  ∧ removeTagFromDocument rt id tag w = (Ok tt, w).
Proof.
  intros Hnone. unfold addTagToDocument, removeTagFromDocument. unfold_monad.
  by rewrite Hnone.
Qed.

(** C1 (as amended): a tag mutation whose document id decodes to a path
    that the index store does not track raises nothing: it returns
    normally and leaves the store, the index file and the trace exactly
    as they were. *)
Theorem tag_mutation_unknown_id w id tag :
  documentsCache w !! getPathFromId rt id = None ->
  addTagToDocument rt id tag w = (Ok tt, w)
  ∧ removeTagFromDocument rt id tag w = (Ok tt, w)
  ∧ (addTagToDocument rt id tag w).1 ≠ Throw FILE_NOT_FOUND
  ∧ (removeTagFromDocument rt id tag w).1 ≠ Throw FILE_NOT_FOUND.
Proof.
  intros Hnone. destruct (tag_lookup_none w id tag Hnone) as [Hadd Hremove].
  rewrite Hadd, Hremove. by repeat split.
Qed.

(** C7 (as amended): for a tracked document and a tag that its tag list
    does not contain yet, adding the tag and then removing it restores the
    original record, and with it the whole store. *)
Theorem addTag_removeTag_fresh w id x doc :
  documentsCache w !! getPathFromId rt id = Some doc ->
  x ∉ tags doc ->
  let w1 := (addTagToDocument rt id x w).2 in
  let w2 := (removeTagFromDocument rt id x w1).2 in
  documentsCache w2 !! getPathFromId rt id = Some doc
  ∧ documentsCache w2 = documentsCache w.
Proof.
  intros Hdoc Hfresh w1 w2.
  assert (Hc : documentsCache w2 = documentsCache w).
  { subst w1 w2. rewrite (addTagToDocument_tracked _ _ _ _ Hdoc Hfresh).
    erewrite removeTagFromDocument_tracked; last first.
    { rewrite documentsCache_save. cbn. apply lookup_insert_eq. }
    rewrite !documentsCache_save. cbn.
    rewrite insert_insert_eq, withTags_twice.
    rewrite filter_ne_app_fresh by done.
    rewrite withTags_same. by apply insert_id. }
  split; [by rewrite Hc | done].
Qed.

(** When the tag was there before, the same two calls leave the record
    without it. *)
Lemma addTag_removeTag_present w id x doc :
  documentsCache w !! getPathFromId rt id = Some doc ->
  x ∈ tags doc ->
  let w1 := (addTagToDocument rt id x w).2 in
  let w2 := (removeTagFromDocument rt id x w1).2 in
  exists doc', documentsCache w2 !! getPathFromId rt id = Some doc' ∧ x ∉ tags doc'.
Proof.
  intros Hdoc Hin w1 w2. subst w1 w2.
  rewrite (addTagToDocument_present _ _ _ _ Hdoc Hin). cbn [snd].
  rewrite (removeTagFromDocument_tracked _ _ _ _ Hdoc), documentsCache_save.
  eexists. split; [apply lookup_insert_eq|]. apply filter_ne_absent.
Qed.

(** Adding a tag twice is adding it once. *)
Lemma addTagToDocument_twice w id x :
  addTagToDocument rt id x (addTagToDocument rt id x w).2
  = (Ok tt, (addTagToDocument rt id x w).2).
Proof.
  destruct (documentsCache w !! getPathFromId rt id) as [doc|] eqn:Hdoc.
  - destruct (decide (x ∈ tags doc)) as [Hin|Hfresh].
    + rewrite (addTagToDocument_present _ _ _ _ Hdoc Hin). cbn [snd].
      by apply addTagToDocument_present with doc.
    + rewrite (addTagToDocument_tracked _ _ _ _ Hdoc Hfresh).
      eapply addTagToDocument_present.
      * rewrite documentsCache_save. cbn. apply lookup_insert_eq.
      * cbn. apply elem_of_app. right. apply list_elem_of_here.
  - destruct (tag_lookup_none w id x Hdoc) as [Hadd _]. rewrite Hadd. cbn [snd].
    exact Hadd.
Qed.

End TagManager.

(** The same on the sample store, for an identifier of a file that is
    not tracked. *)
Lemma tag_mutation_unknown_id_witness :
  documentsCache Sample.world !! getPathFromId Sample.offline Sample.unknownId = None
  ∧ addTagToDocument Sample.offline Sample.unknownId "urgent" Sample.world
    = (Ok tt, Sample.world)
  ∧ removeTagFromDocument Sample.offline Sample.unknownId "urgent" Sample.world
    = (Ok tt, Sample.world).
Proof.
  assert (Hnone : documentsCache Sample.world
                    !! getPathFromId Sample.offline Sample.unknownId = None)
    by (vm_compute; reflexivity).
  split; [exact Hnone|].
  destruct (tag_mutation_unknown_id Sample.offline Sample.world Sample.unknownId
              "urgent" Hnone) as (Hadd & Hremove & _).
  split; [exact Hadd|exact Hremove].
Defined.

(** C1 (as stated) fails: on an identifier that names no tracked record
    both mutations return normally instead of raising [FILE_NOT_FOUND]. *)
Lemma tag_mutation_unknown_id_counterexample :
  documentsCache Sample.world !! getPathFromId Sample.offline Sample.unknownId = None
  ∧ (addTagToDocument Sample.offline Sample.unknownId "urgent" Sample.world).1
    ≠ Throw FILE_NOT_FOUND
  ∧ (removeTagFromDocument Sample.offline Sample.unknownId "urgent" Sample.world).1
    ≠ Throw FILE_NOT_FOUND.
Proof. repeat split; vm_compute; (reflexivity || discriminate). Qed.

(** The round trip on the sample store, for a tag the invoice does not
    carry. *)
Lemma addTag_removeTag_fresh_witness :
  documentsCache Sample.world !! getPathFromId Sample.offline (Sample.encode64 Sample.invoicePath)
    = Some Sample.invoice
  ∧ ("urgent" ∉ tags Sample.invoice)
  ∧ documentsCache
      (removeTagFromDocument Sample.offline (Sample.encode64 Sample.invoicePath) "urgent"
         (addTagToDocument Sample.offline (Sample.encode64 Sample.invoicePath) "urgent"
            Sample.world).2).2
    = documentsCache Sample.world.
Proof.
  assert (Hdoc : documentsCache Sample.world
                   !! getPathFromId Sample.offline (Sample.encode64 Sample.invoicePath)
                 = Some Sample.invoice) by (vm_compute; reflexivity).
  assert (Hfresh : "urgent" ∉ tags Sample.invoice)
    by (apply (bool_decide_unpack _); vm_compute; exact I).
  split; [exact Hdoc|]. split; [exact Hfresh|].
  exact (proj2 (addTag_removeTag_fresh Sample.offline Sample.world
                  (Sample.encode64 Sample.invoicePath) "urgent" Sample.invoice Hdoc Hfresh)).
Defined.

(** C7 (as stated) fails when the tag was present before: the invoice
    carries "invoice"; adding it changes nothing and removing it leaves the
    record without the tag. *)
Lemma addTag_removeTag_counterexample :
  tags <$> documentsCache Sample.world !! Sample.invoicePath = Some ["invoice"]
  ∧ tags <$>
      documentsCache
        (removeTagFromDocument Sample.offline (Sample.encode64 Sample.invoicePath) "invoice"
           (addTagToDocument Sample.offline (Sample.encode64 Sample.invoicePath) "invoice"
              Sample.world).2).2
      !! Sample.invoicePath
    = Some []
  ∧ (tags <$>
       documentsCache
         (removeTagFromDocument Sample.offline (Sample.encode64 Sample.invoicePath) "invoice"
            (addTagToDocument Sample.offline (Sample.encode64 Sample.invoicePath) "invoice"
               Sample.world).2).2
       !! Sample.invoicePath)
    ≠ (tags <$> documentsCache Sample.world !! Sample.invoicePath).
Proof. repeat split; vm_compute; (reflexivity || discriminate). Qed.

(** ** Duplicate-free tag lists *)

Section TagInvariant.

Context (rt : Runtime).

Lemma replaceFirst_cons oldTag newTag t ts :
  replaceFirst oldTag newTag (t :: ts) =
    if decide (t = oldTag) then newTag :: ts else t :: replaceFirst oldTag newTag ts.
Proof.
  unfold replaceFirst. cbn. repeat case_decide; try done.
  destruct (list_find _ ts) as [[i y]|]; done.
Qed.

Lemma replaceFirst_absent oldTag newTag ts :
  oldTag ∉ ts -> replaceFirst oldTag newTag ts = ts.
Proof.
  induction ts as [|t ts IH]; [done|]. intros [Hne Hts]%not_elem_of_cons.
  rewrite replaceFirst_cons, decide_False by done. by rewrite IH.
Qed.

Lemma elem_of_replaceFirst oldTag newTag ts x :
  x ∈ replaceFirst oldTag newTag ts -> x = newTag ∨ x ∈ ts.
Proof.
  induction ts as [|t ts IH]; [by right|].
  rewrite replaceFirst_cons. destruct (decide (t = oldTag)).
  - intros [->|?]%elem_of_cons; [by left|]. right. by apply list_elem_of_further.
  - intros [->|?]%elem_of_cons; [right; apply list_elem_of_here|].
    destruct IH as [?|?]; [done|by left|]. right. by apply list_elem_of_further.
Qed.

Lemma NoDup_replaceFirst oldTag newTag ts :
  newTag ∉ ts -> NoDup ts -> NoDup (replaceFirst oldTag newTag ts).
Proof.
  induction ts as [|t ts IH]; [done|].
  intros [Hne Hnew]%not_elem_of_cons [Ht Hts]%NoDup_cons.
  rewrite replaceFirst_cons. destruct (decide (t = oldTag)).
  - by apply NoDup_cons.
  - apply NoDup_cons. split; [|by apply IH].
    intros [->|?]%elem_of_replaceFirst; done.
Qed.

Lemma NoDup_snoc_fresh (ts : list string) x : x ∉ ts -> NoDup ts -> NoDup (ts ++ [x])%list.
Proof.
  intros Hx Hts. apply NoDup_app. repeat split; [done| |apply NoDup_singleton].
  intros y Hy ->%list_elem_of_singleton. done.
Qed.

(** [addTagToDocument], [removeTagFromDocument] and [deleteTag] keep every
    tag list of the store duplicate-free. *)
Lemma addTagToDocument_tagsUnique w id tag :
  tagsUnique (documentsCache w) ->
  tagsUnique (documentsCache (addTagToDocument rt id tag w).2).
Proof.
  intros Hinv. unfold addTagToDocument, bind, getWorld, modifyWorld.
  destruct (documentsCache w !! getPathFromId rt id) as [doc|] eqn:Hdoc; [|done].
  case_bool_decide as Hin; [done|]. cbn.
  apply map_Forall_insert_2; [|done]. cbn.
  apply NoDup_snoc_fresh; [done|]. exact (Hinv _ _ Hdoc).
Qed.

Lemma removeTagFromDocument_tagsUnique w id tag :
  tagsUnique (documentsCache w) ->
  tagsUnique (documentsCache (removeTagFromDocument rt id tag w).2).
Proof.
  intros Hinv. unfold removeTagFromDocument, bind, getWorld, modifyWorld.
  destruct (documentsCache w !! getPathFromId rt id) as [doc|] eqn:Hdoc; [|done].
  cbn. apply map_Forall_insert_2; [|done]. cbn.
  apply NoDup_filter. exact (Hinv _ _ Hdoc).
Qed.

Lemma documentsCache_renameTag w oldTag newTag :
  documentsCache (renameTag rt oldTag newTag w).2 =
    (fun doc => withTags doc (replaceFirst oldTag newTag (tags doc))) <$> documentsCache w.
Proof.
  unfold renameTag, bind, getWorld, modifyWorld, ret. cbn.
  by destruct (countTagged _ _).
Qed.

Lemma documentsCache_deleteTag w tag :
  documentsCache (deleteTag rt tag w).2 =
    (fun doc => if bool_decide (tag ∈ tags doc)
                then withTags doc (filter (fun t => t ≠ tag) (tags doc)) else doc)
    <$> documentsCache w.
Proof.
  unfold deleteTag, bind, getWorld, modifyWorld, ret. cbn.
  by destruct (countTagged _ _).
Qed.

Lemma deleteTag_tagsUnique w tag :
  tagsUnique (documentsCache w) ->
  tagsUnique (documentsCache (deleteTag rt tag w).2).
Proof.
  intros Hinv. rewrite documentsCache_deleteTag.
  apply map_Forall_fmap. intros k doc Hdoc. cbn.
  case_bool_decide; [|by eapply Hinv]. cbn. apply NoDup_filter. by eapply Hinv.
Qed.

(** [renameTag] keeps them duplicate-free in every record that does not
    carry the new tag already. *)
Lemma renameTag_tagsUnique w oldTag newTag :
  tagsUnique (documentsCache w) ->
  map_Forall (fun _ doc => oldTag ∈ tags doc -> newTag ∉ tags doc) (documentsCache w) ->
  tagsUnique (documentsCache (renameTag rt oldTag newTag w).2).
Proof.
  intros Hinv Hnew. rewrite documentsCache_renameTag.
  apply map_Forall_fmap. intros k doc Hdoc. cbn.
  destruct (decide (oldTag ∈ tags doc)) as [Hin|Hout].
  - apply NoDup_replaceFirst; [by eapply Hnew|by eapply Hinv].
  - rewrite replaceFirst_absent by done. by eapply Hinv.
Qed.

End TagInvariant.

(** C2: the tag lists are meant to stay duplicate-free (every other
    mutation keeps them so, see above), and [renameTag] breaks that on a
    record that carries both tags: renaming "invoice" to "legal" in a
    duplicate-free store leaves the invoice with the tags "legal", "legal". *)
Theorem renameTag_creates_duplicate :
  tagsUnique (documentsCache Sample.worldTwoTags)
  ∧ tags <$> documentsCache Sample.worldTwoTags !! Sample.invoicePath
    = Some ["invoice"; "legal"]
  ∧ tags <$>
      documentsCache (renameTag Sample.offline "invoice" "legal" Sample.worldTwoTags).2
      !! Sample.invoicePath
    = Some ["legal"; "legal"]
  ∧ ¬ tagsUnique
        (documentsCache (renameTag Sample.offline "invoice" "legal" Sample.worldTwoTags).2).
Proof.
  split; [|split; [|split]].
  - apply (bool_decide_unpack _). vm_compute. exact I.
  - vm_compute. reflexivity.
  - vm_compute. reflexivity.
  - intros Hinv.
    assert (Hdoc : exists doc,
      documentsCache (renameTag Sample.offline "invoice" "legal" Sample.worldTwoTags).2
        !! Sample.invoicePath = Some doc ∧ tags doc = ["legal"; "legal"]).
    { eexists. split; [vm_compute; reflexivity|reflexivity]. }
    destruct Hdoc as (doc & Hdoc & Htags).
    specialize (Hinv _ _ Hdoc). cbn in Hinv. rewrite Htags in Hinv.
    apply NoDup_cons in Hinv as [Hin _]. apply Hin, list_elem_of_here.
Qed.

(** ** Search router *)

Section SearchRouter.

Context (rt : Runtime).

Lemma trimStart_blank s : Js.allWhiteSpace s = true -> Js.trimStart s = "".
Proof.
  induction s as [|c s IH]; [done|]. cbn.
  intros [Hc Hs]%andb_true_iff. rewrite Hc. by apply IH.
Qed.

Lemma trim_blank s : Js.allWhiteSpace s = true -> Js.trim s = "".
Proof. intros Hs. unfold Js.trim. by rewrite trimStart_blank. Qed.

Lemma trimEnd_nonblank c s : Js.isWhiteSpace c = false -> Js.trimEnd (String c s) ≠ "".
Proof. intros Hc. cbn. rewrite Hc. by destruct (Js.trimEnd s). Qed.

Lemma trimEnd_empty s : Js.trimEnd s = "" -> Js.allWhiteSpace s = true.
Proof.
  induction s as [|c s IH]; [done|]. cbn.
  destruct (Js.trimEnd s); [|done].
  destruct (Js.isWhiteSpace c); [|done]. intros _. by rewrite IH.
Qed.

Lemma trim_empty s : Js.trim s = "" -> Js.allWhiteSpace s = true.
Proof.
  unfold Js.trim. induction s as [|c s IH]; [done|]. cbn.
  destruct (Js.isWhiteSpace c) eqn:Hc; [apply IH|].
  intros H. by apply trimEnd_nonblank in H.
Qed.

(** What [getDocuments] returns and leaves behind. *)
Lemma getDocuments_eq w :
  getDocuments rt w =
    let '(docs, cache) := collectDocuments rt (readDocumentsDir rt) (documentsCache w) in
    (Ok docs, (saveDocumentsCache rt (setCache cache (emit EvReadDir w))).2).
Proof.
  unfold getDocuments, bind, tell, modifyWorld, getWorld, ret. cbn.
  by destruct (collectDocuments _ _ _).
Qed.

Lemma getDocuments_emit e w : (getDocuments rt (emit e w)).1 = (getDocuments rt w).1.
Proof.
  rewrite !getDocuments_eq. cbn. by destruct (collectDocuments _ _ _).
Qed.

Lemma getDocuments_ok w : exists docs, (getDocuments rt w).1 = Ok docs.
Proof.
  rewrite getDocuments_eq. destruct (collectDocuments _ _ _) as [docs cache].
  by exists docs.
Qed.

Lemma getDocuments_trace w :
  trace (getDocuments rt w).2 = (trace w ++ [EvReadDir; EvWriteIndex; EvUpdateGlobalState])%list.
Proof.
  rewrite getDocuments_eq. destruct (collectDocuments _ _ _) as [docs cache]. cbn.
  by rewrite <- app_assoc.
Qed.

(** The records that [getDocuments] returns are the records that the
    store holds, after the call, for the scanned files. *)
Lemma collectDocuments_lookup files cache :
  let '(docs, cache') := collectDocuments rt files cache in
  Forall2 (fun file doc => cache' !! file = Some doc) files docs
  ∧ (forall k doc, cache !! k = Some doc -> cache' !! k = Some doc).
Proof.
  revert cache. induction files as [|file rest IH]; intros cache; cbn.
  { split; [constructor|done]. }
  destruct (cache !! file) as [existing|] eqn:Hfile.
  - specialize (IH cache). destruct (collectDocuments rt rest cache) as [docs cache'].
    destruct IH as [IH1 IH2]. split; [|done]. constructor; [by apply IH2|done].
  - specialize (IH (<[file := createDocumentEntry rt file]> cache)).
    destruct (collectDocuments rt rest _) as [docs cache'].
    destruct IH as [IH1 IH2]. split.
    + constructor; [|done]. apply IH2, lookup_insert_eq.
    + intros k doc Hk. apply IH2. rewrite lookup_insert_ne; [done|]. congruence.
Qed.

Lemma semanticSearch_on_blank query w :
  Js.allWhiteSpace query = true ->
  semanticSearch rt query w = (Ok [], w).
Proof.
  intros Hblank. unfold semanticSearch. rewrite (trim_blank _ Hblank). cbn.
  by rewrite orb_true_r.
Qed.

(** C10: on a query that is empty or consists of white space only,
    [semanticSearch] returns the empty list and does nothing else: the
    cache, the index file, the mirror and the trace of outgoing calls
    (directory scan, index write, remote search) are what they were, and
    no collaborator has a say in the outcome. *)
Theorem semanticSearch_blank query w :
  Js.allWhiteSpace query = true ->
  semanticSearch rt query w = (Ok [], w)
  ∧ (semanticSearch rt query w).2 = w
  ∧ trace (semanticSearch rt query w).2 = trace w
  ∧ forall rt', semanticSearch rt' query w = semanticSearch rt query w.
Proof.
  intros Hblank. rewrite (semanticSearch_on_blank _ _ Hblank).
  repeat split. intros rt'. unfold semanticSearch.
  rewrite (trim_blank _ Hblank). cbn. by rewrite orb_true_r.
Qed.

Lemma semanticSearch_nonblank query w :
  Js.allWhiteSpace query = false ->
  semanticSearch rt query w =
    (if Js.startsWith (Js.toLowerCase query) "tag:" then
       bind (getDocumentsByTag rt (Js.trim (Js.substringFrom 4 query)))
         (fun docs => ret (map (fun doc =>
            {| document := doc; score := 1;
               snippet := "Tag Match: " +:+ Js.trim (Js.substringFrom 4 query) |}) docs))
     else
       bind (axiosPostSearch rt (Js.trim query) 10)
         (fun response =>
            match response with
            | SearchOk results => ret (map (toSearchResult rt) (default [] results))
            | SearchFailed _ _ => enhancedSearch rt query
            end)) w.
Proof.
  intros Hnb. unfold semanticSearch.
  assert (Htruthy : Js.truthy query = true) by (by destruct query).
  assert (Hlen : (String.length (Js.trim query) =? 0)%nat = false).
  { destruct (Js.trim query) eqn:Htrim; [|done].
    apply trim_empty in Htrim. congruence. }
  rewrite Htruthy, Hlen. cbn [negb orb]. reflexivity.
Qed.

Lemma tag_query_nonblank value : Js.allWhiteSpace ("tag:" +:+ value) = false.
Proof. reflexivity. Qed.

Lemma tag_query_prefix value :
  Js.startsWith (Js.toLowerCase ("tag:" +:+ value)) "tag:" = true.
Proof. reflexivity. Qed.

Lemma tag_query_value value : Js.substringFrom 4 ("tag:" +:+ value) = value.
Proof. reflexivity. Qed.

Lemma semanticSearch_tag value w :
  semanticSearch rt ("tag:" +:+ value) w =
    bind (getDocumentsByTag rt (Js.trim value))
      (fun docs => ret (map (fun doc =>
         {| document := doc; score := 1;
            snippet := "Tag Match: " +:+ Js.trim value |}) docs)) w.
Proof.
  rewrite semanticSearch_nonblank by apply tag_query_nonblank.
  by rewrite tag_query_prefix, tag_query_value.
Qed.



End SearchRouter.

(** A query of three spaces on the sample store. *)
Lemma semanticSearch_blank_witness :
  Js.allWhiteSpace "   " = true
  ∧ semanticSearch Sample.offline "   " Sample.world = (Ok [], Sample.world).
Proof.
  split; [reflexivity|].
  apply (semanticSearch_blank Sample.offline "   " Sample.world). reflexivity.
Defined.

Section SearchFallback.

Context (rt : Runtime).

Lemma lowerChar_whiteSpace c :
  Js.isWhiteSpace c = true -> Js.isWhiteSpace (Js.lowerChar c) = true.
Proof. destruct c as [[] [] [] [] [] [] [] []]; vm_compute; congruence. Qed.

Lemma toLowerCase_blank s :
  Js.allWhiteSpace s = true -> Js.allWhiteSpace (Js.toLowerCase s) = true.
Proof.
  induction s as [|c s IH]; [done|]. cbn.
  intros [Hc Hs]%andb_true_iff. by rewrite (lowerChar_whiteSpace _ Hc), IH.
Qed.

Lemma splitWsFrom_blank inSep s :
  Js.allWhiteSpace s = true -> Forall (fun t => t = "") (Js.splitWsFrom inSep s).
Proof.
  revert inSep. induction s as [|c s IH]; intros inSep Hs; cbn.
  { by repeat constructor. }
  cbn in Hs. apply andb_true_iff in Hs as [Hc Hs]. rewrite Hc.
  destruct inSep; [by apply IH|]. constructor; [done|by apply IH].
Qed.

Lemma queryTermsOf_blank query :
  Js.allWhiteSpace query = true -> queryTermsOf query = [].
Proof.
  intros Hblank. unfold queryTermsOf, Js.splitWs.
  pose proof (splitWsFrom_blank false _ (toLowerCase_blank _ Hblank)) as Hall.
  induction Hall as [|t ts -> _ IH]; [done|].
  rewrite filter_cons_False; [done|]. cbn. lia.
Qed.

Lemma scoreDocument_no_terms docs acc : fold_left (scoreDocument []) docs acc = acc.
Proof. revert acc. induction docs as [|d ds IH]; intros acc; [done|]. cbn. apply IH. Qed.

Lemma rankDocuments_blank query docs :
  Js.allWhiteSpace query = true -> rankDocuments query docs = [].
Proof.
  intros Hblank. unfold rankDocuments.
  by rewrite (queryTermsOf_blank _ Hblank), scoreDocument_no_terms.
Qed.

Lemma enhancedSearch_eq query w :
  enhancedSearch rt query w =
    match getDocuments rt w with
    | (Ok docs, w') => (Ok (rankDocuments query docs), w')
    | (Throw c, w') => (Throw c, w')
    end.
Proof. reflexivity. Qed.

(** On a query that is not blank and not a tag query, a failing remote
    call hands over to [enhancedSearch], which runs in the world that has
    recorded the attempt. *)
Lemma semanticSearch_remote_failed query w code status :
  Js.allWhiteSpace query = false ->
  Js.startsWith (Js.toLowerCase query) "tag:" = false ->
  postSearch rt (Js.trim query) 10 = SearchFailed code status ->
  semanticSearch rt query w
  = enhancedSearch rt query (emit (EvPostSearch (Js.trim query) 10) w).
Proof.
  intros Hnb Htag Hfail. rewrite semanticSearch_nonblank by done.
  rewrite Htag. unfold bind, axiosPostSearch, bind, tell, modifyWorld, ret.
  by rewrite Hfail.
Qed.


(** *** A successful remote search *)

Lemma semanticSearch_remote_ok query w results :
  Js.allWhiteSpace query = false ->
  Js.startsWith (Js.toLowerCase query) "tag:" = false ->
  postSearch rt (Js.trim query) 10 = SearchOk results ->
  semanticSearch rt query w
  = (Ok (map (toSearchResult rt) (default [] results)),
     emit (EvPostSearch (Js.trim query) 10) w).
Proof.
  intros Hnb Htag Hok. rewrite semanticSearch_nonblank by done.
  rewrite Htag. unfold bind, axiosPostSearch, bind, tell, modifyWorld, ret.
  by rewrite Hok.
Qed.

Lemma score_without_distance r :
  r_distance r = None -> score (toSearchResult rt r) = Q2Qc (1 # 2).
Proof. intros Hd. cbn. by rewrite Hd. Qed.

Lemma score_of_nonzero_distance r d :
  r_distance r = Some d -> d ≠ 0%Qc ->
  score (toSearchResult rt r) = (1 / (1 + d))%Qc.
Proof.
  intros Hd Hnz. cbn. rewrite Hd. cbn. unfold numberTruthy.
  by rewrite bool_decide_eq_false_2.
Qed.

Lemma score_of_zero_distance r :
  r_distance r = Some 0%Qc -> score (toSearchResult rt r) = Q2Qc (1 # 2).
Proof. intros Hd. cbn. by rewrite Hd. Qed.

Lemma snippet_of_backend_result r :
  snippet (toSearchResult rt r)
  = match r_text r with
    | Some text => Js.substring 0 200 text
    | None => ""
    end.
Proof.
  unfold toSearchResult. cbn [snippet].
  destruct (r_text r) as [text|]; [|done].
  change (Js.substring 0 200 <$> Some text) with (Some (Js.substring 0 200 text)).
  unfold Js.orElse. by destruct (Js.substring 0 200 text).
Qed.

End SearchFallback.


(** C5: the mapping of a backend result is meant to turn a distance into
    a similarity and to fall back to 0.5 when there is no distance; the
    test [r.distance ? ... : 0.5] also takes a distance of 0 for a missing
    one.  With a remote search that answers one hit at distance 0, the
    router returns that hit with score 1/2, not 1/(1+0) = 1. *)
Theorem distance_zero_scores_half :
  (semanticSearch (Sample.online (Some 0%Qc)) "rechnung" Sample.world).1
  = Ok [toSearchResult (Sample.online (Some 0%Qc)) (Sample.hitAt (Some 0%Qc))]
  ∧ score (toSearchResult (Sample.online (Some 0%Qc)) (Sample.hitAt (Some 0%Qc)))
    = Q2Qc (1 # 2)
  ∧ score (toSearchResult (Sample.online (Some 0%Qc)) (Sample.hitAt (Some 0%Qc)))
    ≠ (1 / (1 + 0))%Qc.
Proof.
  split; [|split].
  - vm_compute. reflexivity.
  - reflexivity.
  - intros H. apply (f_equal this) in H. vm_compute in H. discriminate.
Qed.

(** ** Hybrid retrieval coordinator *)

Section HybridRetrieval.

Context (rt : Runtime).

Lemma append_assoc (a b c : string) : (a +:+ b) +:+ c = a +:+ (b +:+ c).
Proof.
  induction a as [|x a IH]; [reflexivity|].
  change (String x ((a +:+ b) +:+ c) = String x (a +:+ (b +:+ c))). by rewrite IH.
Qed.

Lemma append_empty_r (a : string) : a +:+ "" = a.
Proof.
  induction a as [|x a IH]; [reflexivity|].
  change (String x (a +:+ "") = String x a). by rewrite IH.
Qed.

Lemma bind_ok {A B} (m : M A) (k : A -> M B) w a w' :
  m w = (Ok a, w') -> bind m k w = k a w'.
Proof. intros Hm. unfold bind. by rewrite Hm. Qed.

Lemma extends_refl w : extends w w [].
Proof. repeat split. by rewrite app_nil_r. Qed.

Lemma extends_emit w e : extends w (emit e w) [e].
Proof. done. Qed.

Lemma extends_trans w1 w2 w3 evs evs' :
  extends w1 w2 evs -> extends w2 w3 evs' -> extends w1 w3 (evs ++ evs')%list.
Proof.
  intros (Hc & Hi & Hg & Ht) (Hc' & Hi' & Hg' & Ht').
  repeat split; [congruence..|]. rewrite Ht', Ht. by rewrite <- app_assoc.
Qed.

Lemma graphAttempted_nil : ¬ graphAttempted [].
Proof. intros [q Hq]. by apply not_elem_of_nil in Hq. Qed.

Lemma graphAttempted_cons e evs :
  graphAttempted (e :: evs) <-> (exists q, e = EvPostGraph q) ∨ graphAttempted evs.
Proof.
  unfold graphAttempted. split.
  - intros [q [<-|Hq]%elem_of_cons]; [left; by exists q|right; by exists q].
  - intros [[q ->]|[q Hq]]; exists q; [apply list_elem_of_here|by apply list_elem_of_further].
Qed.

Lemma graphAttempted_app evs evs' :
  graphAttempted (evs ++ evs') <-> graphAttempted evs ∨ graphAttempted evs'.
Proof.
  unfold graphAttempted. split.
  - intros [q [Hq|Hq]%elem_of_app]; [left|right]; by exists q.
  - intros [[q Hq]|[q Hq]]; exists q; apply elem_of_app; [by left|by right].
Qed.

Lemma quiet_not_attempted evs : quiet evs -> ¬ graphAttempted evs.
Proof.
  intros Hq [q Hin]. unfold quiet in Hq. rewrite Forall_forall in Hq.
  by apply (Hq _ Hin q).
Qed.

Lemma quiet_app evs evs' : quiet evs -> quiet evs' -> quiet (evs ++ evs').
Proof. apply Forall_app_2. Qed.

(** What the keyword test decides. *)
Lemma useGraphRAG_keyword prompt :
  useGraphRAG prompt = true
  <-> exists kw, kw ∈ structuredKeywords ∧ Js.includes (Js.toLowerCase prompt) kw = true.
Proof.
  unfold useGraphRAG. rewrite existsb_exists. split.
  - intros (kw & Hin & Hkw). exists kw. by rewrite list_elem_of_In.
  - intros (kw & Hin & Hkw). exists kw. by rewrite <- list_elem_of_In.
Qed.

(** Step 2: the graph collaborator is called exactly when the keyword
    test succeeds; the step never fails and touches no store. *)
Lemma graphStep_spec prompt context w :
  exists context' w' evs,
    graphStep rt prompt context w = (Ok context', w')
    ∧ extends w w' evs
    ∧ (graphAttempted evs <-> useGraphRAG prompt = true).
Proof.
  unfold graphStep. destruct (useGraphRAG prompt) eqn:Huse.
  - unfold tryCatch, bind, stream, tell, modifyWorld, queryGraphForContext,
      tryCatch, bind, queryKnowledgeGraph, bind, tell, modifyWorld, ret, throw.
    destruct (postGraphQuery rt (entityQueryFor prompt)) as [|[[|first rest]|]].
    3: destruct (Js.truthy (fold_left _ _ _)).
    all: eexists _, _, _; split; [reflexivity|]; split.
    all: try (repeat split; cbn; rewrite <- ?app_assoc; reflexivity).
    all: split; [done|intros _].
    all: apply graphAttempted_cons; right; apply graphAttempted_cons; left; by eexists.
  - exists context, w, []. split; [done|]. split; [apply extends_refl|].
    split; [by intros ?%graphAttempted_nil|done].
Qed.

(** The search router never fails and calls no graph collaborator. *)
Lemma getDocuments_events w :
  exists docs w',
    getDocuments rt w = (Ok docs, w')
    ∧ trace w' = (trace w ++ [EvReadDir; EvWriteIndex; EvUpdateGlobalState])%list.
Proof.
  pose proof (getDocuments_trace rt w) as Htrace.
  destruct (getDocuments_ok rt w) as [docs Hdocs].
  destruct (getDocuments rt w) as [[docs'|c] w'] eqn:Hget; cbn [fst] in Hdocs; [|done].
  by exists docs', w'.
Qed.

Lemma semanticSearch_events query w :
  exists results w' evs,
    semanticSearch rt query w = (Ok results, w')
    ∧ trace w' = (trace w ++ evs)%list
    ∧ quiet evs.
Proof.
  destruct (Js.allWhiteSpace query) eqn:Hblank.
  { exists [], w, []. split; [by apply semanticSearch_on_blank|].
    split; [by rewrite app_nil_r|constructor]. }
  rewrite semanticSearch_nonblank by done.
  destruct (Js.startsWith _ _).
  - unfold getDocumentsByTag, bind, ret.
    destruct (getDocuments_events w) as (docs & w' & -> & Htrace).
    eexists _, _, _. split; [reflexivity|]. split; [exact Htrace|].
    repeat constructor; discriminate.
  - unfold bind, axiosPostSearch, bind, tell, modifyWorld, ret.
    destruct (postSearch rt (Js.trim query) 10) as [code status|results].
    + rewrite enhancedSearch_eq.
      destruct (getDocuments_events (emit (EvPostSearch (Js.trim query) 10) w))
        as (docs & w' & -> & Htrace).
      eexists _, _, _. split; [reflexivity|]. split.
      * rewrite Htrace. cbn. rewrite <- app_assoc. reflexivity.
      * repeat constructor; discriminate.
    + eexists _, _, _. split; [reflexivity|]. split; [reflexivity|].
      repeat constructor; discriminate.
Qed.

Lemma addTopDocs_spec topDocs context w :
  exists w',
    addTopDocs topDocs context w
    = (Ok (fold_left (fun c result => c +:+ documentBlock result) topDocs context), w')
    ∧ trace w'
      = (trace w ++ map (fun result => EvStream (Reference (doc_path (document result))))
                        topDocs)%list.
Proof.
  revert context w. induction topDocs as [|result rest IH]; intros context w; cbn.
  { exists w. split; [done|by rewrite app_nil_r]. }
  unfold bind, stream, tell, modifyWorld.
  destruct (IH (context +:+ documentBlock result)
               (emit (EvStream (Reference (doc_path (document result)))) w))
    as (w' & Hrun & Htrace).
  exists w'. split; [exact Hrun|]. rewrite Htrace. cbn. by rewrite <- app_assoc.
Qed.

Lemma fold_left_blocks topDocs context tail :
  fold_left (fun c result => c +:+ documentBlock result) topDocs context +:+ tail
  = context +:+ fold_right (fun result rest => documentBlock result +:+ rest) tail topDocs.
Proof.
  revert context. induction topDocs as [|result rest IH]; intros context; [done|].
  cbn. by rewrite IH, append_assoc.
Qed.

Lemma quiet_references (topDocs : list SearchResult) :
  quiet (map (fun result => EvStream (Reference (doc_path (document result)))) topDocs).
Proof. apply Forall_map, Forall_forall. intros r _ q. discriminate. Qed.

(** Step 3: the search router is called with the prompt, and what it
    returns decides what is appended to the context. *)
Lemma searchStep_spec prompt context w :
  exists results w1 w' evs,
    semanticSearch rt prompt (emit (EvStream (Progress "Suche relevante Dokumente...")) w)
    = (Ok results, w1)
    ∧ searchStep rt prompt context w = (Ok (context +:+ searchContext results), w')
    ∧ trace w' = (trace w ++ evs)%list
    ∧ quiet evs.
Proof.
  destruct (semanticSearch_events prompt
              (emit (EvStream (Progress "Suche relevante Dokumente...")) w))
    as (results & w1 & evs & Hsearch & Htrace & Hquiet).
  exists results, w1.
  unfold searchStep, tryCatch, bind, stream, tell, modifyWorld. rewrite Hsearch.
  destruct results as [|r rs].
  - exists w1, (EvStream (Progress "Suche relevante Dokumente...") :: evs).
    split; [done|]. split; [cbn; by rewrite append_empty_r|].
    split; [rewrite Htrace; cbn; by rewrite <- app_assoc|].
    constructor; [discriminate|done].
  - cbn [length Nat.ltb Nat.leb].
    destruct (addTopDocs_spec (firstn 3 (r :: rs))
                (context +:+ nl +:+ "Relevante Dokumente aus dem DMS:" +:+ nl) w1)
      as (w' & Hrun & Htrace').
    rewrite Hrun. eexists w', _. split; [done|]. split; [|split].
    + unfold ret. f_equal. f_equal. unfold searchContext.
      rewrite fold_left_blocks. by rewrite !append_assoc.
    + rewrite Htrace', Htrace. cbn [trace emit]. rewrite <- !app_assoc. reflexivity.
    + constructor; [discriminate|].
      apply quiet_app; [exact Hquiet|apply quiet_references].
Qed.

(** One turn of [handleGeneral], step by step: the events of the graph
    step, the call of the search router on the stores the turn started
    with, and the context that reaches the generation collaborator. *)
Lemma handleGeneral_run editor prompt w :
  exists context results w1 w2 evs1 evs2 evs3,
    (documentsCache w1 = documentsCache w
     ∧ indexFile w1 = indexFile w
     ∧ globalState w1 = globalState w)
    ∧ semanticSearch rt prompt w1 = (Ok results, w2)
    ∧ trace (handleGeneral rt editor prompt w).2
      = (trace w ++ evs1 ++ evs2
           ++ EvChat prompt (context +:+ searchContext results) :: evs3)%list
    ∧ (graphAttempted evs1 <-> useGraphRAG prompt = true)
    ∧ quiet evs2
    ∧ quiet evs3.
Proof.
  unfold handleGeneral.
  rewrite (bind_ok _ _ w tt (emit (EvStream (Progress "Sammle Kontext...")) w))
    by reflexivity.
  destruct (graphStep_spec prompt (editorContext rt editor)
              (emit (EvStream (Progress "Sammle Kontext...")) w))
    as (context & wg & evsg & Hgraph & (Hc & Hi & Hg & Htraceg) & Hiff).
  rewrite (bind_ok _ _ _ _ _ Hgraph).
  destruct (searchStep_spec prompt context wg)
    as (results & w2 & ws & evss & Hsearch & Hstep & Htraces & Hquiet).
  rewrite (bind_ok _ _ _ _ _ Hstep).
  exists context, results,
    (emit (EvStream (Progress "Suche relevante Dokumente...")) wg), w2.
  exists (EvStream (Progress "Sammle Kontext...") :: evsg),
    (evss ++ [EvStream (Progress "Generiere Antwort...")])%list.
  assert (Htrace : trace ws
            = (trace w ++ (EvStream (Progress "Sammle Kontext...") :: evsg) ++ evss)%list).
  { rewrite Htraces, Htraceg. cbn. by rewrite <- !app_assoc. }
  unfold bind, stream, callChat, bind, tell, modifyWorld, ret.
  destruct (chat rt prompt (context +:+ searchContext results)) as [response|code].
  - eexists. split; [repeat split; cbn; [rewrite Hc|rewrite Hi|rewrite Hg]; reflexivity|].
    split; [exact Hsearch|].
    split; [|split; [|split]].
    + cbn. rewrite Htrace. rewrite <- !app_assoc. cbn. reflexivity.
    + rewrite graphAttempted_cons, Hiff. split; [|by right].
      by intros [[q Hq]|?].
    + apply quiet_app; [done|]. constructor; [discriminate|constructor].
    + repeat constructor; discriminate.
  - exists []. split; [repeat split; cbn; [rewrite Hc|rewrite Hi|rewrite Hg]; reflexivity|].
    split; [exact Hsearch|].
    split; [|split; [|split]].
    + cbn. rewrite Htrace. rewrite <- !app_assoc. cbn. reflexivity.
    + rewrite graphAttempted_cons, Hiff. split; [|by right].
      by intros [[q Hq]|?].
    + apply quiet_app; [done|]. constructor; [discriminate|constructor].
    + constructor.
Qed.

Lemma eventsSince_app w w' evs :
  trace w' = (trace w ++ evs)%list -> eventsSince w w' = evs.
Proof. intros Htrace. unfold eventsSince. rewrite Htrace. apply drop_app_length. Qed.

Lemma handleGeneral_graph editor prompt w :
  graphAttempted (eventsSince w (handleGeneral rt editor prompt w).2)
  <-> useGraphRAG prompt = true.
Proof.
  destruct (handleGeneral_run editor prompt w)
    as (context & results & w1 & w2 & evs1 & evs2 & evs3
        & _ & _ & Htrace & Hiff & Hq2 & Hq3).
  rewrite (eventsSince_app _ _ _ Htrace).
  rewrite !graphAttempted_app, graphAttempted_cons, Hiff.
  split; [|by left].
  intros [?|[Hno|[[q Hq]|Hno]]]; [done|..].
  - by apply quiet_not_attempted in Hno.
  - discriminate.
  - by apply quiet_not_attempted in Hno.
Qed.


End HybridRetrieval.

(** ** Lexical scorer *)

Section LexicalScorer.

Local Open Scope Qc_scope.

Lemma queryTermsOf_specTokens query : queryTermsOf query = specTokens query.
Proof.
  unfold queryTermsOf, specTokens. apply list_filter_iff. intros t. lia.
Qed.

(** The three parts of the loop body, each as an amount that is added. *)
Lemma name_points (nameLower term : string) (a : Qc) :
  (if String.eqb nameLower term then a + 1
   else if Js.includes nameLower term then a + Q2Qc (6 # 10) else a)
  = a + specNamePoints nameLower term.
Proof.
  unfold specNamePoints. destruct (String.eqb_spec nameLower term) as [Heq|Hne].
  - by rewrite decide_True.
  - rewrite decide_False by done. destruct (Js.includes _ _); [done|ring].
Qed.

Lemma tag_points (tagsLower : list string) (term : string) (a : Qc) :
  (if bool_decide (term ∈ tagsLower) then a + Q2Qc (8 # 10)
   else if existsb (fun t => Js.includes t term) tagsLower then a + Q2Qc (4 # 10)
   else a)
  = a + specTagPoints tagsLower term.
Proof.
  unfold specTagPoints.
  assert (Hexact : term ∈ tagsLower <-> Exists (fun tag => tag = term) tagsLower).
  { rewrite Exists_exists. split; [intros Hin; by exists term|by intros (x & Hin & ->)]. }
  assert (Hpart : existsb (fun t => Js.includes t term) tagsLower = true
                  <-> Exists (fun tag => Js.includes tag term = true) tagsLower).
  { rewrite existsb_exists, Exists_exists.
    split; intros (x & Hin & Hx); exists x; by rewrite ?list_elem_of_In in *. }
  case_bool_decide as Hin.
  - rewrite decide_True; [done|by apply Hexact].
  - rewrite decide_False by (by rewrite <- Hexact).
    destruct (existsb _ _) eqn:Hex.
    + rewrite decide_True; [done|by apply Hpart].
    + rewrite decide_False; [ring|]. rewrite <- Hpart. congruence.
Qed.

Lemma ocr_points (text : option string) (term : string) (a : Qc) :
  match text with
  | Some s => if Js.includes (Js.toLowerCase s) term then a + Q2Qc (3 # 10) else a
  | None => a
  end
  = a + specOcrPoints text term.
Proof.
  unfold specOcrPoints. destruct text as [s|]; [|ring].
  destruct (Js.includes _ _); [done|ring].
Qed.

Lemma scoreTerm_points doc a term :
  scoreTerm doc a term = a + specPoints Js.toLowerCase doc term.
Proof.
  unfold scoreTerm, specPoints. rewrite ocr_points, tag_points, name_points. ring.
Qed.

Lemma specAccumulated_nil norm doc : specAccumulated norm doc [] = 0.
Proof. reflexivity. Qed.

Lemma specAccumulated_cons norm doc t ts :
  specAccumulated norm doc (t :: ts)
  = specPoints norm doc t + specAccumulated norm doc ts.
Proof. reflexivity. Qed.

Lemma fold_scoreTerm doc terms a :
  fold_left (scoreTerm doc) terms a = a + specAccumulated Js.toLowerCase doc terms.
Proof.
  revert a. induction terms as [|t ts IH]; intros a; cbn [fold_left].
  - rewrite specAccumulated_nil. ring.
  - rewrite IH, scoreTerm_points, specAccumulated_cons. ring.
Qed.

Lemma accumulated_score doc terms :
  fold_left (scoreTerm doc) terms 0 = specAccumulated Js.toLowerCase doc terms.
Proof. rewrite fold_scoreTerm. ring. Qed.

(** *** Which records are kept *)

Lemma Qc_nonneg_const (z : Z) (p : positive) : (0 <= z)%Z -> 0 <= Q2Qc (z # p).
Proof.
  intros Hz. unfold Qcle, Q2Qc. cbn [this]. rewrite !Qred_correct.
  unfold Qle. cbn. lia.
Qed.

Lemma Qc_pos_const (z : Z) (p : positive) : (0 < z)%Z -> 0 < Q2Qc (z # p).
Proof.
  intros Hz. unfold Qclt, Q2Qc. cbn [this]. rewrite !Qred_correct.
  unfold Qlt. cbn. lia.
Qed.

Lemma Qc_zero_le_one : (0 : Qc) <= 1.
Proof. apply (Qc_nonneg_const 1 1). lia. Qed.

Lemma specPoints_nonneg norm doc t : 0 <= specPoints norm doc t.
Proof.
  unfold specPoints, specNamePoints, specTagPoints, specOcrPoints.
  repeat apply Qcplus_nonneg_nonneg.
  - repeat case_match; try apply Qcle_refl; try apply Qc_zero_le_one;
      by apply Qc_nonneg_const.
  - repeat case_match; try apply Qcle_refl; by apply Qc_nonneg_const.
  - repeat case_match; try apply Qcle_refl; by apply Qc_nonneg_const.
Qed.

Lemma specAccumulated_nonneg norm doc tokens : 0 <= specAccumulated norm doc tokens.
Proof.
  induction tokens as [|t ts IH]; [apply Qcle_refl|].
  rewrite specAccumulated_cons. apply Qcplus_nonneg_nonneg; [apply specPoints_nonneg|done].
Qed.

Lemma Math_min_zero_l : Math_min 0 1 = 0.
Proof. unfold Math_min. by rewrite decide_True by apply Qc_zero_le_one. Qed.

Lemma Math_min_pos a : 0 < a -> 0 < Math_min a 1.
Proof.
  intros Ha. unfold Math_min. case_decide; [done|]. by apply (Qc_pos_const 1 1).
Qed.

(** The final score is zero exactly when nothing was accumulated: the
    test [score > 0] of the source discards the records of final score 0. *)
Lemma specFinalScore_nonzero norm doc tokens :
  specFinalScore norm doc tokens ≠ 0 <-> 0 < specAccumulated norm doc tokens.
Proof.
  unfold specFinalScore. destruct tokens as [|t ts].
  - rewrite specAccumulated_nil. unfold Qcdiv. rewrite Qcmult_0_l, Math_min_zero_l.
    split; [done|]. intros H. by apply Qclt_not_eq in H.
  - set (a := specAccumulated norm doc (t :: ts)).
    set (n := Q2Qc (Z.of_nat (length (t :: ts)) # 1)).
    assert (Hn : 0 < n) by (apply Qc_pos_const; cbn [length]; lia).
    split.
    + intros Hnz. destruct (Qcle_lt_or_eq _ _ (specAccumulated_nonneg norm doc (t :: ts)))
        as [Hpos|Hzero]; [done|].
      exfalso. apply Hnz. fold a in Hzero. rewrite <- Hzero.
      unfold Qcdiv. by rewrite Qcmult_0_l, Math_min_zero_l.
    + intros Ha. apply not_eq_sym, Qclt_not_eq, Math_min_pos.
      unfold Qcdiv. apply Qcmult_pos_pos; [done|]. by apply Qcinv_pos.
Qed.

(** The loop over the documents appends the scored record when its final
    score is not zero. *)
Lemma scoreDocument_spec terms results doc :
  scoreDocument terms results doc
  = (results ++
     filter (fun r => score r ≠ 0)
       [ {| document := doc; score := specFinalScore Js.toLowerCase doc terms;
            snippet := snippetOf doc terms |} ])%list.
Proof.
  unfold scoreDocument. rewrite accumulated_score. case_bool_decide as Hpos.
  - rewrite filter_cons_True by (by apply specFinalScore_nonzero). done.
  - rewrite filter_cons_False by (cbn [score]; by rewrite specFinalScore_nonzero).
    by rewrite filter_nil, app_nil_r.
Qed.

Lemma fold_scoreDocument terms docs results :
  fold_left (scoreDocument terms) docs results
  = (results ++
     filter (fun r => score r ≠ 0)
       (map (fun doc => {| document := doc;
                           score := specFinalScore Js.toLowerCase doc terms;
                           snippet := snippetOf doc terms |}) docs))%list.
Proof.
  revert results. induction docs as [|doc rest IH]; intros results; cbn [fold_left map].
  - by rewrite filter_nil, app_nil_r.
  - rewrite IH, scoreDocument_spec, <- app_assoc. f_equal.
    by rewrite <- filter_app.
Qed.

(** The ranking of the source is the scorer of the specification, with
    names and tags lowercased. *)
Lemma rankDocuments_lexicalScorer query docs :
  rankDocuments query docs = lexicalScorer query docs.
Proof.
  unfold rankDocuments, lexicalScorer, specScorer.
  by rewrite fold_scoreDocument, queryTermsOf_specTokens.
Qed.

(** *** The order of the results *)

Lemma insertByScore_perm x l : insertByScore x l ≡ₚ x :: l.
Proof.
  induction l as [|y l IH]; [done|]. cbn. case_bool_decide; [|done].
  rewrite IH. apply Permutation_swap.
Qed.

Lemma sortByScore_perm l : sortByScore l ≡ₚ l.
Proof.
  induction l as [|x l IH]; [done|]. cbn. by rewrite insertByScore_perm, IH.
Qed.

Lemma insertByScore_descending x l : descending l -> descending (insertByScore x l).
Proof.
  unfold descending. induction l as [|y l IH]; intros Hl.
  { repeat constructor. }
  cbn. apply Sorted_inv in Hl as [Hl Hhd]. case_bool_decide as Hlt.
  - constructor; [by apply IH|].
    destruct l as [|z l]; cbn.
    + constructor. by apply Qclt_le_weak.
    + case_bool_decide.
      * constructor. by inversion Hhd.
      * constructor. by apply Qclt_le_weak.
  - constructor; [by constructor|]. constructor. by apply Qcle_ngt.
Qed.

Lemma sortByScore_descending l : descending (sortByScore l).
Proof.
  induction l as [|x l IH]; [constructor|]. by apply insertByScore_descending.
Qed.

Lemma descending_firstn n l : descending l -> descending (firstn n l).
Proof.
  unfold descending. revert l. induction n as [|n IH]; intros l Hl; [constructor|].
  destruct l as [|x l]; [constructor|]. cbn.
  apply Sorted_inv in Hl as [Hl Hhd]. constructor; [by apply IH|].
  destruct n, l; cbn; constructor. by inversion Hhd.
Qed.

End LexicalScorer.



(* ===================================================================== *)
(** ** Dates survive the index file                                       *)
(* ===================================================================== *)

Section DateRoundTrip.

Import Dates.
Local Open Scope Z_scope.

Lemma DayFromYear_step y : DayFromYear (y + 1) = DayFromYear y + DaysInYear y.
Proof.
  unfold DayFromYear, DaysInYear.
  destruct (Z.eqb_spec (y mod 4) 0), (Z.eqb_spec (y mod 100) 0),
    (Z.eqb_spec (y mod 400) 0); cbn [negb]; Z.div_mod_to_equations; lia.
Qed.

Lemma DaysInYear_cases y : DaysInYear y = 365 ∨ DaysInYear y = 366.
Proof. unfold DaysInYear. repeat case_match; auto. Qed.

(** [YearFromTime t] is the year whose days contain the day of [t]. *)
Lemma YearFromTime_bracket t :
  DayFromYear (YearFromTime t) <= Day t < DayFromYear (YearFromTime t + 1).
Proof.
  unfold YearFromTime. set (d := Day t). set (y := 1970 + 400 * d / 146097).
  assert (Hlow : DayFromYear (y - 1) <= d).
  { unfold DayFromYear, y. Z.div_mod_to_equations. lia. }
  assert (Hhigh : d < DayFromYear (y + 2)).
  { unfold DayFromYear, y. Z.div_mod_to_equations. lia. }
  destruct (Z.leb_spec (DayFromYear (y + 1)) d) as [Hle|Hgt].
  - replace (y + 1 + 1) with (y + 2) by lia. lia.
  - destruct (Z.ltb_spec d (DayFromYear y)) as [Hlt|Hge].
    + replace (y - 1 + 1) with y by lia. lia.
    + lia.
Qed.

Lemma DayWithinYear_range t : 0 <= DayWithinYear t < DaysInYear (YearFromTime t).
Proof.
  unfold DayWithinYear. pose proof (YearFromTime_bracket t) as Hb.
  rewrite DayFromYear_step in Hb. lia.
Qed.

Lemma InLeapYear_cases t :
  (InLeapYear t = 0 ∧ DaysInYear (YearFromTime t) = 365)
  ∨ (InLeapYear t = 1 ∧ DaysInYear (YearFromTime t) = 366).
Proof.
  unfold InLeapYear. destruct (DaysInYear_cases (YearFromTime t)) as [H|H];
    rewrite H; cbn; auto.
Qed.

(** The years of the time values that a [Date] can hold. *)
Lemma YearFromTime_range t :
  validTime t -> -271821 <= YearFromTime t <= 275760.
Proof.
  intros [Hlo Hhi]. pose proof (YearFromTime_bracket t) as Hb.
  assert (Hd : -100000000 <= Day t <= 100000000).
  { unfold Day, msPerDay, maxTime in *. Z.div_mod_to_equations. lia. }
  unfold DayFromYear in Hb. Z.div_mod_to_equations. lia.
Qed.

(** The month table: [monthOfDay] finds the month whose days contain the
    day of the year. *)
Lemma monthOfDay_bracket leap d :
  (leap = 0 ∨ leap = 1) -> 0 <= d < 365 + leap ->
  0 <= monthOfDay leap d <= 11
  ∧ daysBeforeMonth leap (monthOfDay leap d) <= d
    < daysBeforeMonth leap (monthOfDay leap d + 1).
Proof.
  intros Hleap Hd. unfold monthOfDay.
  destruct (Z.ltb_spec d 31); [simpl; lia|].
  destruct (Z.ltb_spec d (59 + leap)); [simpl; lia|].
  destruct (Z.ltb_spec d (90 + leap)); [simpl; lia|].
  destruct (Z.ltb_spec d (120 + leap)); [simpl; lia|].
  destruct (Z.ltb_spec d (151 + leap)); [simpl; lia|].
  destruct (Z.ltb_spec d (181 + leap)); [simpl; lia|].
  destruct (Z.ltb_spec d (212 + leap)); [simpl; lia|].
  destruct (Z.ltb_spec d (243 + leap)); [simpl; lia|].
  destruct (Z.ltb_spec d (273 + leap)); [simpl; lia|].
  destruct (Z.ltb_spec d (304 + leap)); [simpl; lia|].
  destruct (Z.ltb_spec d (334 + leap)); [simpl; lia|].
  simpl. lia.
Qed.

Lemma MonthFromTime_range t : 0 <= MonthFromTime t <= 11.
Proof.
  unfold MonthFromTime. apply monthOfDay_bracket.
  - destruct (InLeapYear_cases t) as [[-> _]|[-> _]]; auto.
  - pose proof (DayWithinYear_range t).
    destruct (InLeapYear_cases t) as [[-> ?]|[-> ?]]; lia.
Qed.

Lemma DateFromTime_range t :
  1 <= DateFromTime t <= DaysInMonth (YearFromTime t) (MonthFromTime t).
Proof.
  unfold DateFromTime, DaysInMonth, MonthFromTime.
  fold (InLeapYear t).
  assert (Hb : daysBeforeMonth (InLeapYear t) (monthOfDay (InLeapYear t) (DayWithinYear t))
               <= DayWithinYear t
               < daysBeforeMonth (InLeapYear t)
                   (monthOfDay (InLeapYear t) (DayWithinYear t) + 1)).
  { apply monthOfDay_bracket.
    - destruct (InLeapYear_cases t) as [[-> _]|[-> _]]; auto.
    - pose proof (DayWithinYear_range t).
      destruct (InLeapYear_cases t) as [[-> ?]|[-> ?]]; lia. }
  lia.
Qed.

Lemma DaysInMonth_le_31 y m : 0 <= m <= 11 -> DaysInMonth y m <= 31.
Proof.
  intros Hm. unfold DaysInMonth.
  assert (Hcases : m = 0 ∨ m = 1 ∨ m = 2 ∨ m = 3 ∨ m = 4 ∨ m = 5 ∨ m = 6 ∨ m = 7
                   ∨ m = 8 ∨ m = 9 ∨ m = 10 ∨ m = 11) by lia.
  destruct (DaysInYear y =? 366);
    repeat (destruct Hcases as [->|Hcases]; [simpl; lia|]); subst; simpl; lia.
Qed.

(** Putting the fields of a time value together again. *)
Lemma MakeDay_fields t :
  MakeDay (YearFromTime t) (MonthFromTime t) (DateFromTime t) = Day t.
Proof.
  unfold MakeDay, DateFromTime. fold (InLeapYear t). unfold DayWithinYear at 1. lia.
Qed.

Lemma MakeTime_fields t :
  MakeTime (HourFromTime t) (MinFromTime t) (SecFromTime t) (msFromTime t)
  = TimeWithinDay t.
Proof.
  unfold MakeTime, HourFromTime, MinFromTime, SecFromTime, msFromTime, TimeWithinDay,
    msPerHour, msPerMinute, msPerSecond, msPerDay.
  Z.div_mod_to_equations. lia.
Qed.

Lemma MakeDate_fields t : MakeDate (Day t) (TimeWithinDay t) = t.
Proof.
  unfold MakeDate, Day, TimeWithinDay, msPerDay. Z.div_mod_to_equations. lia.
Qed.

Lemma time_fields_range t :
  0 <= HourFromTime t <= 23 ∧ 0 <= MinFromTime t <= 59
  ∧ 0 <= SecFromTime t <= 59 ∧ 0 <= msFromTime t <= 999.
Proof.
  unfold HourFromTime, MinFromTime, SecFromTime, msFromTime,
    msPerHour, msPerMinute, msPerSecond.
  Z.div_mod_to_equations. lia.
Qed.

(** *** Reading back what was written *)

Lemma digit_cases d :
  0 <= d <= 9 ->
  d = 0 ∨ d = 1 ∨ d = 2 ∨ d = 3 ∨ d = 4 ∨ d = 5 ∨ d = 6 ∨ d = 7 ∨ d = 8 ∨ d = 9.
Proof. lia. Qed.

Lemma digitValue_digitChar d : 0 <= d <= 9 -> digitValue (digitChar d) = Some d.
Proof.
  intros Hd. destruct (digit_cases d Hd) as [->|[->|[->|[->|[->|[->|[->|[->|[->| ->]]]]]]]]];
    reflexivity.
Qed.

Lemma mod_10_digit n : 0 <= n mod 10 <= 9.
Proof. pose proof (Z.mod_pos_bound n 10). lia. Qed.

Lemma readDigits_padDigits k acc n rest :
  0 <= n ->
  readDigits k acc (padDigits k n +:+ rest)
  = Some (acc * 10 ^ Z.of_nat k + n mod 10 ^ Z.of_nat k, rest).
Proof.
  intros Hn. revert acc. induction k as [|k IH]; intros acc.
  - cbn [padDigits readDigits]. change ("" +:+ rest) with rest.
    f_equal. f_equal. change (10 ^ Z.of_nat 0) with 1. rewrite Z.mod_1_r. lia.
  - cbn [padDigits readDigits].
    change (String ?c ?s +:+ rest) with (String c (s +:+ rest)).
    cbv beta iota.
    assert (Hpow : 0 < 10 ^ Z.of_nat k) by (apply Z.pow_pos_nonneg; lia).
    rewrite digitValue_digitChar by apply mod_10_digit.
    rewrite IH. f_equal. f_equal.
    rewrite Nat2Z.inj_succ, Z.pow_succ_r by lia.
    rewrite (Z.mul_comm 10 (10 ^ Z.of_nat k)).
    rewrite (Z.rem_mul_r n (10 ^ Z.of_nat k) 10) by lia.
    ring.
Qed.

Lemma readDigits_field k n rest :
  0 <= n < 10 ^ Z.of_nat k ->
  readDigits k 0 (padDigits k n +:+ rest) = Some (n, rest).
Proof.
  intros Hn. rewrite readDigits_padDigits by lia. f_equal. f_equal.
  rewrite Z.mod_small by lia. lia.
Qed.

Lemma readYear_digit d s :
  0 <= d <= 9 ->
  readYear (String (digitChar d) s) = readDigits 4 0 (String (digitChar d) s).
Proof.
  intros Hd. destruct (digit_cases d Hd) as [->|[->|[->|[->|[->|[->|[->|[->|[->| ->]]]]]]]]];
    reflexivity.
Qed.

Lemma readYear_yearString y rest :
  -999999 <= y <= 999999 ->
  readYear (yearString y +:+ rest) = Some (y, rest).
Proof.
  intros Hy. unfold yearString.
  destruct (Z.leb_spec 0 y) as [Hpos|Hneg]; [destruct (Z.leb_spec y 9999) as [Hsmall|Hbig]|];
    cbn [andb].
  - change (padDigits 4 y) with (String (digitChar ((y / 10 ^ Z.of_nat 3) mod 10)) (padDigits 3 y)).
    change (String ?c ?s +:+ rest) with (String c (s +:+ rest)).
    rewrite readYear_digit by apply mod_10_digit.
    change (String (digitChar ((y / 10 ^ Z.of_nat 3) mod 10)) (padDigits 3 y +:+ rest))
      with (padDigits 4 y +:+ rest).
    apply readDigits_field. cbn. lia.
  - change (String ?c ?s +:+ rest) with (String c (s +:+ rest)).
    cbn [readYear]. apply readDigits_field. cbn. lia.
  - change (String ?c ?s +:+ rest) with (String c (s +:+ rest)).
    cbn [readYear]. rewrite readDigits_field by (cbn; lia).
    cbn [mbind option_bind]. destruct (Z.eqb_spec (- y) 0); [lia|].
    f_equal. f_equal. lia.
Qed.

Lemma expect_char c rest : expect c (String c rest) = Some rest.
Proof. cbn. by rewrite Ascii.eqb_refl. Qed.

(** [new Date(d.toISOString())] has the time value of [d]. *)
Lemma parseDate_toISOString t : validTime t -> parseDate (toISOString t) = Some t.
Proof.
  intros Hvalid.
  pose proof (YearFromTime_range t Hvalid) as Hyear.
  pose proof (MonthFromTime_range t) as Hmonth.
  pose proof (DateFromTime_range t) as Hdate.
  pose proof (DaysInMonth_le_31 (YearFromTime t) _ Hmonth) as Hdays.
  destruct (time_fields_range t) as (Hh & Hmi & Hs & Hms).
  unfold parseDate, toISOString.
  rewrite readYear_yearString by lia. cbn [mbind option_bind].
  change ("-" +:+ ?s) with (String "-" s). rewrite expect_char. cbn [mbind option_bind].
  rewrite readDigits_field by (cbn; lia). cbn [mbind option_bind].
  change ("-" +:+ ?s) with (String "-" s). rewrite expect_char. cbn [mbind option_bind].
  rewrite readDigits_field by (cbn; lia). cbn [mbind option_bind].
  change ("T" +:+ ?s) with (String "T" s). rewrite expect_char. cbn [mbind option_bind].
  rewrite readDigits_field by (cbn; lia). cbn [mbind option_bind].
  change (":" +:+ ?s) with (String ":" s). rewrite expect_char. cbn [mbind option_bind].
  rewrite readDigits_field by (cbn; lia). cbn [mbind option_bind].
  change (":" +:+ ?s) with (String ":" s). rewrite expect_char. cbn [mbind option_bind].
  rewrite readDigits_field by (cbn; lia). cbn [mbind option_bind].
  change ("." +:+ ?s) with (String "." s). rewrite expect_char. cbn [mbind option_bind].
  rewrite readDigits_field by (cbn; lia). cbn [mbind option_bind].
  rewrite expect_char. cbn [mbind option_bind String.eqb negb].
  replace (MonthFromTime t + 1 - 1) with (MonthFromTime t) by lia.
  rewrite MakeDay_fields, MakeTime_fields, MakeDate_fields.
  rewrite !(proj2 (Z.leb_le _ _)) by lia. cbn [andb negb].
  unfold TimeClip. destruct Hvalid as [Hlo Hhi].
  by rewrite !(proj2 (Z.leb_le _ _)) by lia.
Qed.

End DateRoundTrip.

(** ** Index store: persist, then load *)

Section Persistence.

Context (rt : Runtime).

Lemma toISOString_truthy t : Dates.validTime t -> Js.truthy (Dates.toISOString t) = true.
Proof.
  intros Hvalid. pose proof (parseDate_toISOString t Hvalid) as Hparse.
  destruct (Dates.toISOString t); [discriminate Hparse|done].
Qed.

Lemma reviveDate_toISOString t :
  Dates.validTime t -> reviveDate (Some (Dates.toISOString t)) = Some t.
Proof.
  intros Hvalid. unfold reviveDate.
  by rewrite toISOString_truthy, parseDate_toISOString.
Qed.

(** One record: what is written for it is read back as the same record. *)
Lemma revive_toJSON doc :
  Dates.validTime (createdAt doc) -> Dates.validTime (modifiedAt doc) ->
  revive (toJSON doc) = Some doc.
Proof.
  intros Hc Hm. unfold revive, toJSON. cbn [s_createdAt s_modifiedAt].
  rewrite !reviveDate_toISOString by done. cbn. by destruct doc.
Qed.

Lemma omap_revive_toJSON (cache : gmap string DmsDocument) :
  validDates cache -> omap revive (toJSON <$> cache) = cache.
Proof.
  intros Hvalid. apply map_eq. intros k.
  rewrite lookup_omap, lookup_fmap.
  destruct (cache !! k) as [doc|] eqn:Hdoc; [|done]. cbn.
  destruct (Hvalid _ _ Hdoc) as [Hc Hm]. by apply revive_toJSON.
Qed.

Lemma stored_documents_revive (cache : gmap string DmsDocument) :
  validDates cache ->
  map_Forall (fun _ sd => is_Some (revive sd)) (toJSON <$> cache).
Proof.
  intros Hvalid. apply map_Forall_fmap. intros k doc Hdoc. unfold compose.
  destruct (Hvalid _ _ Hdoc) as [Hc Hm]. rewrite revive_toJSON by done. by eexists.
Qed.


End Persistence.


(* ===================================================================== *)
(** ** Sorting as [Array.prototype.sort] does                             *)
(* ===================================================================== *)

Section SortFacts.

Context {A : Type} (after : A -> A -> bool).

Lemma insert_perm x l : JsArray.insert after x l ≡ₚ x :: l.
Proof.
  induction l as [|y l IH]; simpl; [done|].
  destruct (after x y); [|done].
  rewrite IH. apply Permutation_swap.
Qed.

Lemma sort_perm l : JsArray.sort after l ≡ₚ l.
Proof.
  induction l as [|x l IH]; simpl; [done|].
  rewrite insert_perm. by rewrite IH.
Qed.

Lemma sort_length l : length (JsArray.sort after l) = length l.
Proof. apply Permutation_length, sort_perm. Qed.

Lemma elem_of_sort x l : x ∈ JsArray.sort after l <-> x ∈ l.
Proof. by rewrite sort_perm. Qed.

(** The comparison is consistent: it never puts two elements behind each
    other, and "not behind" is transitive. *)
Hypothesis after_asym : forall x y, after x y = true -> after y x = false.
Hypothesis after_trans :
  forall x y z, after x y = false -> after y z = false -> after x z = false.

Lemma insert_sorted x l :
  StronglySorted (fun a b => after a b = false) l ->
  StronglySorted (fun a b => after a b = false) (JsArray.insert after x l).
Proof.
  induction 1 as [|y l Hl IH Hy]; simpl.
  - repeat constructor.
  - destruct (after x y) eqn:Hxy.
    + constructor; [done|].
      rewrite insert_perm. constructor; [by apply after_asym | done].
    + constructor; [by constructor|].
      constructor; [done|].
      eapply Forall_impl; [exact Hy|].
      intros z Hz. by eapply after_trans.
Qed.

Lemma sort_sorted l :
  StronglySorted (fun a b => after a b = false) (JsArray.sort after l).
Proof.
  induction l as [|x l IH]; simpl; [constructor|].
  by apply insert_sorted.
Qed.

End SortFacts.

Lemma StronglySorted_take {A} (R : A -> A -> Prop) n l :
  StronglySorted R l -> StronglySorted R (take n l).
Proof.
  intros Hl. revert n.
  induction Hl as [|x l Hl IH Hx]; intros [|n]; simpl; try constructor; [done|].
  by apply Forall_take.
Qed.

Lemma StronglySorted_app_inv {A} (R : A -> A -> Prop) l1 l2 :
  StronglySorted R (l1 ++ l2) ->
  forall x y, x ∈ l1 -> y ∈ l2 -> R x y.
Proof.
  induction l1 as [|a l1 IH]; simpl; intros Hs x y Hx Hy.
  - by apply elem_of_nil in Hx.
  - apply StronglySorted_inv in Hs as [Hs Ha].
    apply elem_of_cons in Hx as [->|Hx].
    + rewrite Forall_forall in Ha. apply Ha. apply elem_of_app. by right.
    + by apply IH.
Qed.

(* ===================================================================== *)
(** ** The order of strings                                               *)
(* ===================================================================== *)

Section StringOrder.

Lemma ascii_compare_lt_trans a b c :
  Ascii.compare a b = Lt -> Ascii.compare b c = Lt -> Ascii.compare a c = Lt.
Proof.
  unfold Ascii.compare. rewrite !N.compare_lt_iff. lia.
Qed.

Lemma string_compare_lt_trans s t u :
  String.compare s t = Lt -> String.compare t u = Lt -> String.compare s u = Lt.
Proof.
  revert t u. induction s as [|a s IH]; intros [|b t] [|c u]; simpl; try done.
  destruct (Ascii.compare a b) eqn:Hab; try done;
    destruct (Ascii.compare b c) eqn:Hbc; try done.
  - apply Ascii.compare_eq_iff in Hab, Hbc. subst.
    assert (Ascii.compare c c = Eq) as ->.
    { unfold Ascii.compare. apply N.compare_refl. }
    apply IH.
  - apply Ascii.compare_eq_iff in Hab. subst. by rewrite Hbc.
  - apply Ascii.compare_eq_iff in Hbc. subst. by rewrite Hab.
  - by rewrite (ascii_compare_lt_trans a b c).
Qed.

Lemma string_compare_gt s t : String.compare s t = Gt <-> String.compare t s = Lt.
Proof.
  rewrite (String.compare_antisym t s).
  destruct (String.compare s t); simpl; split; congruence.
Qed.

Lemma after_asym x y : JsText.after x y = true -> JsText.after y x = false.
Proof.
  unfold JsText.after, String.ltb.
  rewrite (String.compare_antisym x y).
  by destruct (String.compare y x).
Qed.

Lemma after_trans x y z :
  JsText.after x y = false -> JsText.after y z = false -> JsText.after x z = false.
Proof.
  unfold JsText.after, String.ltb. intros Hyx Hzy.
  destruct (String.compare z x) eqn:Hzx; try done.
  destruct (String.compare x y) eqn:Hxy.
  - apply String.compare_eq_iff in Hxy. subst. by rewrite Hzx in Hzy.
  - by rewrite (string_compare_lt_trans z x y) in Hzy.
  - apply string_compare_gt in Hxy. by rewrite Hxy in Hyx.
Qed.

Lemma not_after_ne_ltb x y : JsText.after x y = false -> x ≠ y -> String.ltb x y = true.
Proof.
  unfold JsText.after, String.ltb. intros Hyx Hne.
  destruct (String.compare x y) eqn:Hxy; try done.
  - by apply String.compare_eq_iff in Hxy.
  - apply string_compare_gt in Hxy. by rewrite Hxy in Hyx.
Qed.

Lemma sorted_NoDup_ascending (l : list string) :
  StronglySorted (fun a b => JsText.after a b = false) l -> NoDup l -> ascending l.
Proof.
  induction 1 as [|x l Hl IH Hx]; intros Hnd; [constructor|].
  apply NoDup_cons in Hnd as [Hnotin Hnd].
  constructor; [by apply IH|].
  rewrite Forall_forall in Hx. apply Forall_forall. intros y Hy.
  apply not_after_ne_ltb; [by apply Hx|].
  intros ->. done.
Qed.

End StringOrder.

(* ===================================================================== *)
(** ** Listings                                                           *)
(* ===================================================================== *)

Section ListingFacts.

Context (rt : Runtime).

Lemma setAdd_NoDup members x : NoDup members -> NoDup (JsArray.setAdd members x).
Proof.
  intros Hnd. unfold JsArray.setAdd. case_bool_decide; [done|].
  apply NoDup_app. split_and!; [done| |apply NoDup_singleton].
  intros y Hy Hy'. apply list_elem_of_singleton in Hy'. by subst.
Qed.

Lemma elem_of_setAdd members x y :
  y ∈ JsArray.setAdd members x <-> y ∈ members ∨ y = x.
Proof.
  unfold JsArray.setAdd. case_bool_decide.
  - split; [by left|]. intros [?| ->]; done.
  - rewrite elem_of_app, list_elem_of_singleton. done.
Qed.

Lemma fold_setAdd_NoDup ts members :
  NoDup members -> NoDup (fold_left JsArray.setAdd ts members).
Proof.
  revert members. induction ts as [|t ts IH]; simpl; intros members Hnd; [done|].
  by apply IH, setAdd_NoDup.
Qed.

Lemma elem_of_fold_setAdd ts members y :
  y ∈ fold_left JsArray.setAdd ts members <-> y ∈ members ∨ y ∈ ts.
Proof.
  revert members. induction ts as [|t ts IH]; simpl; intros members.
  - rewrite elem_of_nil. tauto.
  - rewrite IH, elem_of_setAdd, elem_of_cons. tauto.
Qed.

Lemma fold_collect_NoDup docs members :
  NoDup members ->
  NoDup (fold_left (fun members doc => fold_left JsArray.setAdd (tags doc) members)
                   docs members).
Proof.
  revert members. induction docs as [|d docs IH]; simpl; intros members Hnd; [done|].
  by apply IH, fold_setAdd_NoDup.
Qed.

Lemma elem_of_fold_collect docs members y :
  y ∈ fold_left (fun members doc => fold_left JsArray.setAdd (tags doc) members)
                docs members
  <-> y ∈ members ∨ exists doc, doc ∈ docs ∧ y ∈ tags doc.
Proof.
  revert members. induction docs as [|d docs IH]; simpl; intros members.
  - split; [by left|]. intros [?|(doc & Hdoc & _)]; [done|].
    by apply elem_of_nil in Hdoc.
  - rewrite IH, elem_of_fold_setAdd. split.
    + intros [[?|?]|(doc & Hdoc & Hy)].
      * by left.
      * right. exists d. split; [apply list_elem_of_here | done].
      * right. exists doc. split; [by apply list_elem_of_further | done].
    + intros [?|(doc & Hdoc & Hy)]; [by left; left|].
      apply elem_of_cons in Hdoc as [->|Hdoc].
      * left. by right.
      * right. by exists doc.
Qed.

Lemma collectTags_NoDup docs : NoDup (collectTags docs).
Proof. apply fold_collect_NoDup, NoDup_nil_2. Qed.

Lemma elem_of_collectTags docs y :
  y ∈ collectTags docs <-> exists doc, doc ∈ docs ∧ y ∈ tags doc.
Proof.
  unfold collectTags. rewrite elem_of_fold_collect, elem_of_nil. tauto.
Qed.

Lemma getDocuments_result w :
  getDocuments rt w =
    (Ok (collectDocuments rt (readDocumentsDir rt) (documentsCache w)).1,
     (getDocuments rt w).2).
Proof.
  rewrite getDocuments_eq.
  by destruct (collectDocuments rt (readDocumentsDir rt) (documentsCache w)).
Qed.

Lemma documentsCache_getDocuments w :
  documentsCache (getDocuments rt w).2
  = (collectDocuments rt (readDocumentsDir rt) (documentsCache w)).2.
Proof.
  rewrite getDocuments_eq.
  by destruct (collectDocuments rt (readDocumentsDir rt) (documentsCache w)).
Qed.

Lemma collectDocuments_length files cache :
  length (collectDocuments rt files cache).1 = length files.
Proof.
  revert cache. induction files as [|f files IH]; intros cache; simpl; [done|].
  destruct (cache !! f).
  - specialize (IH cache). destruct (collectDocuments rt files cache). simpl in *. lia.
  - specialize (IH (<[f := createDocumentEntry rt f]> cache)).
    destruct (collectDocuments rt files _). simpl in *. lia.
Qed.

Lemma collectDocuments_fixed files docs cache :
  Forall2 (fun file doc => cache !! file = Some doc) files docs ->
  collectDocuments rt files cache = (docs, cache).
Proof.
  induction 1 as [|f d files docs Hf _ IH]; simpl; [done|].
  by rewrite Hf, IH.
Qed.

Lemma getTags_eq w :
  getTags rt w =
    (Ok (JsArray.sort JsText.after
           (collectTags (collectDocuments rt (readDocumentsDir rt) (documentsCache w)).1)),
     (getDocuments rt w).2).
Proof. unfold getTags, bind, ret. by rewrite (getDocuments_result w). Qed.

(** A second scan finds every file in the store. *)
Lemma getDocuments_twice w :
  (getDocuments rt (getDocuments rt w).2).1 = (getDocuments rt w).1
  ∧ documentsCache (getDocuments rt (getDocuments rt w).2).2
    = documentsCache (getDocuments rt w).2.
Proof.
  pose proof (collectDocuments_lookup rt (readDocumentsDir rt) (documentsCache w)) as Hlookup.
  pose proof (documentsCache_getDocuments w) as Hcache.
  pose proof (getDocuments_result w) as Hres.
  destruct (collectDocuments rt (readDocumentsDir rt) (documentsCache w))
    as [docs cache'] eqn:Hcollect.
  simpl in *. destruct Hlookup as [Hfiles _].
  assert (collectDocuments rt (readDocumentsDir rt) cache' = (docs, cache')) as Hfixed
    by by apply collectDocuments_fixed.
  split.
  - rewrite (getDocuments_result (getDocuments rt w).2), Hcache, Hfixed, Hres. done.
  - rewrite documentsCache_getDocuments, Hcache, Hfixed. done.
Qed.

(** X1: [getTags] answers with the tags in strictly ascending order of
    code units, so that no tag is listed twice, and a tag is listed
    exactly when one of the records that [getDocuments] returns carries
    it. *)
Theorem getTags_sorted_exact w :
  exists docs listed w',
    getDocuments rt w = (Ok docs, w')
    ∧ getTags rt w = (Ok listed, w')
    ∧ ascending listed
    ∧ NoDup listed
    ∧ forall tag, tag ∈ listed <-> exists doc, doc ∈ docs ∧ tag ∈ tags doc.
Proof.
  exists (collectDocuments rt (readDocumentsDir rt) (documentsCache w)).1,
         (JsArray.sort JsText.after
            (collectTags (collectDocuments rt (readDocumentsDir rt) (documentsCache w)).1)),
         (getDocuments rt w).2.
  assert (NoDup (JsArray.sort JsText.after
            (collectTags (collectDocuments rt (readDocumentsDir rt) (documentsCache w)).1)))
    as Hnd.
  { rewrite sort_perm. apply collectTags_NoDup. }
  split_and!.
  - apply getDocuments_result.
  - unfold getTags, bind, ret. by rewrite getDocuments_result.
  - apply sorted_NoDup_ascending; [|done].
    apply sort_sorted; [apply after_asym | apply after_trans].
  - done.
  - intros tag. by rewrite elem_of_sort, elem_of_collectTags.
Qed.

(** X2: [getRecentDocuments] answers with [min limit n] of the [n]
    records that [getDocuments] returns, the most recently modified
    first; no record that is left out was modified after one that is
    returned. *)
Theorem getRecentDocuments_newest limit w :
  exists docs recent others w',
    getDocuments rt w = (Ok docs, w')
    ∧ getRecentDocuments rt limit w = (Ok recent, w')
    ∧ (recent ++ others)%list ≡ₚ docs
    ∧ length recent = Nat.min limit (length docs)
    ∧ newestFirst recent
    ∧ forall r d, r ∈ recent -> d ∈ others -> (modifiedAt d <= modifiedAt r)%Z.
Proof.
  set (docs := (collectDocuments rt (readDocumentsDir rt) (documentsCache w)).1).
  set (sorted := JsArray.sort (fun a b => (modifiedAt a <? modifiedAt b)%Z) docs).
  assert (StronglySorted (fun a b => (modifiedAt a <? modifiedAt b)%Z = false) sorted)
    as Hsorted.
  { apply sort_sorted; intros; lia. }
  exists docs, (take limit sorted), (drop limit sorted), (getDocuments rt w).2.
  split_and!.
  - apply getDocuments_result.
  - unfold getRecentDocuments, bind, ret. by rewrite getDocuments_result.
  - rewrite take_drop. apply sort_perm.
  - rewrite length_take. unfold sorted. rewrite sort_length. lia.
  - apply StronglySorted_take.
    eapply StronglySorted_ind with (R := fun a b => (modifiedAt a <? modifiedAt b)%Z = false);
      [constructor| |exact Hsorted].
    intros a l _ IH Ha. constructor; [done|].
    eapply Forall_impl; [exact Ha|]. simpl. intros; lia.
  - intros r d Hr Hd.
    rewrite <- (take_drop limit sorted) in Hsorted.
    pose proof (StronglySorted_app_inv _ _ _ Hsorted r d Hr Hd) as Hrd.
    simpl in Hrd. lia.
Qed.

(** X3: Scanning is stable: [getDocuments] returns one record for each
    scanned file, in the order of the scan ([getDocumentCount] is their
    number), records that the store already tracked are kept as they
    are, and a second scan returns the same records and leaves the store
    as the first one left it. *)
Theorem getDocuments_stable w :
  exists docs w1 w2,
    getDocuments rt w = (Ok docs, w1)
    ∧ getDocumentCount rt w = (Ok (length (readDocumentsDir rt)), w1)
    ∧ length docs = length (readDocumentsDir rt)
    ∧ Forall2 (fun file doc => documentsCache w1 !! file = Some doc)
              (readDocumentsDir rt) docs
    ∧ (forall k doc, documentsCache w !! k = Some doc -> documentsCache w1 !! k = Some doc)
    ∧ getDocuments rt w1 = (Ok docs, w2)
    ∧ documentsCache w2 = documentsCache w1.
Proof.
  pose proof (collectDocuments_lookup rt (readDocumentsDir rt) (documentsCache w)) as Hlookup.
  pose proof (collectDocuments_length (readDocumentsDir rt) (documentsCache w)) as Hlen.
  pose proof (documentsCache_getDocuments w) as Hcache.
  pose proof (getDocuments_result w) as Hres.
  destruct (collectDocuments rt (readDocumentsDir rt) (documentsCache w))
    as [docs cache'] eqn:Hcollect.
  simpl in *. destruct Hlookup as [Hfiles Hkept].
  exists docs, (getDocuments rt w).2, (getDocuments rt (getDocuments rt w).2).2.
  rewrite Hcache.
  assert (collectDocuments rt (readDocumentsDir rt) cache' = (docs, cache')) as Hfixed
    by by apply collectDocuments_fixed.
  split_and!; try done.
  - unfold getDocumentCount, bind, ret. by rewrite Hres, Hlen.
  - rewrite (getDocuments_result (getDocuments rt w).2), Hcache, Hfixed. done.
  - rewrite documentsCache_getDocuments, Hcache, Hfixed. done.
Qed.

(** X4: What the tag view offers, the search finds: for a tag that
    [getTags] lists and that has no white space at its ends, the query of
    its entry in the tag view makes [semanticSearch] return at least one
    result, each with score 1 and a document that carries the tag. *)
Theorem tag_view_query_finds w tag :
  (exists listed, (getTags rt w).1 = Ok listed ∧ tag ∈ listed) ->
  Js.trim tag = tag ->
  exists results,
    (semanticSearch rt (tagQuery tag) (getTags rt w).2).1 = Ok results
    ∧ results ≠ []
    ∧ Forall (fun r => tag ∈ tags (document r) ∧ score r = 1%Qc) results.
Proof.
  intros (listed & Hlisted & Htag) Htrim.
  rewrite getTags_eq in Hlisted. simpl in Hlisted. injection Hlisted as <-.
  apply elem_of_sort, elem_of_collectTags in Htag as (doc & Hdoc & Hcarries).
  rewrite getTags_eq. simpl.
  destruct (getDocuments_twice w) as [Hagain _].
  rewrite (getDocuments_result w) in Hagain. simpl in Hagain.
  unfold tagQuery. rewrite semanticSearch_tag, Htrim.
  unfold bind, ret, getDocumentsByTag, bind, ret.
  destruct (getDocuments rt (getDocuments rt w).2) as [outcome w2]. simpl in Hagain.
  subst outcome. simpl.
  eexists. split; [done|]. split.
  - intros Hnil. apply fmap_nil_inv in Hnil.
    assert (doc ∈ filter (fun d => tag ∈ tags d)
                    (collectDocuments rt (readDocumentsDir rt) (documentsCache w)).1)
      as Hin by (apply list_elem_of_filter; done).
    rewrite Hnil in Hin. by apply elem_of_nil in Hin.
  - apply Forall_fmap, Forall_forall. intros d Hd. simpl.
    apply list_elem_of_filter in Hd as [Hd _]. done.
Qed.

End ListingFacts.

(* ===================================================================== *)
(** ** The relative time of the recent view                               *)
(* ===================================================================== *)

(** X5: [getRelativeTime] switches at one minute, one hour, one day and
    one week of age, in milliseconds; the number it shows lies between 1
    and 59 minutes, 1 and 23 hours, or 1 and 6 days.  A date that is not
    in the past reads "gerade eben". *)
Theorem getRelativeTime_thresholds toLocale now date :
  let age := (now - date)%Z in
  ((age < 60000)%Z -> getRelativeTime toLocale now date = "gerade eben")
  ∧ ((60000 <= age < 3600000)%Z ->
     getRelativeTime toLocale now date = "vor " +:+ JsText.decimal (age / 60000) +:+ " Min."
     ∧ (1 <= age / 60000 <= 59)%Z)
  ∧ ((3600000 <= age < 86400000)%Z ->
     getRelativeTime toLocale now date = "vor " +:+ JsText.decimal (age / 3600000) +:+ " Std."
     ∧ (1 <= age / 3600000 <= 23)%Z)
  ∧ ((86400000 <= age < 604800000)%Z ->
     getRelativeTime toLocale now date = "vor " +:+ JsText.decimal (age / 86400000) +:+ " Tagen"
     ∧ (1 <= age / 86400000 <= 6)%Z)
  ∧ ((604800000 <= age)%Z -> getRelativeTime toLocale now date = toLocale date).
Proof.
  intros age. unfold getRelativeTime. fold age.
  assert (age / 60000 / 60 = age / 3600000)%Z as Hhours
    by (rewrite Z.div_div by lia; done).
  assert (age / 60000 / 60 / 24 = age / 86400000)%Z as Hdays
    by (rewrite Hhours, Z.div_div by lia; done).
  rewrite Hdays, Hhours.
  split_and!; intros Hage.
  - destruct (Z.ltb_spec (age / 60000) 1) as [_|Hge]; [done|].
    exfalso. revert Hge. Z.div_mod_to_equations. lia.
  - assert (1 <= age / 60000 <= 59)%Z as Hrange by (Z.div_mod_to_equations; lia).
    split; [|done].
    destruct (Z.ltb_spec (age / 60000) 1); [lia|].
    destruct (Z.ltb_spec (age / 60000) 60); [done|lia].
  - assert (1 <= age / 3600000 <= 23)%Z as Hrange by (Z.div_mod_to_equations; lia).
    assert (60 <= age / 60000)%Z by (Z.div_mod_to_equations; lia).
    split; [|done].
    destruct (Z.ltb_spec (age / 60000) 1); [lia|].
    destruct (Z.ltb_spec (age / 60000) 60); [lia|].
    destruct (Z.ltb_spec (age / 3600000) 24); [done|lia].
  - assert (1 <= age / 86400000 <= 6)%Z as Hrange by (Z.div_mod_to_equations; lia).
    assert (60 <= age / 60000)%Z by (Z.div_mod_to_equations; lia).
    assert (24 <= age / 3600000)%Z by (Z.div_mod_to_equations; lia).
    split; [|done].
    destruct (Z.ltb_spec (age / 60000) 1); [lia|].
    destruct (Z.ltb_spec (age / 60000) 60); [lia|].
    destruct (Z.ltb_spec (age / 3600000) 24); [lia|].
    destruct (Z.ltb_spec (age / 86400000) 7); [done|lia].
  - assert (60 <= age / 60000)%Z by (Z.div_mod_to_equations; lia).
    assert (24 <= age / 3600000)%Z by (Z.div_mod_to_equations; lia).
    assert (7 <= age / 86400000)%Z by (Z.div_mod_to_equations; lia).
    destruct (Z.ltb_spec (age / 60000) 1); [lia|].
    destruct (Z.ltb_spec (age / 60000) 60); [lia|].
    destruct (Z.ltb_spec (age / 3600000) 24); [lia|].
    destruct (Z.ltb_spec (age / 86400000) 7); [lia|done].
Qed.

(* ===================================================================== *)
(** ** The file watcher                                                   *)
(* ===================================================================== *)

Ltac unfold_host :=
  unfold bindH, retH, throwH, tryCatchH, getHost, modifyHost, call, liftM, fire,
    setDocument, deleteDocument, liftResult,
    bind, ret, throw, tryCatch, getWorld, modifyWorld, tell in *.

Section Watcher.

Context (rt : Runtime).

Lemma setService_service h : setService (service h) h = h.
Proof. by destruct h. Qed.

Lemma onDidCreate_tracked fsPath h doc :
  documentsCache (service h) !! fsPath = Some doc ->
  onDidCreate rt fsPath h = (Ok tt, h).
Proof.
  intros Hdoc. unfold onDidCreate.
  destruct (isSupportedFile rt fsPath); [|done].
  unfold_host. by rewrite Hdoc.
Qed.

Lemma onDidCreate_unsupported fsPath h :
  isSupportedFile rt fsPath = false -> onDidCreate rt fsPath h = (Ok tt, h).
Proof. intros Hno. unfold onDidCreate. by rewrite Hno. Qed.

Lemma onDidCreate_fresh fsPath h :
  isSupportedFile rt fsPath = true ->
  documentsCache (service h) !! fsPath = None ->
  documentsCache (service (onDidCreate rt fsPath h).2)
  = <[fsPath := createDocumentEntry rt fsPath]> (documentsCache (service h)).
Proof.
  intros Hyes Hnone. unfold onDidCreate. rewrite Hyes.
  unfold_host. by rewrite Hnone.
Qed.

Lemma onDidDelete_untracked fsPath h :
  documentsCache (service h) !! fsPath = None ->
  onDidDelete rt fsPath h = (Ok tt, h).
Proof. intros Hnone. unfold onDidDelete. unfold_host. by rewrite Hnone. Qed.

Lemma onDidDelete_cache fsPath h :
  documentsCache (service (onDidDelete rt fsPath h).2)
  = delete fsPath (documentsCache (service h)).
Proof.
  unfold onDidDelete. unfold_host.
  destruct (documentsCache (service h) !! fsPath) eqn:Hdoc; simpl; [done|].
  by rewrite delete_id.
Qed.

(** X6: A create event never overwrites: the records that the store
    tracks stay as they are, with their tags; a file of an unsupported
    type changes nothing; a supported file is tracked afterwards; and the
    same event once more changes nothing. *)
Theorem onDidCreate_never_overwrites fsPath h :
  let h1 := (onDidCreate rt fsPath h).2 in
  (forall k doc,
     documentsCache (service h) !! k = Some doc ->
     documentsCache (service h1) !! k = Some doc)
  ∧ (isSupportedFile rt fsPath = false -> h1 = h)
  ∧ (isSupportedFile rt fsPath = true -> is_Some (documentsCache (service h1) !! fsPath))
  ∧ onDidCreate rt fsPath h1 = (Ok tt, h1).
Proof.
  intros h1. subst h1.
  destruct (isSupportedFile rt fsPath) eqn:Hsup.
  - destruct (documentsCache (service h) !! fsPath) as [doc|] eqn:Hdoc.
    + rewrite (onDidCreate_tracked _ _ _ Hdoc). simpl.
      split_and!.
      * done.
      * done.
      * intros _. by rewrite Hdoc.
      * by apply (onDidCreate_tracked _ _ doc).
    + pose proof (onDidCreate_fresh _ _ Hsup Hdoc) as Hcache.
      assert (documentsCache (service (onDidCreate rt fsPath h).2) !! fsPath
              = Some (createDocumentEntry rt fsPath)) as Hnew
        by (rewrite Hcache; apply lookup_insert_eq).
      split_and!.
      * intros k doc Hk. rewrite Hcache.
        rewrite lookup_insert_ne; [done|]. intros <-. by rewrite Hdoc in Hk.
      * done.
      * intros _. by rewrite Hnew.
      * by eapply onDidCreate_tracked.
  - rewrite (onDidCreate_unsupported _ _ Hsup). simpl.
    split_and!.
    + done.
    + done.
    + done.
    + by apply onDidCreate_unsupported.
Qed.

(** X7: A delete event removes the record of that path and no other;
    for a path that is not tracked it changes nothing, and then a create
    event followed by the delete event leaves the store with the records
    it had. *)
Theorem onDidDelete_removes_one fsPath h :
  let h1 := (onDidDelete rt fsPath h).2 in
  documentsCache (service h1) !! fsPath = None
  ∧ (forall k, k ≠ fsPath ->
       documentsCache (service h1) !! k = documentsCache (service h) !! k)
  ∧ (documentsCache (service h) !! fsPath = None ->
     h1 = h
     ∧ documentsCache (service (onDidDelete rt fsPath (onDidCreate rt fsPath h).2).2)
       = documentsCache (service h)).
Proof.
  intros h1. subst h1. rewrite onDidDelete_cache.
  split_and!.
  - apply lookup_delete_eq.
  - intros k Hk. by apply lookup_delete_ne.
  - intros Hnone. split; [by rewrite onDidDelete_untracked|].
    rewrite onDidDelete_cache.
    destruct (isSupportedFile rt fsPath) eqn:Hsup.
    + rewrite (onDidCreate_fresh _ _ Hsup Hnone).
      by rewrite delete_insert_eq, delete_id.
    + rewrite (onDidCreate_unsupported _ _ Hsup). simpl. by rewrite delete_id.
Qed.

Lemma onDidChange_cache fsPath h :
  documentsCache (service (onDidChange rt fsPath h).2)
  = if isSupportedFile rt fsPath then
      match documentsCache (service h) !! fsPath with
      | Some doc =>
          <[fsPath := withModifiedAt doc (mtime (statSync rt fsPath))]>
            (documentsCache (service h))
      | None => documentsCache (service h)
      end
    else documentsCache (service h).
Proof.
  unfold onDidChange. destruct (isSupportedFile rt fsPath); [|done].
  unfold_host. by destruct (documentsCache (service h) !! fsPath).
Qed.

(** X8: A change event touches nothing but the modification time of the
    record of that path: the same paths are tracked, every record keeps
    its tags, its OCR text and its creation time, and the other records
    stay as they are.  The time of a tracked, supported file becomes the
    [mtime] of the file. *)
Theorem onDidChange_only_mtime fsPath h :
  let cache := documentsCache (service h) in
  let cache1 := documentsCache (service (onDidChange rt fsPath h).2) in
  dom cache1 = dom cache
  ∧ (forall k, tags <$> cache1 !! k = tags <$> cache !! k
               ∧ ocrText <$> cache1 !! k = ocrText <$> cache !! k
               ∧ createdAt <$> cache1 !! k = createdAt <$> cache !! k)
  ∧ (forall k, k ≠ fsPath -> cache1 !! k = cache !! k)
  ∧ (isSupportedFile rt fsPath = true -> is_Some (cache !! fsPath) ->
     modifiedAt <$> cache1 !! fsPath = Some (mtime (statSync rt fsPath))).
Proof.
  intros cache cache1. subst cache cache1. rewrite onDidChange_cache.
  destruct (isSupportedFile rt fsPath);
    [destruct (documentsCache (service h) !! fsPath) as [doc|] eqn:Hdoc|].
  - split_and!.
    + apply dom_insert_lookup_L. by rewrite Hdoc.
    + intros k. destruct (decide (k = fsPath)) as [->|Hk].
      * by rewrite lookup_insert_eq, Hdoc.
      * by rewrite lookup_insert_ne.
    + intros k Hk. by rewrite lookup_insert_ne.
    + intros _ _. by rewrite lookup_insert_eq.
  - split_and!.
    + done.
    + done.
    + done.
    + intros _ [? ?]. done.
  - split_and!; done.
Qed.

End Watcher.

(* ===================================================================== *)
(** ** Renaming a document                                                *)
(* ===================================================================== *)

Section Rename.

Context (rt : Runtime) (pf : Platform).

Lemma fired_app cs cs' : fired (cs ++ cs') = (fired cs + fired cs')%nat.
Proof. unfold fired. by rewrite List.filter_app, length_app. Qed.

(** The host after a renaming that goes through, for a tracked file. *)
Lemma renameDocument_tracked oldPath newFilename h oldDoc :
  let newPath := join pf (dirname pf oldPath) newFilename in
  oldPath ∈ existing h ->
  newPath ∉ existing h ->
  documentsCache (service h) !! oldPath = Some oldDoc ->
  renameDocument rt pf oldPath newFilename h =
    (Ok newFilename,
     {| service :=
          (saveDocumentsCache rt
             (setCache (<[newPath := renamedDocument rt oldDoc newFilename newPath]>
                          (delete oldPath (documentsCache (service h))))
                       (service h))).2;
        existing := {[newPath]} ∪ existing h ∖ {[oldPath]};
        calls := calls h ++ [CallRename oldPath newPath; CallFire] |}).
Proof.
  intros newPath Hold Hnew Hdoc. unfold renameDocument. unfold_host.
  rewrite bool_decide_true by done. simpl.
  fold newPath. rewrite bool_decide_false by done.
  unfold renameSync. unfold_host. simpl. rewrite Hdoc. simpl.
  unfold record, setExisting, setService. simpl.
  rewrite <- app_assoc. done.
Qed.


(** X10: A renaming that goes through moves the record: the old path
    is no longer tracked, the new path carries the record with its tags,
    OCR text, metadata, type and creation time, with the new name, the
    identifier of the new path and the current time as modification
    time; the other records stay, the file has moved, and one change
    notification is sent. *)
Theorem renameDocument_moves_record oldPath newFilename h oldDoc :
  let newPath := join pf (dirname pf oldPath) newFilename in
  let h1 := (renameDocument rt pf oldPath newFilename h).2 in
  oldPath ∈ existing h ->
  newPath ∉ existing h ->
  documentsCache (service h) !! oldPath = Some oldDoc ->
  documentsCache (service h1) !! oldPath = None
  ∧ (exists newDoc,
       documentsCache (service h1) !! newPath = Some newDoc
       ∧ tags newDoc = tags oldDoc
       ∧ ocrText newDoc = ocrText oldDoc
       ∧ metadata newDoc = metadata oldDoc
       ∧ doc_type newDoc = doc_type oldDoc
       ∧ createdAt newDoc = createdAt oldDoc
       ∧ modifiedAt newDoc = now rt
       ∧ doc_name newDoc = newFilename
       ∧ doc_path newDoc = newPath
       ∧ doc_id newDoc = toBase64 rt newPath)
  ∧ (forall k, k ≠ oldPath -> k ≠ newPath ->
       documentsCache (service h1) !! k = documentsCache (service h) !! k)
  ∧ (oldPath ∉ existing h1)
  ∧ newPath ∈ existing h1
  ∧ fired (calls h1) = S (fired (calls h)).
Proof.
  intros newPath h1 Hold Hnew Hdoc. subst h1.
  rewrite (renameDocument_tracked _ _ _ _ Hold Hnew Hdoc). fold newPath. simpl.
  assert (newPath ≠ oldPath) as Hne by (intros Heq; by rewrite Heq in Hnew).
  split_and!.
  - rewrite lookup_insert_ne by done. apply lookup_delete_eq.
  - eexists. split; [apply lookup_insert_eq|]. by simpl.
  - intros k Hk Hk'. rewrite lookup_insert_ne by done. by apply lookup_delete_ne.
  - rewrite elem_of_union, elem_of_difference, !elem_of_singleton.
    intros [Heq|[_ Hcontra]]; [by symmetry in Heq | done].
  - rewrite elem_of_union, elem_of_singleton. by left.
  - rewrite fired_app. unfold fired at 2. simpl. lia.
Qed.

(** X11: After such a renaming the watcher has nothing to do: the
    delete event for the old path and the create event for the new path
    change nothing, so that the tags of the moved record survive them. *)
Theorem renameDocument_then_watcher oldPath newFilename h oldDoc :
  let newPath := join pf (dirname pf oldPath) newFilename in
  let h1 := (renameDocument rt pf oldPath newFilename h).2 in
  oldPath ∈ existing h ->
  newPath ∉ existing h ->
  documentsCache (service h) !! oldPath = Some oldDoc ->
  onDidDelete rt oldPath h1 = (Ok tt, h1)
  ∧ onDidCreate rt newPath h1 = (Ok tt, h1)
  ∧ onDidCreate rt newPath (onDidDelete rt oldPath h1).2 = (Ok tt, h1)
  ∧ tags <$> documentsCache (service h1) !! newPath = Some (tags oldDoc).
Proof.
  intros newPath h1 Hold Hnew Hdoc.
  assert (newPath ≠ oldPath) as Hne by (intros Heq; by rewrite Heq in Hnew).
  assert (documentsCache (service h1) !! oldPath = None) as Hgone.
  { subst h1. rewrite (renameDocument_tracked _ _ _ _ Hold Hnew Hdoc). fold newPath. simpl.
    rewrite lookup_insert_ne by done. apply lookup_delete_eq. }
  assert (documentsCache (service h1) !! newPath
          = Some (renamedDocument rt oldDoc newFilename newPath)) as Hthere.
  { subst h1. rewrite (renameDocument_tracked _ _ _ _ Hold Hnew Hdoc). fold newPath. simpl.
    apply lookup_insert_eq. }
  assert (onDidDelete rt oldPath h1 = (Ok tt, h1)) as Hdelete
    by by apply onDidDelete_untracked.
  assert (onDidCreate rt newPath h1 = (Ok tt, h1)) as Hcreate
    by by eapply onDidCreate_tracked.
  split_and!; try done.
  - by rewrite Hdelete.
  - by rewrite Hthere.
Qed.

End Rename.

(** A refused and an accepted renaming on the sample installation. *)
Example renameDocument_samples :
  (renameDocument Sample.offline Demo.platform Sample.invoicePath "Contract.pdf" Demo.host).1
  = Throw INVALID_DOCUMENT
  ∧ (renameDocument Sample.offline Demo.platform "/docs/missing.pdf" "x.pdf" Demo.host).1
    = Throw FILE_NOT_FOUND
  ∧ (renameDocument Sample.offline Demo.platform Sample.invoicePath "Rechnung.pdf"
       Demo.host).1
    = Ok "Rechnung.pdf".
Proof. repeat split; vm_compute; reflexivity. Qed.

Lemma renameDocument_moves_record_witness :
  Sample.invoicePath ∈ existing Demo.host
  ∧ ("/docs/Rechnung.pdf" ∉ existing Demo.host)
  ∧ documentsCache (service Demo.host) !! Sample.invoicePath = Some Sample.invoice
  ∧ documentsCache
      (service (renameDocument Sample.offline Demo.platform Sample.invoicePath "Rechnung.pdf"
                  Demo.host).2)
    !! Sample.invoicePath = None.
Proof.
  assert (Hold : Sample.invoicePath ∈ existing Demo.host)
    by (apply (bool_decide_unpack _); vm_compute; exact I).
  assert (Hnew : join Demo.platform (dirname Demo.platform Sample.invoicePath) "Rechnung.pdf"
                 ∉ existing Demo.host)
    by (apply (bool_decide_unpack _); vm_compute; exact I).
  assert (Hdoc : documentsCache (service Demo.host) !! Sample.invoicePath
                 = Some Sample.invoice) by (vm_compute; reflexivity).
  split; [exact Hold|]. split; [exact Hnew|]. split; [exact Hdoc|].
  exact (proj1 (renameDocument_moves_record Sample.offline Demo.platform Sample.invoicePath
                  "Rechnung.pdf" Demo.host Sample.invoice Hold Hnew Hdoc)).
Defined.

Lemma renameDocument_then_watcher_witness :
  Sample.invoicePath ∈ existing Demo.host
  ∧ ("/docs/Rechnung.pdf" ∉ existing Demo.host)
  ∧ documentsCache (service Demo.host) !! Sample.invoicePath = Some Sample.invoice
  ∧ tags <$>
      documentsCache
        (service (renameDocument Sample.offline Demo.platform Sample.invoicePath
                    "Rechnung.pdf" Demo.host).2)
      !! "/docs/Rechnung.pdf"
    = Some ["invoice"].
Proof.
  assert (Hold : Sample.invoicePath ∈ existing Demo.host)
    by (apply (bool_decide_unpack _); vm_compute; exact I).
  assert (Hnew : join Demo.platform (dirname Demo.platform Sample.invoicePath) "Rechnung.pdf"
                 ∉ existing Demo.host)
    by (apply (bool_decide_unpack _); vm_compute; exact I).
  assert (Hdoc : documentsCache (service Demo.host) !! Sample.invoicePath
                 = Some Sample.invoice) by (vm_compute; reflexivity).
  split; [exact Hold|]. split; [exact Hnew|]. split; [exact Hdoc|].
  exact (proj2 (proj2 (proj2
           (renameDocument_then_watcher Sample.offline Demo.platform Sample.invoicePath
              "Rechnung.pdf" Demo.host Sample.invoice Hold Hnew Hdoc)))).
Defined.

(* ===================================================================== *)
(** ** OCR and re-indexing                                                *)
(* ===================================================================== *)

Section Ocr.

Context (rt : Runtime) (pf : Platform).

Lemma runOcrFallback_code fsPath code :
  runOcrFallback rt pf fsPath = Throw code -> code = INVALID_DOCUMENT.
Proof.
  unfold runOcrFallback. case_bool_decide; [done|].
  destruct (if String.eqb _ _ then _ else _); [done|].
  case_bool_decide; [done|]. congruence.
Qed.

Lemma runOcr_missing fsPath h :
  fsPath ∉ existing h -> runOcr rt pf fsPath h = (Throw FILE_NOT_FOUND, h).
Proof.
  intros Hno. unfold runOcr. unfold_host. by rewrite bool_decide_false.
Qed.

Lemma runOcr_fallback fsPath h :
  fsPath ∈ existing h ->
  postOcr pf fsPath = None ->
  runOcr rt pf fsPath h = (runOcrFallback rt pf fsPath, record (CallPostOcr fsPath) h).
Proof.
  intros Hyes Hnone. unfold runOcr. unfold_host.
  rewrite bool_decide_true by done. simpl. rewrite Hnone.
  unfold setService. by destruct h.
Qed.

Lemma indexDocument_eq doc h :
  indexDocument doc h =
    (Ok tt, {| service := service h; existing := existing h;
               calls := calls h ++ indexCalls doc |}).
Proof.
  unfold indexDocument, indexCalls. destruct (ocrText doc) as [text|].
  - destruct (negb (Js.truthy text) || _); unfold_host; simpl.
    + rewrite app_nil_r. by destruct h.
    + done.
  - unfold_host. rewrite app_nil_r. by destruct h.
Qed.

Lemma runOcr_answered fsPath h answer :
  fsPath ∈ existing h ->
  postOcr pf fsPath = Some answer ->
  runOcr rt pf fsPath h =
    (Ok (Js.orElse answer ""),
     match documentsCache (service h) !! fsPath with
     | Some doc =>
         {| service :=
              (saveDocumentsCache rt
                 (setCache (<[fsPath := withOcrText doc (Js.orElse answer "")]>
                              (documentsCache (service h)))
                           (service h))).2;
            existing := existing h;
            calls := calls h ++ CallPostOcr fsPath
                       :: indexCalls (withOcrText doc (Js.orElse answer "")) |}
     | None => record (CallPostOcr fsPath) h
     end).
Proof.
  intros Hyes Hanswer. unfold runOcr. unfold_host.
  rewrite bool_decide_true by done. simpl. rewrite Hanswer.
  destruct (documentsCache (service h) !! fsPath) as [doc|]; simpl.
  - rewrite indexDocument_eq. simpl. by rewrite <- app_assoc.
  - done.
Qed.


Lemma blank_text text :
  negb (Js.truthy text) || (String.length (Js.trim text) =? 0)%nat
  = Js.allWhiteSpace text.
Proof.
  destruct (Js.allWhiteSpace text) eqn:Hblank.
  - rewrite (trim_blank _ Hblank). simpl. apply orb_true_r.
  - apply orb_false_iff. split.
    + destruct text; [done|]. done.
    + apply Nat.eqb_neq. intros Hlen.
      assert (Js.trim text = "") as Hempty by (by destruct (Js.trim text)).
      apply trim_empty in Hempty. congruence.
Qed.

(** X13: When the OCR service answers for a tracked file, [runOcr]
    returns the text, stores it in the record of that file and leaves the
    rest of the record (tags among it) and the other records as they
    are; the text is sent to the index exactly when it is not blank; and
    the methods that read a document's text find it there, when it is not
    empty, without asking the fallback. *)
Theorem runOcr_stores_text fsPath h answer doc :
  let text := Js.orElse answer "" in
  let outcome := runOcr rt pf fsPath h in
  let cache1 := documentsCache (service outcome.2) in
  fsPath ∈ existing h ->
  postOcr pf fsPath = Some answer ->
  documentsCache (service h) !! fsPath = Some doc ->
  outcome.1 = Ok text
  ∧ cache1 !! fsPath = Some (withOcrText doc text)
  ∧ tags <$> cache1 !! fsPath = Some (tags doc)
  ∧ (forall k, k ≠ fsPath -> cache1 !! k = documentsCache (service h) !! k)
  ∧ calls outcome.2
    = (calls h ++ CallPostOcr fsPath
         :: (if Js.allWhiteSpace text then [] else [CallPostIndex (doc_id doc) text]))%list
  ∧ (text ≠ "" -> textOf rt pf (withOcrText doc text) = Ok text).
Proof.
  intros text outcome cache1 Hyes Hpost Hdoc. subst outcome cache1.
  rewrite (runOcr_answered _ _ _ Hyes Hpost), Hdoc. fold text. simpl.
  split_and!.
  - done.
  - apply lookup_insert_eq.
  - by rewrite lookup_insert_eq.
  - intros k Hk. by rewrite lookup_insert_ne.
  - unfold indexCalls. simpl. by rewrite blank_text.
  - intros Hne. unfold textOf. simpl.
    destruct text; [done|]. done.
Qed.

(** *** Re-indexing *)

Lemma progressLog_app cs cs' : progressLog (cs ++ cs') = (progressLog cs ++ progressLog cs')%list.
Proof. unfold progressLog. apply omap_app. Qed.

Lemma progressLog_indexCalls doc : progressLog (indexCalls doc) = [].
Proof.
  unfold indexCalls. destruct (ocrText doc); [|done].
  by destruct (negb _ || _).
Qed.

Lemma fired_indexCalls doc : fired (indexCalls doc) = 0%nat.
Proof.
  unfold indexCalls. destruct (ocrText doc); [|done].
  by destruct (negb _ || _).
Qed.

Lemma progressLog_cons c cs :
  progressLog (c :: cs)
  = (match c with CallProgress current total _ => [(current, total)] | _ => [] end
     ++ progressLog cs)%list.
Proof. by destruct c. Qed.

Lemma fired_cons c cs :
  fired (c :: cs) = ((match c with CallFire => 1 | _ => 0 end) + fired cs)%nat.
Proof. by destruct c. Qed.

(** [runOcr] reports no progress and sends no change notification. *)
Lemma runOcr_quiet fsPath h :
  progressLog (calls (runOcr rt pf fsPath h).2) = progressLog (calls h)
  ∧ fired (calls (runOcr rt pf fsPath h).2) = fired (calls h).
Proof.
  destruct (decide (fsPath ∈ existing h)) as [Hyes|Hno].
  - destruct (postOcr pf fsPath) as [answer|] eqn:Hpost.
    + rewrite (runOcr_answered _ _ _ Hyes Hpost).
      destruct (documentsCache (service h) !! fsPath); simpl.
      * rewrite progressLog_app, fired_app, progressLog_cons, fired_cons.
        rewrite progressLog_indexCalls, fired_indexCalls.
        simpl. rewrite app_nil_r. split; [done|lia].
      * rewrite progressLog_app, fired_app, progressLog_cons, fired_cons.
        simpl. rewrite app_nil_r. split; [done|]. unfold fired. simpl. lia.
    + rewrite (runOcr_fallback _ _ Hyes Hpost). simpl.
      rewrite progressLog_app, fired_app, progressLog_cons, fired_cons.
      simpl. rewrite app_nil_r. split; [done|]. unfold fired. simpl. lia.
  - by rewrite (runOcr_missing _ _ Hno).
Qed.

Lemma reindexOne_spec progress total i success failed item h :
  exists success' failed' h',
    reindexOne rt pf progress total i (success, failed) item h = (Ok (success', failed'), h')
    ∧ (success' + failed' = S (success + failed))%nat
    ∧ progressLog (calls h')
      = (progressLog (calls h) ++ (if progress then [(S i, total)] else []))%list
    ∧ fired (calls h') = fired (calls h).
Proof.
  destruct item as [file scanned]. unfold reindexOne.
  unfold bindH at 1, getHost at 1.
  set (doc := default scanned (documentsCache (service h) !! file)).
  set (report := if progress
                 then call (CallProgress (i + 1) total
                              ("Verarbeite " +:+ doc_name doc +:+ "..."))
                 else retH tt).
  assert (exists h1, report h = (Ok tt, h1)
                     ∧ service h1 = service h
                     ∧ progressLog (calls h1)
                       = (progressLog (calls h)
                            ++ (if progress then [(S i, total)] else []))%list
                     ∧ fired (calls h1) = fired (calls h))
    as (h1 & Hreport & Hservice & Hlog & Hfired).
  { subst report. destruct progress.
    - eexists. split; [reflexivity|]. simpl.
      rewrite progressLog_app, fired_app. simpl.
      replace (i + 1)%nat with (S i) by lia.
      split_and!; [done|done|]. unfold fired at 2. simpl. lia.
    - exists h. rewrite app_nil_r. done. }
  unfold bindH at 1. rewrite Hreport.
  destruct (match ocrText doc with
            | Some text => negb (Js.truthy text) || (String.length text <? 10)%nat
            | None => true
            end).
  - unfold tryCatchH, bindH, retH.
    destruct (runOcr_quiet (doc_path doc) h1) as [Hlog' Hfired'].
    destruct (runOcr rt pf (doc_path doc) h1) as [[text|code] h2]; simpl in *.
    + exists (S success), failed, h2. split_and!; [done|lia|congruence|congruence].
    + exists success, (S failed), h2. split_and!; [done|lia|congruence|congruence].
  - unfold bindH, retH. rewrite indexDocument_eq.
    exists (S success), failed. eexists. split; [reflexivity|]. simpl.
    rewrite progressLog_app, fired_app, progressLog_indexCalls, fired_indexCalls.
    rewrite app_nil_r. split_and!; [lia|done|lia].
Qed.

Lemma reindexLoop_spec progress total items i success failed h :
  exists success' failed' h',
    reindexLoop rt pf progress total i items (success, failed) h
    = (Ok (success', failed'), h')
    ∧ (success' + failed' = success + failed + length items)%nat
    ∧ progressLog (calls h')
      = (progressLog (calls h)
           ++ (if progress then map (fun j => (S j, total)) (seq i (length items)) else []))%list
    ∧ fired (calls h') = fired (calls h).
Proof.
  revert i success failed h.
  induction items as [|item items IH]; intros i success failed h; simpl.
  - exists success, failed, h. unfold retH. split_and!; [done|lia| |done].
    destruct progress; by rewrite app_nil_r.
  - destruct (reindexOne_spec progress total i success failed item h)
      as (s1 & f1 & h1 & Hone & Hsum & Hlog & Hfired).
    destruct (IH (S i) s1 f1 h1) as (s2 & f2 & h2 & Hloop & Hsum' & Hlog' & Hfired').
    exists s2, f2, h2. unfold bindH. rewrite Hone. split_and!.
    + done.
    + lia.
    + rewrite Hlog', Hlog. rewrite <- app_assoc. by destruct progress.
    + congruence.
Qed.


End Ocr.

(* ===================================================================== *)
(** ** Export                                                             *)
(* ===================================================================== *)

Section ExportFacts.

Context (rt : Runtime) (pf : Platform).

Lemma exportLoop_spec targetPath docs count h :
  exists exported h',
    exportLoop rt pf targetPath docs count h = (Ok (count + exported)%nat, h')
    ∧ service h' = service h
    ∧ calls h' = (calls h ++ map (exportCall rt pf targetPath) docs)%list
    ∧ (exported <= length docs)%nat
    ∧ (Forall (fun doc => copyFileSucceeds pf (doc_path doc)
                            (join pf targetPath (basename rt (doc_path doc))) = true) docs ->
       exported = length docs).
Proof.
  revert count h. induction docs as [|doc docs IH]; intros count h; simpl.
  - exists 0%nat, h. unfold retH. rewrite Nat.add_0_r, app_nil_r. done.
  - unfold bindH at 1, copyFileSync. unfold_host.
    destruct (copyFileSucceeds pf _ _) eqn:Hcopy; simpl.
    + edestruct (IH (S count)) as (exported & h' & -> & Hservice & Hcalls & Hle & Hall).
      exists (S exported), h'. simpl in *.
      split_and!.
      * f_equal. f_equal. lia.
      * done.
      * rewrite Hcalls. by rewrite <- app_assoc.
      * lia.
      * intros Hok. apply Forall_cons in Hok as [_ Hok]. by rewrite Hall.
    + edestruct (IH count) as (exported & h' & -> & Hservice & Hcalls & Hle & Hall).
      exists exported, h'. simpl in *.
      split_and!.
      * done.
      * done.
      * rewrite Hcalls. by rewrite <- app_assoc.
      * lia.
      * intros Hok. apply Forall_cons in Hok as [Hok _]. congruence.
Qed.

Lemma elem_of_applyFilter criteria docs doc :
  doc ∈ applyFilter criteria docs
  <-> doc ∈ docs
      ∧ (forall tag, criteria ≫= filterTag = Some tag -> tag ≠ "" -> tag ∈ tags doc)
      ∧ (forall after, criteria ≫= filterAfter = Some after -> (after < createdAt doc)%Z).
Proof.
  unfold applyFilter.
  assert (forall tag, Js.truthy tag = true <-> tag ≠ "") as Htruthy.
  { intros [|c s]; simpl; split; done. }
  destruct (criteria ≫= filterTag) as [tag|], (criteria ≫= filterAfter) as [after|].
  - destruct (Js.truthy tag) eqn:Htag.
    + rewrite !list_elem_of_filter. split.
      * intros (Hafter & Htagged & Hdoc). split_and!; [done| |].
        -- by intros ? [= <-] _.
        -- by intros ? [= <-].
      * intros (Hdoc & Htagged & Hafter). split_and!; [by apply Hafter| |done].
        apply Htagged; [done|]. by apply Htruthy.
    + rewrite list_elem_of_filter. split.
      * intros (Hafter & Hdoc). split_and!; [done| |].
        -- intros ? [= <-] Hne. apply Htruthy in Hne. congruence.
        -- by intros ? [= <-].
      * intros (Hdoc & _ & Hafter). split; [by apply Hafter|done].
  - destruct (Js.truthy tag) eqn:Htag.
    + rewrite list_elem_of_filter. split.
      * intros (Htagged & Hdoc). split_and!; [done| |done].
        by intros ? [= <-] _.
      * intros (Hdoc & Htagged & _). split; [|done].
        apply Htagged; [done|]. by apply Htruthy.
    + split.
      * intros Hdoc. split_and!; [done| |done].
        intros ? [= <-] Hne. apply Htruthy in Hne. congruence.
      * by intros (Hdoc & _).
  - rewrite list_elem_of_filter. split.
    + intros (Hafter & Hdoc). split_and!; [done|done|].
      by intros ? [= <-].
    + intros (Hdoc & _ & Hafter). split; [by apply Hafter|done].
  - split; [|by intros (Hdoc & _)]. intros Hdoc. done.
Qed.

Lemma applyFilter_length criteria docs : (length (applyFilter criteria docs) <= length docs)%nat.
Proof.
  unfold applyFilter.
  destruct (criteria ≫= filterTag) as [tag|], (criteria ≫= filterAfter) as [after|];
    try destruct (Js.truthy tag);
    repeat (etrans; [apply length_filter|]); done.
Qed.


End ExportFacts.

(* ===================================================================== *)
(** ** Audio files                                                        *)
(* ===================================================================== *)

Section Audio.

Context (rt : Runtime) (pf : Platform).

Lemma unlinkAll_spec paths h :
  exists k h',
    unlinkAll pf paths h = (Ok tt, h')
    ∧ service h' = service h
    ∧ calls h' = (calls h ++ map CallUnlink (take k paths))%list
    ∧ (Forall (fun p => unlinkSucceeds pf p = true) paths -> k = length paths).
Proof.
  revert h. induction paths as [|p paths IH]; intros h; simpl.
  - exists 0%nat, h. unfold retH. rewrite app_nil_r. done.
  - unfold_host. destruct (unlinkSucceeds pf p) eqn:Hp; simpl.
    + edestruct IH as (k & h' & -> & Hservice & Hcalls & Hall).
      exists (S k), h'. simpl in *. split_and!; [done|done| |].
      * rewrite Hcalls. by rewrite <- app_assoc.
      * intros Hok. apply Forall_cons in Hok as [_ Hok]. by rewrite Hall.
    + exists 1%nat. eexists. split; [reflexivity|]. simpl.
      split_and!; [done|by rewrite ?take_0|].
      intros Hok. apply Forall_cons in Hok as [Hok _]. congruence.
Qed.

(** X16: [cleanupOldAudioFiles] always returns and touches the audio
    files only: whatever it removes lies in the directory, has a name
    that starts with "tts_" and ends with ".mp3", and is not among the
    five most recently modified of these files.  With at most five audio
    files it removes nothing; when no removal fails it removes all but
    five. *)
Theorem cleanupOldAudioFiles_keeps_five directory h :
  exists removed h',
    cleanupOldAudioFiles rt pf directory h = (Ok tt, h')
    ∧ service h' = service h
    ∧ calls h' = (calls h ++ map CallUnlink removed)%list
    ∧ (readdirSync pf directory = None -> removed = [])
    ∧ forall names,
        readdirSync pf directory = Some names ->
        let audio :=
          map (fun f => (join pf directory f, mtime (statSync rt (join pf directory f))))
              (List.filter isAudioFile names) in
        exists kept others k,
          (kept ++ others)%list ≡ₚ audio
          ∧ length kept = Nat.min 5 (length audio)
          ∧ removed = take k (map fst others)
          ∧ (forall x y, x ∈ kept -> y ∈ others -> (y.2 <= x.2)%Z)
          ∧ (Forall (fun p => unlinkSucceeds pf p = true) (map fst others) ->
             removed = map fst others).
Proof.
  unfold cleanupOldAudioFiles.
  destruct (readdirSync pf directory) as [names|].
  - destruct (unlinkAll_spec (map fst (drop 5 (audioFiles rt pf names directory))) h)
      as (k & h' & Hrun & Hservice & Hcalls & Hall).
    exists (take k (map fst (drop 5 (audioFiles rt pf names directory)))), h'.
    split_and!; try done.
    intros names' [= <-].
    assert (StronglySorted (fun a b : string * Z => (a.2 <? b.2)%Z = false)
              (audioFiles rt pf names directory)) as Hsorted.
    { apply sort_sorted; intros; lia. }
    exists (take 5 (audioFiles rt pf names directory)),
           (drop 5 (audioFiles rt pf names directory)), k.
    split_and!.
    + rewrite take_drop. apply sort_perm.
    + rewrite length_take. unfold audioFiles. rewrite sort_length. lia.
    + done.
    + intros x y Hx Hy.
      rewrite <- (take_drop 5 (audioFiles rt pf names directory)) in Hsorted.
      pose proof (StronglySorted_app_inv _ _ _ Hsorted x y Hx Hy) as Hxy.
      simpl in Hxy. lia.
    + intros Hok. rewrite (Hall Hok). apply firstn_all.
  - exists [], h. unfold retH. rewrite app_nil_r.
    split_and!; try done.
Qed.

End Audio.

Example cleanupOldAudioFiles_sample :
  calls (cleanupOldAudioFiles Sample.offline Demo.platform "/audio" Demo.host).2 = [].
Proof. vm_compute. reflexivity. Qed.

Lemma runOcr_stores_text_witness :
  Sample.contractPath ∈ existing Demo.host
  ∧ postOcr Demo.scanning Sample.contractPath = Some (Some "Rechnung Nr. 17 der Telekom")
  ∧ documentsCache (service Demo.host) !! Sample.contractPath = Some Sample.contract
  ∧ (runOcr Sample.offline Demo.scanning Sample.contractPath Demo.host).1
    = Ok "Rechnung Nr. 17 der Telekom".
Proof.
  assert (Hyes : Sample.contractPath ∈ existing Demo.host)
    by (apply (bool_decide_unpack _); vm_compute; exact I).
  assert (Hdoc : documentsCache (service Demo.host) !! Sample.contractPath
                 = Some Sample.contract) by (vm_compute; reflexivity).
  split; [exact Hyes|]. split; [reflexivity|]. split; [exact Hdoc|].
  exact (proj1 (runOcr_stores_text Sample.offline Demo.scanning Sample.contractPath Demo.host
                  (Some "Rechnung Nr. 17 der Telekom") Sample.contract Hyes eq_refl Hdoc)).
Defined.

(* ===================================================================== *)
(** ** The methods that ask the language model                            *)
(* ===================================================================== *)

Section LanguageFacts.

Context (rt : Runtime) (pf : Platform).

Lemma textOf_code doc code : textOf rt pf doc = Throw code -> code = INVALID_DOCUMENT.
Proof.
  unfold textOf. destruct (ocrText doc) as [text|].
  - destruct (Js.truthy text); [done|]. apply runOcrFallback_code.
  - apply runOcrFallback_code.
Qed.


(** *** Automatic tags *)

Lemma keepTagChars_chars s :
  Forall (fun c => JsText.isTagChar c = true) (list_ascii_of_string (JsText.keepTagChars s)).
Proof.
  induction s as [|c s IH]; simpl; [constructor|].
  destruct (JsText.isTagChar c) eqn:Hc; simpl; [by constructor|done].
Qed.

Lemma suggestedTags_chars response :
  Forall (fun tag => Forall (fun c => JsText.isTagChar c = true) (list_ascii_of_string tag))
         (suggestedTags response).
Proof.
  unfold suggestedTags. apply Forall_forall. intros tag Htag.
  apply list_elem_of_fmap in Htag as (piece & -> & _).
  apply keepTagChars_chars.
Qed.

Lemma truthy_nonempty s : Js.truthy s = true <-> s ≠ "".
Proof. destruct s; simpl; split; done. Qed.

(** The loop over [newTags] appends: what it adds is not empty, new to
    the list and added once. *)
Lemma fold_pushTag newTags ts :
  exists added,
    fold_left pushTag newTags ts = (ts ++ added)%list
    ∧ NoDup added
    ∧ (forall t, t ∈ added -> t ∈ newTags ∧ t ≠ "" ∧ t ∉ ts)
    ∧ (forall t, t ∈ newTags -> t ≠ "" -> t ∈ (ts ++ added)%list).
Proof.
  revert ts. induction newTags as [|tag newTags IH]; intros ts; simpl.
  - exists []. rewrite app_nil_r. split_and!.
    + done.
    + constructor.
    + intros t Ht. by apply elem_of_nil in Ht.
    + intros t Ht. by apply elem_of_nil in Ht.
  - unfold pushTag at 2.
    destruct (Js.truthy tag && negb (bool_decide (tag ∈ ts))) eqn:Hpush.
    + apply andb_true_iff in Hpush as [Htruthy Hfresh].
      apply truthy_nonempty in Htruthy.
      apply negb_true_iff, bool_decide_eq_false in Hfresh.
      destruct (IH (ts ++ [tag])%list) as (added & Heq & Hnd & Hadded & Hall).
      exists (tag :: added). split_and!.
      * rewrite Heq. by rewrite <- app_assoc.
      * constructor; [|done]. intros Hin.
        apply Hadded in Hin as (_ & _ & Hnot). apply Hnot.
        apply elem_of_app. right. apply list_elem_of_here.
      * intros t Ht. apply elem_of_cons in Ht as [->|Ht].
        -- split_and!; [apply list_elem_of_here|done|done].
        -- apply Hadded in Ht as (Hin & Hne & Hnot). split_and!.
           ++ by apply list_elem_of_further.
           ++ done.
           ++ intros Hts. apply Hnot. apply elem_of_app. by left.
      * intros t Ht Hne. apply elem_of_cons in Ht as [->|Ht].
        -- apply elem_of_app. right. apply list_elem_of_here.
        -- specialize (Hall t Ht Hne). rewrite <- app_assoc in Hall. done.
    + destruct (IH ts) as (added & Heq & Hnd & Hadded & Hall).
      exists added. split_and!; try done.
      * intros t Ht. apply Hadded in Ht as (Hin & Hne & Hnot).
        split_and!; [by apply list_elem_of_further|done|done].
      * intros t Ht Hne. apply elem_of_cons in Ht as [->|Ht]; [|by apply Hall].
        apply andb_false_iff in Hpush as [Hfalsy|Hpresent].
        -- apply truthy_nonempty in Hne. congruence.
        -- apply negb_false_iff, bool_decide_eq_true in Hpresent.
           apply elem_of_app. by left.
Qed.

Lemma getDocuments_keeps w k doc :
  documentsCache w !! k = Some doc ->
  documentsCache (getDocuments rt w).2 !! k = Some doc.
Proof.
  intros Hk. rewrite documentsCache_getDocuments.
  pose proof (collectDocuments_lookup rt (readDocumentsDir rt) (documentsCache w)) as Hlookup.
  destruct (collectDocuments rt (readDocumentsDir rt) (documentsCache w)) as [docs cache'].
  simpl. by apply Hlookup.
Qed.

(** [autoTagDocument], step by step. *)
Lemma autoTagDocument_eq docId w :
  autoTagDocument rt pf docId w =
    match documentsCache w !! getPathFromId rt docId with
    | Some doc =>
        match textOf rt pf doc with
        | Ok text =>
            let w1 := (getDocuments rt w).2 in
            let listed :=
              JsArray.sort JsText.after
                (collectTags
                   (collectDocuments rt (readDocumentsDir rt) (documentsCache w)).1) in
            let prompt := autoTagPrompt doc text listed in
            match chat rt prompt "" with
            | Ok response =>
                (Ok (suggestedTags response),
                 (saveDocumentsCache rt
                    (setCache
                       (<[getPathFromId rt docId :=
                            withTags doc (fold_left pushTag (suggestedTags response)
                                                    (tags doc))]>
                          (documentsCache w1))
                       (emit (EvChat prompt "") w1))).2)
            | Throw code => (Throw code, emit (EvChat prompt "") w1)
            end
        | Throw code => (Throw code, w)
        end
    | None => (Throw FILE_NOT_FOUND, w)
    end.
Proof.
  unfold autoTagDocument. unfold bind at 1, getWorld at 1.
  destruct (documentsCache w !! getPathFromId rt docId) as [doc|]; [|done].
  unfold bind at 1, liftResult.
  destruct (textOf rt pf doc) as [text|code]; [|done].
  unfold bind at 1. rewrite (getTags_eq rt). simpl.
  unfold bind at 1, callChat, bind at 1, tell, modifyWorld.
  destruct (chat rt _ _) as [response|code]; [|done].
  unfold_host. done.
Qed.

(** The store after [autoTagDocument] has returned. *)
Lemma autoTagDocument_cache docId w doc newTags w' :
  documentsCache w !! getPathFromId rt docId = Some doc ->
  autoTagDocument rt pf docId w = (Ok newTags, w') ->
  documentsCache w'
  = <[getPathFromId rt docId := withTags doc (fold_left pushTag newTags (tags doc))]>
      (documentsCache (getDocuments rt w).2)
  ∧ exists response, newTags = suggestedTags response.
Proof.
  intros Hdoc. rewrite autoTagDocument_eq, Hdoc.
  destruct (textOf rt pf doc) as [text|code]; [|done].
  simpl. destruct (chat rt _ _) as [response|code]; [|done].
  intros [= <- <-]. split; [done|]. by exists response.
Qed.

(** X18: When [autoTagDocument] returns, the record keeps the tags it
    had, in their order, followed by the tags it gained.  A gained tag is
    one of the returned suggestions, is not empty, consists of the
    characters a-z, 0-9, ä, ö, ü, ß, - and _ only, was not carried
    before and is gained once, so that a duplicate-free tag list stays
    duplicate-free; every non-empty suggestion is carried afterwards.
    The other records that the store tracked are as they were. *)
Theorem autoTagDocument_tags docId w doc newTags w' :
  let key := getPathFromId rt docId in
  documentsCache w !! key = Some doc ->
  autoTagDocument rt pf docId w = (Ok newTags, w') ->
  exists added,
    tags <$> documentsCache w' !! key = Some (tags doc ++ added)%list
    ∧ Forall wellFormedTag added
    ∧ NoDup added
    ∧ (forall tag, tag ∈ added -> tag ∈ newTags ∧ tag ∉ tags doc)
    ∧ (forall tag, tag ∈ newTags -> tag ≠ "" -> tag ∈ (tags doc ++ added)%list)
    ∧ (NoDup (tags doc) -> NoDup (tags doc ++ added)%list)
    ∧ (forall k other, k ≠ key -> documentsCache w !! k = Some other ->
         documentsCache w' !! k = Some other).
Proof.
  intros key Hdoc Hrun. subst key.
  destruct (autoTagDocument_cache _ _ _ _ _ Hdoc Hrun) as (Hcache & response & ->).
  destruct (fold_pushTag (suggestedTags response) (tags doc))
    as (added & Heq & Hnd & Hadded & Hall).
  exists added. rewrite Hcache, Heq. split_and!.
  - by rewrite lookup_insert_eq.
  - apply Forall_forall. intros tag Htag.
    apply Hadded in Htag as (Hin & Hne & _). split; [done|].
    pose proof (suggestedTags_chars response) as Hchars.
    rewrite Forall_forall in Hchars. by apply Hchars.
  - done.
  - intros tag Htag. apply Hadded in Htag as (Hin & _ & Hnot). done.
  - done.
  - intros Hunique. apply NoDup_app. split_and!; [done| |done].
    intros tag Hin Hin'. apply Hadded in Hin' as (_ & _ & Hnot). done.
  - intros k other Hk Hother. rewrite lookup_insert_ne by done.
    by apply getDocuments_keeps.
Qed.

(** X19: [autoTagDocument] refuses an identifier that is not tracked
    with [FILE_NOT_FOUND] and a tracked document without text whose type
    the fallback does not know with [INVALID_DOCUMENT]; in both cases
    nothing has happened: no scan, no request, no write. *)
Theorem autoTagDocument_refusal docId w :
  let key := getPathFromId rt docId in
  (documentsCache w !! key = None ->
   autoTagDocument rt pf docId w = (Throw FILE_NOT_FOUND, w))
  ∧ (forall doc code,
       documentsCache w !! key = Some doc ->
       textOf rt pf doc = Throw code ->
       autoTagDocument rt pf docId w = (Throw INVALID_DOCUMENT, w))
  ∧ (forall code, (autoTagDocument rt pf docId w).1 = Throw code ->
       tags <$> documentsCache (autoTagDocument rt pf docId w).2 !! key
       = tags <$> documentsCache w !! key).
Proof.
  intros key. subst key. split_and!.
  - intros Hnone. unfold autoTagDocument. unfold_host. by rewrite Hnone.
  - intros doc code Hdoc Htext. unfold autoTagDocument. unfold_host.
    rewrite Hdoc, Htext. by rewrite (textOf_code _ _ Htext).
  - intros code. rewrite autoTagDocument_eq.
    destruct (documentsCache w !! getPathFromId rt docId) as [doc|] eqn:Hdoc;
      [|simpl; intros _; by rewrite Hdoc].
    destruct (textOf rt pf doc) as [text|code']; [|simpl; intros _; by rewrite Hdoc].
    simpl. destruct (chat rt _ _) as [response|code'']; [done|].
    simpl. intros _. by rewrite (getDocuments_keeps _ _ _ Hdoc).
Qed.

End LanguageFacts.

(** The suggestions of the sample model, cleaned, and the tags of the
    invoice afterwards. *)
Example autoTagDocument_sample :
  (autoTagDocument Demo.tagging Demo.platform (Sample.encode64 Sample.invoicePath)
     Sample.world).1
  = Ok ["rechnung"; "telekom"; ""; "invoice"; "2024"]
  ∧ tags <$>
      documentsCache
        (autoTagDocument Demo.tagging Demo.platform (Sample.encode64 Sample.invoicePath)
           Sample.world).2
      !! Sample.invoicePath
    = Some ["invoice"; "rechnung"; "telekom"; "2024"].
Proof. split; vm_compute; reflexivity. Qed.

Lemma autoTagDocument_tags_witness :
  documentsCache Sample.world
    !! getPathFromId Demo.tagging (Sample.encode64 Sample.invoicePath)
  = Some Sample.invoice
  ∧ (autoTagDocument Demo.tagging Demo.platform (Sample.encode64 Sample.invoicePath)
       Sample.world).1
    = Ok ["rechnung"; "telekom"; ""; "invoice"; "2024"]
  ∧ exists added,
      tags <$>
        documentsCache
          (autoTagDocument Demo.tagging Demo.platform (Sample.encode64 Sample.invoicePath)
             Sample.world).2
        !! getPathFromId Demo.tagging (Sample.encode64 Sample.invoicePath)
      = Some (tags Sample.invoice ++ added)%list
      ∧ Forall wellFormedTag added.
Proof.
  assert (Hdoc : documentsCache Sample.world
                   !! getPathFromId Demo.tagging (Sample.encode64 Sample.invoicePath)
                 = Some Sample.invoice) by (vm_compute; reflexivity).
  assert (Hrun : (autoTagDocument Demo.tagging Demo.platform
                    (Sample.encode64 Sample.invoicePath) Sample.world).1
                 = Ok ["rechnung"; "telekom"; ""; "invoice"; "2024"])
    by (vm_compute; reflexivity).
  split; [exact Hdoc|]. split; [exact Hrun|].
  destruct (autoTagDocument_tags Demo.tagging Demo.platform
              (Sample.encode64 Sample.invoicePath) Sample.world Sample.invoice
              ["rechnung"; "telekom"; ""; "invoice"; "2024"]
              (autoTagDocument Demo.tagging Demo.platform
                 (Sample.encode64 Sample.invoicePath) Sample.world).2
              Hdoc)
    as (added & Htags & Hwell & _).
  - rewrite <- Hrun. apply surjective_pairing.
  - exists added. split; [exact Htags|exact Hwell].
Defined.

(* ===================================================================== *)
(** ** Tags: what the mutations guarantee                                 *)
(* ===================================================================== *)

Section TagGuarantees.

Context (rt : Runtime).

Lemma countTagged_zero tag (cache : gmap string DmsDocument) :
  countTagged tag cache = 0%nat <-> map_Forall (fun _ doc => tag ∉ tags doc) cache.
Proof.
  unfold countTagged. rewrite map_size_empty_iff. split.
  - intros Hempty k doc Hk Hin.
    by eapply (map_filter_empty_not_lookup _ _ k doc Hempty).
  - intros Hall. apply map_empty. intros k. apply map_lookup_filter_None.
    destruct (cache !! k) as [doc|] eqn:Hk; [right|by left].
    intros x [= <-]. simpl. by eapply Hall.
Qed.

Lemma filter_ne_id (x : string) (ts : list string) :
  x ∉ ts -> filter (fun t => t ≠ x) ts = ts.
Proof.
  induction ts as [|t ts IH]; intros Hx; [done|].
  apply not_elem_of_cons in Hx as [Hne Hx].
  rewrite filter_cons_True by done. by rewrite IH.
Qed.

(** X20: [addTagToDocument] on a tracked record: afterwards the record
    carries the tag, its other tags are as before and in their order,
    and a duplicate-free tag list stays duplicate-free; no other record
    changes.  Adding a tag that the record carries changes nothing at
    all, so that adding twice is adding once. *)
Theorem addTagToDocument_once w id tag doc :
  let key := getPathFromId rt id in
  let w1 := (addTagToDocument rt id tag w).2 in
  documentsCache w !! key = Some doc ->
  (exists doc1,
     documentsCache w1 !! key = Some doc1
     ∧ tag ∈ tags doc1
     ∧ tags doc1 = (if bool_decide (tag ∈ tags doc) then tags doc else tags doc ++ [tag])%list
     ∧ (NoDup (tags doc) -> NoDup (tags doc1)))
  ∧ (forall k, k ≠ key -> documentsCache w1 !! k = documentsCache w !! k)
  ∧ (tag ∈ tags doc -> w1 = w)
  ∧ addTagToDocument rt id tag w1 = (Ok tt, w1).
Proof.
  intros key w1 Hdoc. subst key w1.
  destruct (decide (tag ∈ tags doc)) as [Hin|Hnot].
  - rewrite (addTagToDocument_present rt _ _ _ _ Hdoc Hin). simpl.
    rewrite bool_decide_true by done.
    split_and!.
    + by exists doc.
    + done.
    + done.
    + by apply (addTagToDocument_present rt _ _ _ doc).
  - rewrite (addTagToDocument_tracked rt _ _ _ _ Hdoc Hnot).
    rewrite bool_decide_false by done.
    split_and!.
    + eexists. rewrite documentsCache_save. simpl.
      split; [apply lookup_insert_eq|]. simpl.
      split_and!; [apply elem_of_app; right; apply list_elem_of_here|done|].
      by apply NoDup_snoc_fresh.
    + intros k Hk. rewrite documentsCache_save. simpl. by rewrite lookup_insert_ne.
    + done.
    + eapply addTagToDocument_present.
      * rewrite documentsCache_save. simpl. apply lookup_insert_eq.
      * simpl. apply elem_of_app. right. apply list_elem_of_here.
Qed.

(** X21: [deleteTag] returns the number of records that carried the
    tag.  Afterwards no record carries it, every record keeps its other
    tags in their order, and the same paths are tracked; duplicate-free
    tag lists stay duplicate-free.  When no record carried the tag,
    nothing is written and nothing changes. *)
Theorem deleteTag_everywhere tag w :
  let outcome := deleteTag rt tag w in
  outcome.1 = Ok (countTagged tag (documentsCache w))
  ∧ countTagged tag (documentsCache outcome.2) = 0%nat
  ∧ (forall k,
       tags <$> documentsCache outcome.2 !! k
       = (fun doc => filter (fun t => t ≠ tag) (tags doc)) <$> documentsCache w !! k)
  ∧ (tagsUnique (documentsCache w) -> tagsUnique (documentsCache outcome.2))
  ∧ (countTagged tag (documentsCache w) = 0%nat -> outcome.2 = w).
Proof.
  intros outcome. subst outcome.
  assert (forall k,
            tags <$> documentsCache (deleteTag rt tag w).2 !! k
            = (fun doc => filter (fun t => t ≠ tag) (tags doc)) <$> documentsCache w !! k)
    as Htags.
  { intros k. rewrite documentsCache_deleteTag, lookup_fmap.
    destruct (documentsCache w !! k) as [doc|]; simpl; [|done].
    case_bool_decide as Hin; simpl; [done|]. by rewrite filter_ne_id. }
  split_and!.
  - unfold deleteTag. unfold_host.
    by destruct (0 <? countTagged tag (documentsCache w))%nat.
  - apply countTagged_zero. intros k doc Hk.
    specialize (Htags k). rewrite Hk in Htags. simpl in Htags.
    destruct (documentsCache w !! k) as [doc0|]; [|done].
    simpl in Htags. injection Htags as ->. apply filter_ne_absent.
  - done.
  - apply deleteTag_tagsUnique.
  - intros Hzero. unfold deleteTag. unfold_host. rewrite Hzero. simpl.
    apply countTagged_zero in Hzero.
    assert ((fun doc => if bool_decide (tag ∈ tags doc)
                        then withTags doc (filter (fun t => t ≠ tag) (tags doc))
                        else doc) <$> documentsCache w = documentsCache w) as ->.
    { apply map_eq. intros k. rewrite lookup_fmap.
      destruct (documentsCache w !! k) as [doc|] eqn:Hk; simpl; [|done].
      rewrite bool_decide_false; [done|]. by eapply Hzero. }
    apply setCache_same.
Qed.

(** X22: [renameTag] returns the number of records that carried the old
    tag.  When no record carries both tags, every record that carried
    the old tag carries the new one in its place, the records without
    the old tag are as they were, no record carries the old tag any
    more, and duplicate-free tag lists stay duplicate-free. *)
Theorem renameTag_replaces oldTag newTag w :
  let outcome := renameTag rt oldTag newTag w in
  oldTag ≠ newTag ->
  tagsUnique (documentsCache w) ->
  map_Forall (fun _ doc => oldTag ∈ tags doc -> newTag ∉ tags doc) (documentsCache w) ->
  outcome.1 = Ok (countTagged oldTag (documentsCache w))
  ∧ tagsUnique (documentsCache outcome.2)
  ∧ countTagged oldTag (documentsCache outcome.2) = 0%nat
  ∧ (forall k doc,
       documentsCache w !! k = Some doc ->
       exists doc1,
         documentsCache outcome.2 !! k = Some doc1
         ∧ length (tags doc1) = length (tags doc)
         ∧ (oldTag ∈ tags doc -> newTag ∈ tags doc1)
         ∧ (oldTag ∉ tags doc -> doc1 = doc)
         ∧ (forall t, t ≠ oldTag -> t ≠ newTag -> t ∈ tags doc1 <-> t ∈ tags doc)).
Proof.
  intros outcome Hne Hunique Hsafe. subst outcome.
  assert (forall ts, NoDup ts -> newTag ∉ ts \/ oldTag ∉ ts ->
                     oldTag ∉ replaceFirst oldTag newTag ts) as Hgone.
  { induction ts as [|t ts IH]; intros Hnd Hor; [cbn; apply not_elem_of_nil|].
    rewrite replaceFirst_cons. apply NoDup_cons in Hnd as [Ht Hnd].
    destruct (decide (t = oldTag)) as [->|Hto].
    - apply not_elem_of_cons. split; [done|done].
    - apply not_elem_of_cons. split; [done|].
      apply IH; [done|]. destruct Hor as [Hor|Hor].
      + left. intros Hin. apply Hor. by apply list_elem_of_further.
      + right. intros Hin. apply Hor. by apply list_elem_of_further. }
  assert (forall ts, oldTag ∈ ts -> newTag ∈ replaceFirst oldTag newTag ts) as Hnew.
  { induction ts as [|t ts IH]; intros Hin; [by apply elem_of_nil in Hin|].
    rewrite replaceFirst_cons. destruct (decide (t = oldTag)) as [->|Hto].
    - apply list_elem_of_here.
    - apply list_elem_of_further. apply IH.
      apply elem_of_cons in Hin as [->|Hin]; done. }
  assert (forall ts, length (replaceFirst oldTag newTag ts) = length ts) as Hlen.
  { induction ts as [|t ts IH]; [done|].
    rewrite replaceFirst_cons. destruct (decide (t = oldTag)); simpl; [done|].
    by rewrite IH. }
  assert (forall ts t, t ≠ oldTag -> t ≠ newTag ->
                       t ∈ replaceFirst oldTag newTag ts <-> t ∈ ts) as Hothers.
  { induction ts as [|t0 ts IH]; intros t Hto Htn; [by cbn|].
    rewrite replaceFirst_cons. destruct (decide (t0 = oldTag)) as [->|Ht0].
    - rewrite !elem_of_cons. split; intros [?|?]; try done; by right.
    - rewrite !elem_of_cons, IH by done. done. }
  split_and!.
  - unfold renameTag. unfold_host.
    by destruct (0 <? countTagged oldTag (documentsCache w))%nat.
  - by apply renameTag_tagsUnique.
  - apply countTagged_zero. rewrite documentsCache_renameTag.
    intros k doc1 Hk. rewrite lookup_fmap in Hk.
    destruct (documentsCache w !! k) as [doc|] eqn:Hdoc; [|done].
    simpl in Hk. injection Hk as <-. simpl.
    apply Hgone; [by eapply Hunique|].
    destruct (decide (oldTag ∈ tags doc)) as [Hin|Hnot]; [left|by right].
    by eapply Hsafe.
  - intros k doc Hdoc. rewrite documentsCache_renameTag, lookup_fmap, Hdoc. simpl.
    eexists. split; [done|]. simpl. split_and!.
    + apply Hlen.
    + apply Hnew.
    + intros Hnot. rewrite replaceFirst_absent by done. apply withTags_same.
    + intros t. apply Hothers.
Qed.

End TagGuarantees.

Lemma addTagToDocument_once_witness :
  documentsCache Sample.world
    !! getPathFromId Sample.offline (Sample.encode64 Sample.invoicePath)
  = Some Sample.invoice
  ∧ addTagToDocument Sample.offline (Sample.encode64 Sample.invoicePath) "urgent"
      (addTagToDocument Sample.offline (Sample.encode64 Sample.invoicePath) "urgent"
         Sample.world).2
    = (Ok tt,
       (addTagToDocument Sample.offline (Sample.encode64 Sample.invoicePath) "urgent"
          Sample.world).2).
Proof.
  assert (Hdoc : documentsCache Sample.world
                   !! getPathFromId Sample.offline (Sample.encode64 Sample.invoicePath)
                 = Some Sample.invoice) by (vm_compute; reflexivity).
  split; [exact Hdoc|].
  exact (proj2 (proj2 (proj2
           (addTagToDocument_once Sample.offline Sample.world
              (Sample.encode64 Sample.invoicePath) "urgent" Sample.invoice Hdoc)))).
Defined.

Lemma renameTag_replaces_witness :
  "invoice" ≠ "rechnung"
  ∧ tagsUnique (documentsCache Sample.world)
  ∧ map_Forall (fun _ doc => "invoice" ∈ tags doc -> "rechnung" ∉ tags doc)
               (documentsCache Sample.world)
  ∧ (renameTag Sample.offline "invoice" "rechnung" Sample.world).1
    = Ok (countTagged "invoice" (documentsCache Sample.world)).
Proof.
  assert (Hne : "invoice" ≠ "rechnung") by discriminate.
  assert (Hunique : tagsUnique (documentsCache Sample.world))
    by (apply (bool_decide_unpack _); vm_compute; exact I).
  assert (Hsafe : map_Forall (fun _ doc => "invoice" ∈ tags doc -> "rechnung" ∉ tags doc)
                             (documentsCache Sample.world))
    by (apply (bool_decide_unpack _); vm_compute; exact I).
  split; [exact Hne|]. split; [exact Hunique|]. split; [exact Hsafe|].
  exact (proj1 (renameTag_replaces Sample.offline "invoice" "rechnung" Sample.world
                  Hne Hunique Hsafe)).
Defined.

(* ===================================================================== *)
(** ** Search: the results                                                *)
(* ===================================================================== *)

Section SearchResults.

Context (rt : Runtime).

Local Open Scope Qc_scope.

Lemma scoreOfDistance_range d : 0 <= d -> 0 < scoreOfDistance (Some d) ∧ scoreOfDistance (Some d) <= 1.
Proof.
  intros Hd. unfold scoreOfDistance, numberTruthy.
  case_bool_decide as Hzero; simpl.
  - split; [by apply Qc_pos_const|]. by vm_compute.
  - assert (0 < 1 + d) as Hpos.
    { apply Qclt_le_trans with 1; [done|].
      rewrite <- (Qcplus_0_r 1) at 1. by apply Qcplus_le_mono_l. }
    split.
    + unfold Qcdiv. rewrite Qcmult_1_l. by apply Qcinv_pos.
    + apply (Qcmult_le_mono_pos_r _ _ (1 + d) Hpos).
      unfold Qcdiv. rewrite !Qcmult_1_l, Qcmult_inv_l.
      * rewrite <- (Qcplus_0_r 1) at 1. by apply Qcplus_le_mono_l.
      * intros Heq. apply Qclt_not_eq in Hpos. congruence.
Qed.

(** X23: When the remote search answers, [semanticSearch] returns one
    result for each item of the answer, in its order, and does not look
    at the documents folder or the store: the document of a result is
    made from the item alone, so it never carries tags, even when the
    store tracks a tagged record under the same identifier, and its two
    dates are the current time.  A distance that is not negative gives a
    score above 0 and at most 1; a missing distance gives 0.5. *)
Theorem semanticSearch_remote_results query w answer :
  Js.allWhiteSpace query = false ->
  Js.startsWith (Js.toLowerCase query) "tag:" = false ->
  postSearch rt (Js.trim query) 10 = SearchOk answer ->
  exists found,
    semanticSearch rt query w = (Ok found, emit (EvPostSearch (Js.trim query) 10) w)
    ∧ Forall2 (fun item result =>
                 doc_id (document result) = r_id item
                 ∧ tags (document result) = []
                 ∧ createdAt (document result) = now rt
                 ∧ modifiedAt (document result) = now rt
                 ∧ (r_distance item = None -> score result = Q2Qc (1 # 2))
                 ∧ (forall d, r_distance item = Some d -> 0 <= d ->
                      0 < score result ∧ score result <= 1))
              (default [] answer) found.
Proof.
  intros Hblank Htag Hpost.
  exists (map (toSearchResult rt) (default [] answer)).
  split; [by apply semanticSearch_remote_ok|].
  apply Forall2_fmap_r, Forall2_same_length_lookup. split; [done|].
  intros i item item' Hitem Hitem'. rewrite Hitem in Hitem'. injection Hitem' as <-.
  simpl. split_and!; try done.
  - intros Hnone. by rewrite Hnone.
  - intros d Hd Hpos. rewrite Hd. by apply scoreOfDistance_range.
Qed.

Lemma Math_min_le_1 a : Math_min a 1 <= 1.
Proof. unfold Math_min. destruct (decide (a ≤ 1)); [done|]. apply Qcle_refl. Qed.

Lemma specFinalScore_range doc tokens :
  specFinalScore Js.toLowerCase doc tokens ≠ 0 ->
  0 < specFinalScore Js.toLowerCase doc tokens
  ∧ specFinalScore Js.toLowerCase doc tokens <= 1.
Proof.
  intros Hnonzero. split; [|apply Math_min_le_1].
  apply specFinalScore_nonzero in Hnonzero.
  unfold specFinalScore. apply Math_min_pos.
  destruct tokens as [|t tokens]; [by rewrite specAccumulated_nil in Hnonzero|].
  unfold Qcdiv. apply Qcmult_pos_pos; [done|].
  apply Qcinv_pos. by apply Qc_pos_const.
Qed.

(** X24: The lexical scorer returns records of the list it was given,
    each with a score above 0 and at most 1 and with the snippet that
    belongs to the record; a record without any hit for any token of the
    query is never returned. *)
Theorem rankDocuments_hits query docs :
  Forall (fun r =>
            document r ∈ docs
            ∧ 0 < score r ∧ score r <= 1
            ∧ snippet r = snippetOf (document r) (queryTermsOf query)
            ∧ 0 < specAccumulated Js.toLowerCase (document r) (queryTermsOf query))
         (rankDocuments query docs).
Proof.
  rewrite rankDocuments_lexicalScorer. unfold lexicalScorer, specScorer.
  rewrite <- queryTermsOf_specTokens.
  apply Forall_take. rewrite sortByScore_perm.
  apply Forall_forall. intros r Hr.
  apply list_elem_of_filter in Hr as [Hscore Hr].
  apply list_elem_of_fmap in Hr as (doc & -> & Hdoc). simpl in *.
  destruct (specFinalScore_range _ _ Hscore) as [Hpos Hle].
  split_and!; try done.
  by apply specFinalScore_nonzero.
Qed.

End SearchResults.

Lemma semanticSearch_remote_results_witness :
  Js.allWhiteSpace "rechnung" = false
  ∧ Js.startsWith (Js.toLowerCase "rechnung") "tag:" = false
  ∧ postSearch (Sample.online None) (Js.trim "rechnung") 10
    = SearchOk (Some [Sample.hitAt None])
  ∧ exists found,
      semanticSearch (Sample.online None) "rechnung" Sample.world
      = (Ok found, emit (EvPostSearch (Js.trim "rechnung") 10) Sample.world)
      ∧ length found = 1%nat.
Proof.
  split; [reflexivity|]. split; [reflexivity|]. split; [reflexivity|].
  destruct (semanticSearch_remote_results (Sample.online None) "rechnung" Sample.world
              (Some [Sample.hitAt None]) eq_refl eq_refl eq_refl)
    as (found & Hrun & Hitems).
  exists found. split; [exact Hrun|].
  symmetry. exact (Forall2_length _ _ _ Hitems).
Defined.

(* ===================================================================== *)
(** ** The chat participant: how a turn ends                              *)
(* ===================================================================== *)

Section TurnOutcome.

Context (rt : Runtime).

(** X25: A turn of [handleGeneral] fails only when the generation
    fails, and then with its error: a failing knowledge graph or a
    failing search never ends the turn.  The generation is asked with the
    prompt after the retrieval; when it answers, the answer and the two
    follow-up buttons are shown, and when it fails nothing more is
    shown. *)
Theorem handleGeneral_outcome editor prompt w :
  exists context earlier,
    let outcome := handleGeneral rt editor prompt w in
    match chat rt prompt context with
    | Ok response =>
        outcome.1 = Ok ChatSuccess
        ∧ trace outcome.2
          = (trace w ++ earlier
               ++ [EvChat prompt context;
                   EvStream (Markdown response);
                   EvStream (Markdown (nl +:+ nl +:+ "---" +:+ nl +:+ "**Weitere Aktionen:**"));
                   EvStream (Button "dms.semanticSearch" "Suchen");
                   EvStream (Button "dms.openDashboard" "Dashboard")])%list
    | Throw code =>
        outcome.1 = Throw code
        ∧ trace outcome.2 = (trace w ++ earlier ++ [EvChat prompt context])%list
    end.
Proof.
  unfold handleGeneral.
  rewrite (bind_ok _ _ w tt (emit (EvStream (Progress "Sammle Kontext...")) w))
    by reflexivity.
  destruct (graphStep_spec rt prompt (editorContext rt editor)
              (emit (EvStream (Progress "Sammle Kontext...")) w))
    as (context & wg & evsg & Hgraph & (Hc & Hi & Hg & Htraceg) & Hiff).
  rewrite (bind_ok _ _ _ _ _ Hgraph).
  destruct (searchStep_spec rt prompt context wg)
    as (results & w2 & ws & evss & Hsearch & Hstep & Htraces & Hquiet).
  rewrite (bind_ok _ _ _ _ _ Hstep).
  exists (context +:+ searchContext results),
    (EvStream (Progress "Sammle Kontext...") :: evsg ++ evss
       ++ [EvStream (Progress "Generiere Antwort...")])%list.
  assert (Htrace : trace ws
            = (trace w ++ (EvStream (Progress "Sammle Kontext...") :: evsg) ++ evss)%list).
  { rewrite Htraces, Htraceg. cbn. by rewrite <- !app_assoc. }
  unfold bind, stream, callChat, bind, tell, modifyWorld, ret.
  destruct (chat rt prompt (context +:+ searchContext results)) as [response|code].
  - split; [done|]. cbn. rewrite Htrace. rewrite <- ?app_assoc. cbn.
    rewrite <- ?app_assoc. reflexivity.
  - split; [done|]. cbn. rewrite Htrace. rewrite <- ?app_assoc. cbn.
    rewrite <- ?app_assoc. reflexivity.
Qed.

End TurnOutcome.

(* ===================================================================== *)
(** ** Automatic renaming                                                 *)
(* ===================================================================== *)

Section AutoRenameFacts.

Context (rt : Runtime) (pf : Platform).

Lemma length_append (a b : string) :
  String.length (a +:+ b) = (String.length a + String.length b)%nat.
Proof. induction a as [|c a IH]; simpl; [done|]. by rewrite IH. Qed.

Lemma substringFrom_append (a b : string) :
  Js.substringFrom (String.length a) (a +:+ b) = b.
Proof. induction a as [|c a IH]; simpl; [by destruct b|done]. Qed.

Lemma endsWith_append (a b : string) : JsText.endsWith (a +:+ b) b = true.
Proof.
  unfold JsText.endsWith. rewrite length_append.
  replace (String.length a + String.length b - String.length b)%nat
    with (String.length a) by lia.
  rewrite substringFrom_append, String.eqb_refl, andb_true_r.
  apply Nat.leb_le. lia.
Qed.

(** A string contains a blank when one of its code units is the blank. *)
Lemma includes_blank s :
  Js.includes s " " = true <-> " "%char ∈ list_ascii_of_string s.
Proof.
  unfold Js.includes. rewrite bool_decide_eq_true.
  induction s as [|c s IH].
  - cbn. split; [by intros [? ?]|]. intros Hin. by apply elem_of_nil in Hin.
  - cbn [Js.indexOf Js.startsWith list_ascii_of_string].
    destruct (Ascii.eqb_spec " " c) as [<-|Hne].
    + split; [intros _; apply list_elem_of_here|by eexists].
    + rewrite elem_of_cons, <- IH. rewrite fmap_is_Some.
      split; [by right|]. intros [?|?]; done.
Qed.

Lemma chars_append (a b : string) :
  list_ascii_of_string (a +:+ b)
  = (list_ascii_of_string a ++ list_ascii_of_string b)%list.
Proof. induction a as [|c a IH]; simpl; [done|]. by rewrite IH. Qed.

Lemma underscoreSpaces_blank s : " "%char ∉ list_ascii_of_string (underscoreSpaces s).
Proof.
  induction s as [|c s IH]; simpl; [apply not_elem_of_nil|].
  apply not_elem_of_cons. split; [|done].
  destruct (Js.isWhiteSpace c) eqn:Hc; [done|].
  intros <-. done.
Qed.

(** The name that [autoRenameDocument] chooses keeps the extension, and
    has no blank when the extension has none. *)
Lemma chosenFilename_shape oldPath response :
  JsText.endsWith (chosenFilename rt oldPath response) (extname rt oldPath) = true
  ∧ (Js.includes (extname rt oldPath) " " = false ->
     Js.includes (chosenFilename rt oldPath response) " " = false).
Proof.
  unfold chosenFilename.
  destruct (JsText.endsWith (removeQuotes (Js.trim response)) (extname rt oldPath)) eqn:Hends;
    [destruct (Js.includes (removeQuotes (Js.trim response)) " ") eqn:Hblank|]; simpl.
  - split; [apply endsWith_append|]. intros Hext.
    apply not_true_iff_false. rewrite includes_blank, chars_append, elem_of_app.
    intros [Hin|Hin].
    + by apply underscoreSpaces_blank in Hin.
    + apply includes_blank in Hin. congruence.
  - done.
  - split; [apply endsWith_append|]. intros Hext.
    apply not_true_iff_false. rewrite includes_blank, chars_append, elem_of_app.
    intros [Hin|Hin].
    + by apply underscoreSpaces_blank in Hin.
    + apply includes_blank in Hin. congruence.
Qed.

Lemma renameDocument_accepted oldPath newFilename h name :
  (renameDocument rt pf oldPath newFilename h).1 = Ok name ->
  name = newFilename
  ∧ oldPath ∈ existing h
  ∧ join pf (dirname pf oldPath) newFilename ∉ existing h.
Proof.
  unfold renameDocument. unfold_host.
  destruct (decide (oldPath ∈ existing h)) as [Hold|Hold];
    [rewrite bool_decide_true by done|by rewrite bool_decide_false].
  simpl.
  destruct (decide (join pf (dirname pf oldPath) newFilename ∈ existing h)) as [Hnew|Hnew];
    [by rewrite bool_decide_true|rewrite bool_decide_false by done].
  unfold renameSync. unfold_host. simpl.
  destruct (documentsCache (service h) !! oldPath); simpl; intros [= <-]; done.
Qed.

(** [autoRenameDocument], step by step. *)
Lemma autoRenameDocument_eq documentId h :
  autoRenameDocument rt pf documentId h =
    let oldPath := getPathFromId rt documentId in
    match documentsCache (service h) !! oldPath with
    | Some doc =>
        let content := renameContent rt pf doc oldPath in
        if negb (Js.truthy content) || (String.length content <? 10)%nat
        then (Throw INVALID_DOCUMENT, h)
        else
          let prompt := autoRenamePrompt rt oldPath content in
          let h1 := setService (emit (EvChat prompt "") (service h)) h in
          match chat rt prompt "" with
          | Ok response =>
              renameDocument rt pf oldPath (chosenFilename rt oldPath response) h1
          | Throw code => (Throw code, h1)
          end
    | None => (Throw FILE_NOT_FOUND, h)
    end.
Proof.
  unfold autoRenameDocument. unfold bindH at 1, getHost at 1. simpl.
  destruct (documentsCache (service h) !! getPathFromId rt documentId) as [doc|]; [|done].
  destruct (negb _ || _); [done|].
  unfold bindH, liftM, callChat, bind, tell, modifyWorld. simpl.
  by destruct (chat rt _ _).
Qed.

(** X26: A name that [autoRenameDocument] returns keeps the extension of
    the file, whatever the language model answered, and has no blank when
    the extension has none; the file of a tracked record has then been
    renamed to it in its folder, and the record has moved with its tags.
    An identifier that is not tracked is refused with [FILE_NOT_FOUND]
    before the language model is asked. *)
Theorem autoRenameDocument_keeps_extension documentId h :
  let oldPath := getPathFromId rt documentId in
  let outcome := autoRenameDocument rt pf documentId h in
  (documentsCache (service h) !! oldPath = None -> outcome = (Throw FILE_NOT_FOUND, h))
  ∧ (forall name,
       outcome.1 = Ok name ->
       JsText.endsWith name (extname rt oldPath) = true
       ∧ (Js.includes (extname rt oldPath) " " = false -> Js.includes name " " = false)
       ∧ CallRename oldPath (join pf (dirname pf oldPath) name) ∈ calls outcome.2
       ∧ exists doc,
           documentsCache (service h) !! oldPath = Some doc
           ∧ documentsCache (service outcome.2) !! oldPath = None
           ∧ tags <$> documentsCache (service outcome.2)
                        !! join pf (dirname pf oldPath) name
             = Some (tags doc)).
Proof.
  intros oldPath outcome. subst outcome. rewrite autoRenameDocument_eq. fold oldPath.
  cbv zeta.
  destruct (documentsCache (service h) !! oldPath) as [doc|] eqn:Hdoc; [|done].
  split; [done|]. intros name.
  destruct (negb _ || _); [done|].
  set (prompt := autoRenamePrompt rt oldPath (renameContent rt pf doc oldPath)).
  set (h1 := setService (emit (EvChat prompt "") (service h)) h).
  destruct (chat rt prompt "") as [response|code]; [|done].
  intros Hname.
  destruct (renameDocument_accepted _ _ _ _ Hname) as (-> & Hold & Hnew).
  destruct (chosenFilename_shape oldPath response) as [Hends Hblank].
  assert (documentsCache (service h1) !! oldPath = Some doc) as Hdoc1 by done.
  split; [done|]. split; [done|].
  rewrite (renameDocument_tracked rt pf _ _ _ _ Hold Hnew Hdoc1). simpl.
  assert (join pf (dirname pf oldPath) (chosenFilename rt oldPath response) ≠ oldPath)
    as Hne by (intros Heq; by rewrite Heq in Hnew).
  split.
  - apply elem_of_app. right. apply list_elem_of_here.
  - exists doc. split; [done|]. split.
    + rewrite lookup_insert_ne by done. apply lookup_delete_eq.
    + by rewrite lookup_insert_eq.
Qed.

End AutoRenameFacts.

(** The sample model answers with blanks and quotes around the name: the
    blanks go, the extension stays. *)
Example autoRenameDocument_sample :
  (autoRenameDocument Demo.naming Demo.platform (Sample.encode64 Sample.invoicePath)
     Demo.host).1
  = Ok "2024-03-01_Telekom_Rechnung.pdf".
Proof. vm_compute. reflexivity. Qed.

(** The fallback of [runOcr] on the sample files: a note is read, a PDF
    and a picture get a notice, a letter is refused. *)
Example runOcr_samples :
  (runOcr Sample.offline Demo.platform Demo.notesPath Demo.desk).1 = Ok "Notiz vom Montag"
  ∧ (runOcr Sample.offline Demo.platform Demo.letterPath Demo.desk).1
    = Throw INVALID_DOCUMENT
  ∧ (runOcr Sample.offline Demo.platform "/docs/missing.pdf" Demo.desk).1
    = Throw FILE_NOT_FOUND
  ∧ (runOcr Sample.offline Demo.scanning Demo.notesPath Demo.desk).1
    = Ok "Rechnung Nr. 17 der Telekom".
Proof. repeat split; vm_compute; reflexivity. Qed.

Example getTags_sample :
  (getTags Sample.offline Sample.world).1 = Ok ["finance"; "invoice"; "legal"].
Proof. vm_compute. reflexivity. Qed.

Example getRelativeTime_samples :
  getRelativeTime (fun _ => "1.6.2024") 1717200000000 1717199970000 = "gerade eben"
  ∧ getRelativeTime (fun _ => "1.6.2024") 1717200000000 1717199700000 = "vor 5 Min."
  ∧ getRelativeTime (fun _ => "1.6.2024") 1717200000000 1717189200000 = "vor 3 Std."
  ∧ getRelativeTime (fun _ => "1.6.2024") 1717200000000 1717027200000 = "vor 2 Tagen"
  ∧ getRelativeTime (fun _ => "1.6.2024") 1717200000000 1717200060000 = "gerade eben".
Proof. repeat split; vm_compute; reflexivity. Qed.

Lemma tag_view_query_finds_witness :
  (exists listed, (getTags Sample.offline Sample.world).1 = Ok listed ∧ "invoice" ∈ listed)
  ∧ Js.trim "invoice" = "invoice"
  ∧ exists results,
      (semanticSearch Sample.offline (tagQuery "invoice")
         (getTags Sample.offline Sample.world).2).1 = Ok results
      ∧ results ≠ [].
Proof.
  assert (Hlisted : exists listed,
            (getTags Sample.offline Sample.world).1 = Ok listed ∧ "invoice" ∈ listed).
  { exists ["finance"; "invoice"; "legal"]. split; [vm_compute; reflexivity|].
    apply (bool_decide_unpack _). vm_compute. exact I. }
  split; [exact Hlisted|]. split; [reflexivity|].
  destruct (tag_view_query_finds Sample.offline Sample.world "invoice" Hlisted eq_refl)
    as (results & Hrun & Hnonempty & _).
  exists results. split; [exact Hrun|exact Hnonempty].
Defined.

(* ===================================================================== *)
(** ** Import: name conflicts                                             *)
(* ===================================================================== *)

Section ImportFacts.

Context (rt : Runtime) (pf : Platform).

Lemma append_inj_l (a b c : string) : a +:+ b = a +:+ c -> b = c.
Proof. induction a as [|x a IH]; simpl; [done|]. intros [= Heq]. by apply IH. Qed.

Lemma chars_inj (a b : string) : list_ascii_of_string a = list_ascii_of_string b -> a = b.
Proof.
  intros Heq. rewrite <- (string_of_list_ascii_of_string a),
    <- (string_of_list_ascii_of_string b). by rewrite Heq.
Qed.

Lemma append_inj_r (a b e : string) : a +:+ e = b +:+ e -> a = b.
Proof.
  intros Heq. apply chars_inj.
  apply (f_equal list_ascii_of_string) in Heq. rewrite !chars_append in Heq.
  by apply app_inv_tail in Heq.
Qed.

Lemma decimal_inj (a b : Z) : JsText.decimal a = JsText.decimal b -> a = b.
Proof.
  unfold JsText.decimal. intros Heq.
  assert (forall z, DecimalString.NilZero.int_of_string (DecimalString.NilZero.string_of_int (Z.to_int z))
                    = Some (Z.to_int z)) as Hread.
  { intros z. apply DecimalString.NilZero.isi; destruct z as [|p|p]; simpl; try done.
    - intros [= Hnil]. by apply DecimalPos.Unsigned.to_uint_nonnil in Hnil.
    - intros [= Hnil]. by apply DecimalPos.Unsigned.to_uint_nonnil in Hnil. }
  apply (f_equal DecimalString.NilZero.int_of_string) in Heq. rewrite !Hread in Heq.
  injection Heq as Heq. by apply DecimalZ.to_int_inj.
Qed.

(** With [path.join] one-to-one on the names of a folder, the numbered
    paths of a file are pairwise distinct. *)
Lemma numberedPath_inj destPath i j :
  (forall a b, join pf (dirname pf destPath) a = join pf (dirname pf destPath) b -> a = b) ->
  numberedPath rt pf destPath i = numberedPath rt pf destPath j -> i = j.
Proof.
  intros Hjoin Heq. unfold numberedPath in Heq.
  apply Hjoin, append_inj_l, append_inj_l, append_inj_r, decimal_inj in Heq. lia.
Qed.

Lemma freeCounter_Some taken destPath rounds counter k :
  freeCounter rt pf taken destPath rounds counter = Some k ->
  (counter <= k)%nat
  ∧ (numberedPath rt pf destPath k ∉ taken)
  ∧ forall j, (counter <= j < k)%nat -> numberedPath rt pf destPath j ∈ taken.
Proof.
  revert counter. induction rounds as [|rounds IH]; intros counter; simpl; [done|].
  case_bool_decide as Htaken.
  - intros Hk. apply IH in Hk as (Hle & Hfree & Hbelow).
    split_and!; [lia|done|].
    intros j Hj. destruct (decide (j = counter)) as [->|Hne]; [done|].
    apply Hbelow. lia.
  - intros [= <-]. split_and!; [lia|done|]. intros j Hj. lia.
Qed.

Lemma freeCounter_None taken destPath rounds counter :
  freeCounter rt pf taken destPath rounds counter = None ->
  forall j, (counter <= j < counter + rounds)%nat -> numberedPath rt pf destPath j ∈ taken.
Proof.
  revert counter. induction rounds as [|rounds IH]; intros counter; simpl.
  - intros _ j Hj. lia.
  - case_bool_decide as Htaken; [|done].
    intros Hnone j Hj. destruct (decide (j = counter)) as [->|Hne]; [done|].
    apply (IH _ Hnone). lia.
Qed.

(** More rounds do not change a number that was found. *)
Lemma freeCounter_more taken destPath rounds rounds' counter k :
  freeCounter rt pf taken destPath rounds counter = Some k ->
  (rounds <= rounds')%nat ->
  freeCounter rt pf taken destPath rounds' counter = Some k.
Proof.
  revert rounds' counter. induction rounds as [|rounds IH]; intros rounds' counter; simpl;
    [done|].
  intros Hk Hle. destruct rounds' as [|rounds']; [lia|]. simpl.
  case_bool_decide; [|done]. apply IH; [done|lia].
Qed.

(** As many rounds as there are files, and one more, are enough. *)
Lemma freeCounter_enough (taken : gset string) destPath counter :
  (forall i j, numberedPath rt pf destPath i = numberedPath rt pf destPath j -> i = j) ->
  is_Some (freeCounter rt pf taken destPath (S (size taken)) counter).
Proof.
  intros Hinj.
  destruct (freeCounter rt pf taken destPath (S (size taken)) counter) as [k|] eqn:Hfree;
    [by eexists|].
  exfalso.
  pose proof (freeCounter_None _ _ _ _ Hfree) as Hall.
  set (paths := map (numberedPath rt pf destPath) (seq counter (S (size taken)))).
  assert (NoDup paths) as Hnd.
  { apply NoDup_fmap_2_strong; [|apply NoDup_seq].
    intros i j _ _ Heq. by apply Hinj. }
  assert (list_to_set paths ⊆ taken) as Hsub.
  { intros p Hp. apply elem_of_list_to_set in Hp.
    apply list_elem_of_fmap in Hp as (j & -> & Hj).
    apply elem_of_seq in Hj. apply Hall. lia. }
  apply subseteq_size in Hsub.
  rewrite size_list_to_set in Hsub by done.
  unfold paths in Hsub. rewrite length_map, length_seq in Hsub. lia.
Qed.


End ImportFacts.


(** The three strategies on the sample installation: the invoice
    exists, and so does no numbered copy of it. *)
Example handleFileImport_samples :
  handleFileImport Sample.offline Demo.platform 4 "/inbox/Invoice_2024.pdf"
    Sample.invoicePath rename Demo.host
  = copyInto Demo.platform "/inbox/Invoice_2024.pdf" "/docs/Invoice_2024_1.pdf" Demo.host
  ∧ handleFileImport Sample.offline Demo.platform 4 "/inbox/Invoice_2024.pdf"
      Sample.invoicePath overwrite Demo.host
    = copyInto Demo.platform "/inbox/Invoice_2024.pdf" Sample.invoicePath Demo.host.
Proof. split; vm_compute; reflexivity. Qed.

(* ===================================================================== *)
(** ** Removing a tag, and what a restart would find                      *)
(* ===================================================================== *)

Section Persisted.

Context (rt : Runtime) (pf : Platform).

(** X28: [removeTagFromDocument] on a tracked record: afterwards the
    record does not carry the tag, its other tags are as before and in
    their order, and no other record changes.  The index is written even
    when the record did not carry the tag, and removing once more leaves
    the records as they are. *)
Theorem removeTagFromDocument_removes w id tag doc :
  let key := getPathFromId rt id in
  let outcome := removeTagFromDocument rt id tag w in
  documentsCache w !! key = Some doc ->
  outcome.1 = Ok tt
  ∧ tags <$> documentsCache outcome.2 !! key = Some (filter (fun t => t ≠ tag) (tags doc))
  ∧ (forall t, t ∈ filter (fun t => t ≠ tag) (tags doc) <-> t ≠ tag ∧ t ∈ tags doc)
  ∧ (NoDup (tags doc) -> NoDup (filter (fun t => t ≠ tag) (tags doc)))
  ∧ (forall k, k ≠ key -> documentsCache outcome.2 !! k = documentsCache w !! k)
  ∧ trace outcome.2 = (trace w ++ [EvWriteIndex; EvUpdateGlobalState])%list
  ∧ documentsCache (removeTagFromDocument rt id tag outcome.2).2 = documentsCache outcome.2.
Proof.
  intros key outcome Hdoc. subst key outcome.
  rewrite (removeTagFromDocument_tracked rt _ _ _ _ Hdoc).
  split_and!.
  - done.
  - rewrite documentsCache_save. simpl. by rewrite lookup_insert_eq.
  - intros t. by rewrite list_elem_of_filter.
  - apply NoDup_filter.
  - intros k Hk. rewrite documentsCache_save. simpl. by rewrite lookup_insert_ne.
  - done.
  - erewrite removeTagFromDocument_tracked.
    2: { rewrite documentsCache_save. simpl. apply lookup_insert_eq. }
    rewrite !documentsCache_save. simpl.
    rewrite insert_insert_eq. f_equal. unfold withTags. simpl. f_equal.
    apply filter_ne_id, filter_ne_absent.
Qed.

Ltac persisted_step Hwrite :=
  first [ done
        | unfold persisted, saveDocumentsCache; simpl; rewrite ?Hwrite; done ].

(** Only the stores count. *)
Lemma persisted_stores w w' :
  documentsCache w' = documentsCache w ->
  indexFile w' = indexFile w ->
  globalState w' = globalState w ->
  persisted w -> persisted w'.
Proof. unfold persisted. intros -> -> ->. done. Qed.

Lemma replaceFirst_none oldTag newTag (cache : gmap string DmsDocument) :
  countTagged oldTag cache = 0%nat ->
  (fun doc => withTags doc (replaceFirst oldTag newTag (tags doc))) <$> cache = cache.
Proof.
  intros Hzero. apply countTagged_zero in Hzero.
  apply map_eq. intros k. rewrite lookup_fmap.
  destruct (cache !! k) as [doc|] eqn:Hk; simpl; [|done].
  rewrite replaceFirst_absent by (by eapply Hzero). by rewrite withTags_same.
Qed.

Lemma deleteTag_none tag (cache : gmap string DmsDocument) :
  countTagged tag cache = 0%nat ->
  (fun doc => if bool_decide (tag ∈ tags doc)
              then withTags doc (filter (fun t => t ≠ tag) (tags doc))
              else doc) <$> cache = cache.
Proof.
  intros Hzero. apply countTagged_zero in Hzero.
  apply map_eq. intros k. rewrite lookup_fmap.
  destruct (cache !! k) as [doc|] eqn:Hk; simpl; [|done].
  rewrite bool_decide_false; [done|]. by eapply Hzero.
Qed.

Lemma persisted_addTagToDocument w id tag :
  writeFileSucceeds rt = true -> persisted w ->
  persisted (addTagToDocument rt id tag w).2.
Proof.
  intros Hwrite Hw. unfold addTagToDocument. unfold_host.
  destruct (documentsCache w !! getPathFromId rt id) as [doc|]; [|done].
  case_bool_decide; [done|]. persisted_step Hwrite.
Qed.

Lemma persisted_removeTagFromDocument w id tag :
  writeFileSucceeds rt = true -> persisted w ->
  persisted (removeTagFromDocument rt id tag w).2.
Proof.
  intros Hwrite Hw. unfold removeTagFromDocument. unfold_host.
  destruct (documentsCache w !! getPathFromId rt id) as [doc|]; [|done].
  persisted_step Hwrite.
Qed.

Lemma persisted_renameTag w oldTag newTag :
  writeFileSucceeds rt = true -> persisted w ->
  persisted (renameTag rt oldTag newTag w).2.
Proof.
  intros Hwrite Hw. unfold renameTag. unfold_host.
  destruct (countTagged oldTag (documentsCache w)) as [|n] eqn:Hcount; simpl.
  - rewrite (replaceFirst_none _ _ _ Hcount). by rewrite setCache_same.
  - persisted_step Hwrite.
Qed.

Lemma persisted_deleteTag w tag :
  writeFileSucceeds rt = true -> persisted w ->
  persisted (deleteTag rt tag w).2.
Proof.
  intros Hwrite Hw. unfold deleteTag. unfold_host.
  destruct (countTagged tag (documentsCache w)) as [|n] eqn:Hcount; simpl.
  - rewrite (deleteTag_none _ _ Hcount). by rewrite setCache_same.
  - persisted_step Hwrite.
Qed.

Lemma persisted_getDocuments w :
  writeFileSucceeds rt = true -> persisted (getDocuments rt w).2.
Proof.
  intros Hwrite. rewrite getDocuments_eq.
  destruct (collectDocuments rt (readDocumentsDir rt) (documentsCache w)).
  persisted_step Hwrite.
Qed.

Lemma persisted_onDidCreate fsPath h :
  writeFileSucceeds rt = true -> persisted (service h) ->
  persisted (service (onDidCreate rt fsPath h).2).
Proof.
  intros Hwrite Hh. unfold onDidCreate.
  destruct (isSupportedFile rt fsPath); [|done]. unfold_host.
  destruct (documentsCache (service h) !! fsPath); [done|].
  simpl. persisted_step Hwrite.
Qed.

Lemma persisted_onDidDelete fsPath h :
  writeFileSucceeds rt = true -> persisted (service h) ->
  persisted (service (onDidDelete rt fsPath h).2).
Proof.
  intros Hwrite Hh. unfold onDidDelete. unfold_host.
  destruct (documentsCache (service h) !! fsPath); [|done].
  simpl. persisted_step Hwrite.
Qed.

Lemma persisted_onDidChange fsPath h :
  writeFileSucceeds rt = true -> persisted (service h) ->
  persisted (service (onDidChange rt fsPath h).2).
Proof.
  intros Hwrite Hh. unfold onDidChange.
  destruct (isSupportedFile rt fsPath); [|done]. unfold_host.
  destruct (documentsCache (service h) !! fsPath); [|done].
  simpl. persisted_step Hwrite.
Qed.

Lemma persisted_renameDocument oldPath newFilename h :
  writeFileSucceeds rt = true -> persisted (service h) ->
  persisted (service (renameDocument rt pf oldPath newFilename h).2).
Proof.
  intros Hwrite Hh. unfold renameDocument. unfold_host.
  destruct (negb (bool_decide (oldPath ∈ existing h))); [done|].
  destruct (bool_decide (_ ∈ existing h)); [done|].
  unfold renameSync. unfold_host. simpl.
  destruct (documentsCache (service h) !! oldPath); simpl; [|done].
  persisted_step Hwrite.
Qed.

Lemma persisted_runOcr fsPath h :
  writeFileSucceeds rt = true -> persisted (service h) ->
  persisted (service (runOcr rt pf fsPath h).2).
Proof.
  intros Hwrite Hh.
  destruct (decide (fsPath ∈ existing h)) as [Hyes|Hno].
  - destruct (postOcr pf fsPath) as [answer|] eqn:Hpost.
    + rewrite (runOcr_answered _ _ _ _ _ Hyes Hpost).
      destruct (documentsCache (service h) !! fsPath); simpl; [|done].
      persisted_step Hwrite.
    + by rewrite (runOcr_fallback _ _ _ _ Hyes Hpost).
  - by rewrite (runOcr_missing _ _ _ _ Hno).
Qed.

Lemma persisted_autoTagDocument docId w :
  writeFileSucceeds rt = true -> persisted w ->
  persisted (autoTagDocument rt pf docId w).2.
Proof.
  intros Hwrite Hw. rewrite autoTagDocument_eq.
  destruct (documentsCache w !! getPathFromId rt docId) as [doc|]; [|done].
  destruct (textOf rt pf doc) as [text|code]; [|done].
  simpl. destruct (chat rt _ _) as [response|code].
  - persisted_step Hwrite.
  - simpl. eapply persisted_stores; [..|by apply (persisted_getDocuments w)]; done.
Qed.

Lemma persisted_autoRenameDocument documentId h :
  writeFileSucceeds rt = true -> persisted (service h) ->
  persisted (service (autoRenameDocument rt pf documentId h).2).
Proof.
  intros Hwrite Hh. rewrite autoRenameDocument_eq. cbv zeta.
  destruct (documentsCache (service h) !! getPathFromId rt documentId) as [doc|]; [|done].
  destruct (negb _ || _); [done|].
  destruct (chat rt _ _) as [response|code]; [|done].
  by apply persisted_renameDocument.
Qed.

(** X29: Nothing is lost by a restart.  When writing the index file goes
    through and the index file and the mirror hold what the store holds,
    they still do so after every operation that can change the store:
    the four tag mutations, the three watcher events, renaming by hand
    or by the language model, OCR, and automatic tagging; after a scan
    they do so in any case. *)
Theorem store_stays_persisted w h :
  writeFileSucceeds rt = true ->
  persisted w ->
  persisted (service h) ->
  (forall id tag, persisted (addTagToDocument rt id tag w).2
                  ∧ persisted (removeTagFromDocument rt id tag w).2)
  ∧ (forall oldTag newTag, persisted (renameTag rt oldTag newTag w).2)
  ∧ (forall tag, persisted (deleteTag rt tag w).2)
  ∧ (forall w0, persisted (getDocuments rt w0).2)
  ∧ (forall docId, persisted (autoTagDocument rt pf docId w).2)
  ∧ (forall fsPath,
       persisted (service (onDidCreate rt fsPath h).2)
       ∧ persisted (service (onDidDelete rt fsPath h).2)
       ∧ persisted (service (onDidChange rt fsPath h).2)
       ∧ persisted (service (runOcr rt pf fsPath h).2))
  ∧ (forall oldPath newFilename,
       persisted (service (renameDocument rt pf oldPath newFilename h).2))
  ∧ (forall documentId, persisted (service (autoRenameDocument rt pf documentId h).2)).
Proof.
  intros Hwrite Hw Hh. split_and!.
  - intros id tag. split.
    + by apply persisted_addTagToDocument.
    + by apply persisted_removeTagFromDocument.
  - intros oldTag newTag. by apply persisted_renameTag.
  - intros tag. by apply persisted_deleteTag.
  - intros w0. by apply persisted_getDocuments.
  - intros docId. by apply persisted_autoTagDocument.
  - intros fsPath. split_and!.
    + by apply persisted_onDidCreate.
    + by apply persisted_onDidDelete.
    + by apply persisted_onDidChange.
    + by apply persisted_runOcr.
  - intros oldPath newFilename. by apply persisted_renameDocument.
  - intros documentId. by apply persisted_autoRenameDocument.
Qed.

End Persisted.

Lemma removeTagFromDocument_removes_witness :
  documentsCache Sample.world
    !! getPathFromId Sample.offline (Sample.encode64 Sample.invoicePath)
  = Some Sample.invoice
  ∧ tags <$>
      documentsCache
        (removeTagFromDocument Sample.offline (Sample.encode64 Sample.invoicePath) "invoice"
           Sample.world).2
      !! getPathFromId Sample.offline (Sample.encode64 Sample.invoicePath)
    = Some (filter (fun t => t ≠ "invoice") (tags Sample.invoice)).
Proof.
  assert (Hdoc : documentsCache Sample.world
                   !! getPathFromId Sample.offline (Sample.encode64 Sample.invoicePath)
                 = Some Sample.invoice) by (vm_compute; reflexivity).
  split; [exact Hdoc|].
  exact (proj1 (proj2
           (removeTagFromDocument_removes Sample.offline Sample.world
              (Sample.encode64 Sample.invoicePath) "invoice" Sample.invoice Hdoc))).
Defined.

Lemma store_stays_persisted_witness :
  writeFileSucceeds Sample.offline = true
  ∧ persisted (saveDocumentsCache Sample.offline Sample.world).2
  ∧ persisted
      (renameTag Sample.offline "invoice" "rechnung"
         (saveDocumentsCache Sample.offline Sample.world).2).2.
Proof.
  assert (Hw : persisted (saveDocumentsCache Sample.offline Sample.world).2)
    by (split; vm_compute; reflexivity).
  split; [reflexivity|]. split; [exact Hw|].
  exact (proj1 (proj2
           (store_stays_persisted Sample.offline Demo.platform
              (saveDocumentsCache Sample.offline Sample.world).2
              (setService (saveDocumentsCache Sample.offline Sample.world).2 Demo.host)
              eq_refl Hw Hw))
           "invoice" "rechnung").
Defined.
